(** * The tolerant structural comparator and the metrics aggregator

    A shallow embedding of [src/utils/metrics-calculator.ts]
    (class [MetricsCalculator]) together with the part of the JavaScript
    runtime its code relies on: the value universe of parsed JSON, [typeof],
    truthiness, [===], [Object.keys], the [in] operator with its walk along
    the prototype chain, and IEEE-754 double arithmetic (the kernel's
    primitive binary64 floats, so that every number below is the bit pattern
    the program computes). *)

From Stdlib Require Import ZArith List String Ascii Bool Lia Floats DecimalString.
From Stdlib Require DecimalNat DecimalFacts.
From Stdlib Require Import Permutation Sorted.
Import ListNotations.
Open Scope string_scope.
Open Scope list_scope.

(* ================================================================== *)
(** * The JavaScript values the comparator meets *)
(* ================================================================== *)

Module JS.

(** The two prototype objects a JSON tree inherits from. *)
Inductive proto := ObjectPrototype | ArrayPrototype.

(** Values.  A JSON document is built from the first seven constructors; the
    last two are what a property read on such a document can additionally
    return when the name is found on the prototype chain ([({}).toString] is
    a built-in function, [({}).__proto__] is [Object.prototype]).

    [VObj] lists the own enumerable properties in [Object.keys] order; a
    JavaScript object holds each key once.  Strings are sequences of
    character codes (UTF-16 code units in the runtime).  Arrays are dense, as
    [JSON.parse] builds them. *)
#[local] Unset Elimination Schemes.
Inductive value :=
| VUndefined
| VNull
| VBool (b : bool)
| VNum (x : float)
| VStr (s : string)
| VArr (items : list value)
| VObj (fields : list (string * value))
| VProto (p : proto)
| VFunction (owner : proto) (name : string).
#[local] Set Elimination Schemes.

Section ValueInduction.

Variable P : value -> Prop.
Hypothesis HUndefined : P VUndefined.
Hypothesis HNull : P VNull.
Hypothesis HBool : forall b, P (VBool b).
Hypothesis HNum : forall x, P (VNum x).
Hypothesis HStr : forall s, P (VStr s).
Hypothesis HArr : forall items, Forall P items -> P (VArr items).
Hypothesis HObj : forall fields, Forall (fun f => P (snd f)) fields -> P (VObj fields).
Hypothesis HProto : forall p, P (VProto p).
Hypothesis HFunction : forall p n, P (VFunction p n).

(** Induction over a value tree, with the hypothesis available for every
    element of an array and every property value of an object. *)
Fixpoint value_ind (v : value) : P v :=
  match v with
  | VUndefined => HUndefined
  | VNull => HNull
  | VBool b => HBool b
  | VNum x => HNum x
  | VStr s => HStr s
  | VArr items =>
      HArr items
        ((fix all (l : list value) : Forall P l :=
            match l with
            | [] => Forall_nil P
            | x :: r => Forall_cons x (value_ind x) (all r)
            end) items)
  | VObj fields =>
      HObj fields
        ((fix all (l : list (string * value)) : Forall (fun f => P (snd f)) l :=
            match l with
            | [] => Forall_nil _
            | x :: r => Forall_cons x (value_ind (snd x)) (all r)
            end) fields)
  | VProto p => HProto p
  | VFunction p n => HFunction p n
  end.

End ValueInduction.

(** The results of [typeof]. *)
Inductive type_tag := TUndefined | TObject | TBoolean | TNumber | TString | TFunction.

Definition typeof (v : value) : type_tag :=
  match v with
  | VUndefined => TUndefined
  | VNull => TObject
  | VBool _ => TBoolean
  | VNum _ => TNumber
  | VStr _ => TString
  | VArr _ | VObj _ | VProto _ => TObject
  | VFunction _ _ => TFunction
  end.

Definition type_tag_eqb (a b : type_tag) : bool :=
  match a, b with
  | TUndefined, TUndefined | TObject, TObject | TBoolean, TBoolean
  | TNumber, TNumber | TString, TString | TFunction, TFunction => true
  | _, _ => false
  end.

Definition proto_eqb (p q : proto) : bool :=
  match p, q with
  | ObjectPrototype, ObjectPrototype | ArrayPrototype, ArrayPrototype => true
  | _, _ => false
  end.

(** [ToBoolean]: the falsy values are [undefined], [null], [false], [+0],
    [-0], [NaN] and the empty string. *)
Definition truthy (v : value) : bool :=
  match v with
  | VUndefined | VNull => false
  | VBool b => b
  | VNum x => negb (PrimFloat.eqb x 0 || PrimFloat.is_nan x)
  | VStr s => negb (s =? "")
  | VArr _ | VObj _ | VProto _ | VFunction _ _ => true
  end.

(** Strict equality [===].  Numbers compare as IEEE doubles ([NaN] differs
    from itself, the two zeros are equal), strings by content.  Arrays and
    objects compare by reference: the two trees handed to the comparator are
    allocated separately (the expected response from the test file, the
    actual one from the provider's reply), so no array or object of one is an
    array or object of the other.  The built-in objects exist once. *)
Definition strict_eq (a b : value) : bool :=
  match a, b with
  | VUndefined, VUndefined => true
  | VNull, VNull => true
  | VBool x, VBool y => Bool.eqb x y
  | VNum x, VNum y => PrimFloat.eqb x y
  | VStr x, VStr y => x =? y
  | VProto p, VProto q => proto_eqb p q
  | VFunction p n, VFunction q m => proto_eqb p q && (n =? m)
  | _, _ => false
  end.

(** [Math.abs], [Math.max] and [Math.min] on two arguments. *)
Definition Math_abs (x : float) : float := PrimFloat.abs x.

Definition Math_max (a b : float) : float :=
  if PrimFloat.is_nan a || PrimFloat.is_nan b then PrimFloat.nan
  else if PrimFloat.ltb a b then b
  else if PrimFloat.ltb b a then a
  else if PrimFloat.get_sign a then b else a.

Definition Math_min (a b : float) : float :=
  if PrimFloat.is_nan a || PrimFloat.is_nan b then PrimFloat.nan
  else if PrimFloat.ltb a b then a
  else if PrimFloat.ltb b a then b
  else if PrimFloat.get_sign a then a else b.

(** Lengths, indices, edit distances and counters are integer-valued
    Numbers below [2^53], a range in which double arithmetic is exact; they
    are kept as [nat] and turned into the double of the same value where the
    code divides them.  [MAX_SAFE_INTEGER] is the largest length the
    language allows ([ToLength] clamps there), and the conversion clamps
    there too. *)
Definition MAX_SAFE_INTEGER : Z := 2 ^ 53 - 1.

Definition exact_double (k : Z) : spec_float :=
  match k with
  | Zpos p =>
      let d := Zpos (SpecFloat.digits2_pos p) in
      S754_finite false (Z.to_pos (Zpos p * 2 ^ (53 - d))) (d - 53)
  | _ => S754_zero false
  end.

Definition Number_of_nat (n : nat) : float :=
  SF2Prim (exact_double (Z.min (Z.of_nat n) MAX_SAFE_INTEGER)).

(** [String(n)] / [n.toString()] for a non-negative integer. *)
Definition Number_toString (n : nat) : string :=
  NilZero.string_of_uint (Nat.to_uint n).

(** [keys.join(', ')]. *)
Definition join (sep : string) (l : list string) : string :=
  match l with
  | [] => ""
  | x :: rest => fold_left (fun acc s => acc ++ sep ++ s)%string rest x
  end.

(** Names found on [Object.prototype] (ECMAScript, Annex B included). *)
Definition Object_prototype_names : list string :=
  [ "constructor"; "__defineGetter__"; "__defineSetter__"; "hasOwnProperty";
    "__lookupGetter__"; "__lookupSetter__"; "isPrototypeOf";
    "propertyIsEnumerable"; "toString"; "valueOf"; "__proto__";
    "toLocaleString" ].

(** Names of the methods of [Array.prototype]. *)
Definition Array_prototype_names : list string :=
  [ "constructor"; "at"; "concat"; "copyWithin"; "fill"; "find"; "findIndex";
    "findLast"; "findLastIndex"; "lastIndexOf"; "pop"; "push"; "reverse";
    "shift"; "unshift"; "slice"; "sort"; "splice"; "includes"; "indexOf";
    "join"; "keys"; "entries"; "values"; "forEach"; "filter"; "flat";
    "flatMap"; "map"; "every"; "some"; "reduce"; "reduceRight";
    "toLocaleString"; "toString"; "toReversed"; "toSorted"; "toSpliced";
    "with" ].

Definition mem (k : string) (l : list string) : bool :=
  existsb (String.eqb k) l.

(** Own property lookup in a plain object. *)
Fixpoint lookup (k : string) (fields : list (string * value)) : option value :=
  match fields with
  | [] => None
  | (k', v) :: rest => if k =? k' then Some v else lookup k rest
  end.

(** The index an array-index property name denotes, when below [n]. *)
Fixpoint find_index (k : string) (i n : nat) : option nat :=
  match n with
  | O => None
  | S n' => if k =? Number_toString i then Some i else find_index k (S i) n'
  end.

Definition Array_isArray (v : value) : bool :=
  match v with
  | VArr _ | VProto ArrayPrototype => true
  | _ => false
  end.

(** [v.length] of an array. *)
Definition array_length (v : value) : nat :=
  match v with
  | VArr items => List.length items
  | _ => 0
  end.

(** [Object.keys v]: the own enumerable string keys. *)
Definition Object_keys (v : value) : list string :=
  match v with
  | VArr items => map Number_toString (seq 0 (List.length items))
  | VObj fields => map fst fields
  | _ => []
  end.

(** A name inherited from [Object.prototype], read through an object. *)
Definition inherited_from_Object (receiver_proto : value) (k : string) : option value :=
  if k =? "__proto__" then Some receiver_proto
  else if mem k Object_prototype_names then Some (VFunction ObjectPrototype k)
  else None.

(** [v[k]] as the property read finds it: own properties first, then the
    prototype chain.  [None] is the read of an absent property, whose result
    is [undefined] while [k in v] is false. *)
Definition get_property (v : value) (k : string) : option value :=
  match v with
  | VObj fields =>
      match lookup k fields with
      | Some x => Some x
      | None => inherited_from_Object (VProto ObjectPrototype) k
      end
  | VArr items =>
      match find_index k 0 (List.length items) with
      | Some i => nth_error items i
      | None =>
          if k =? "length" then Some (VNum (Number_of_nat (List.length items)))
          else if k =? "__proto__" then Some (VProto ArrayPrototype)
          else if mem k Array_prototype_names then Some (VFunction ArrayPrototype k)
          else inherited_from_Object (VProto ArrayPrototype) k
      end
  | VProto ArrayPrototype =>
      if k =? "length" then Some (VNum (Number_of_nat 0))
      else if k =? "__proto__" then Some (VProto ObjectPrototype)
      else if mem k Array_prototype_names then Some (VFunction ArrayPrototype k)
      else inherited_from_Object (VProto ObjectPrototype) k
  | VProto ObjectPrototype => inherited_from_Object VNull k
  | _ => None
  end.

(** [v[k]]. *)
Definition get (v : value) (k : string) : value :=
  match get_property v k with
  | Some x => x
  | None => VUndefined
  end.

(** [k in v]. *)
Definition has_property (k : string) (v : value) : bool :=
  match get_property v k with
  | Some _ => true
  | None => false
  end.

End JS.

(* ================================================================== *)
(** * MetricsCalculator: the comparator *)
(* ================================================================== *)

Import JS.

(** [interface ValueDifference]; [path] and [similarity] are optional. *)
Record ValueDifference := {
  key : string;
  expected : value;
  actual : value;
  path : option (list string);
  similarity : option float
}.

(** [interface ComparisonResult]; every field but [isMatch] is optional. *)
Module ComparisonResult.
Record t := {
  isMatch : bool;
  differences : option (list ValueDifference);
  matchedFields : option (list string);
  missingFields : option (list string);
  extraFields : option (list string)
}.
End ComparisonResult.

(** [interface TestResult]. *)
Module TestResult.
Record t := {
  isFinished : bool;
  isSuccess : bool;
  input : string;
  expectedResponse : value;
  actualResponse : value;
  timeElapsed : float;
  cost : float;
  differences : option (list ValueDifference);
  matchedFields : option (list string);
  missingFields : option (list string);
  extraFields : option (list string)
}.
End TestResult.

(** [interface MetricsResult], without [medianTime] and [mostFailedFields]
    (the two fields that sort).  The two [Record<string, number>] objects
    are kept as their entries. *)
Module MetricsResult.
Record t := {
  totalTests : nat;
  successfulTests : nat;
  failedTests : nat;
  averageTime : float;
  minTime : float;
  maxTime : float;
  averageCost : float;
  totalCost : float;
  costPerSuccess : float;
  successRate : float;
  precision : float;
  recall : float;
  f1Score : float;
  fieldSuccessRates : list (string * float);
  errorDistribution : list (string * nat)
}.
End MetricsResult.

(** How a piece of code ends: with a value, or by throwing. *)
Inductive exn := SyntaxError | RangeError.

Inductive completion (A : Type) :=
| Normal (a : A)
| Throw (e : exn).
Arguments Normal {A} a.
Arguments Throw {A} e.

Definition bind {A B : Type} (c : completion A) (k : A -> completion B) : completion B :=
  match c with
  | Normal a => k a
  | Throw e => Throw e
  end.

(** [try { body } catch (error) { handler }]. *)
Definition try_catch {A : Type} (body : completion A) (handler : exn -> completion A)
  : completion A :=
  match body with
  | Normal a => Normal a
  | Throw e => handler e
  end.

Declare Scope completion_scope.
Delimit Scope completion_scope with completion.
Notation "x <- c ;; k" := (bind c (fun x => k))
  (at level 61, c at next level, right associativity) : completion_scope.

(** Property read of a [Record<string, _>] kept as its entries. *)
Fixpoint Record_get {A : Type} (k : string) (entries : list (string * A)) : option A :=
  match entries with
  | [] => None
  | (k', x) :: rest => if k =? k' then Some x else Record_get k rest
  end.

Module MetricsCalculator.

(** ** calculateStringSimilarity *)

(** One row of the [track] table: [fill_row str1 c2 prev left] computes
    [track[j][i..]] from the row above, [prev = track[j-1][i-1..]], and the
    entry to the left, [left = track[j][i-1]], where [c2 = str2[j-1]]. *)
Fixpoint fill_row (str1 : list ascii) (c2 : ascii) (prev : list nat) (left : nat)
  : list nat :=
  match str1, prev with
  | c1 :: rest, diag :: ((up :: _) as prev') =>
      let indicator := if Ascii.eqb c1 c2 then 0 else 1 in
      let cur := Nat.min (Nat.min (left + 1) (up + 1)) (diag + indicator) in
      cur :: fill_row rest c2 prev' cur
  | _, _ => []
  end.

(** The rows [track[j]] for [j = 1 ..], each started with [track[j][0] = j];
    the result is the last row, [track[str2.length]]. *)
Fixpoint fill_rows (str1 str2 : list ascii) (prev : list nat) (j : nat) : list nat :=
  match str2 with
  | [] => prev
  | c2 :: rest => fill_rows str1 rest (j :: fill_row str1 c2 prev j) (S j)
  end.

(** [track[str2.length][str1.length]], the first row being
    [track[0][i] = i]. *)
Definition distance (str1 str2 : string) : nat :=
  let s1 := list_ascii_of_string str1 in
  let s2 := list_ascii_of_string str2 in
  last (fill_rows s1 s2 (seq 0 (S (List.length s1))) 1) 0.

Definition calculateStringSimilarity (str1 str2 : string) : float :=
  let maxLength := Nat.max (String.length str1) (String.length str2) in
  (1 - Number_of_nat (distance str1 str2) / Number_of_nat maxLength)%float.

(** ** areNumbersClose *)

(** The literal [0.1]: the double nearest to one tenth. *)
Definition relTolerance : float := 0x1.999999999999ap-4%float.
Definition absTolerance : float := 0x1.999999999999ap-4%float.

Definition areNumbersClose (n1 n2 : float) : bool :=
  PrimFloat.leb (Math_abs (n1 - n2))
    (Math_max absTolerance (relTolerance * Math_max (Math_abs n1) (Math_abs n2)))%float.

(** ** deepCompare *)

(** [path[path.length - 1] || 'root']: the last segment, unless the path is
    empty or its last segment is the empty string. *)
Definition key_of (path : list string) : string :=
  match path with
  | [] => "root"
  | _ => let k := last path "" in if k =? "" then "root" else k
  end.

(** The object literal every branch of [deepCompare] pushes:
    [{ key: path[path.length - 1] || 'root', expected, actual,
       path: [...path], similarity }]. *)
Definition difference_at (path : list string) (expected actual : value)
    (similarity : float) : ValueDifference :=
  {| key := key_of path; expected := expected; actual := actual;
     path := Some path; similarity := Some similarity |}.

(** [Array.prototype.every] with a callback that appends to the shared
    [differences] array: the list is threaded through the calls, and the
    iteration stops at the first element the callback rejects. *)
Fixpoint every {A : Type}
    (callback : A -> nat -> list ValueDifference -> bool * list ValueDifference)
    (items : list A) (index : nat) (differences : list ValueDifference)
  : bool * list ValueDifference :=
  match items with
  | [] => (true, differences)
  | item :: rest =>
      let '(ok, differences') := callback item index differences in
      if ok then every callback rest (S index) differences'
      else (false, differences')
  end.

(** The similarity the number branch computes. *)
Definition numberSimilarity (expected actual : float) : float :=
  (1 - Math_min (Math_abs (expected - actual)
                 / Math_max (Math_abs expected) (Math_abs actual)) 1)%float.

(** [deepCompare expected actual path differences] returns the verdict and
    the [differences] array after the call has pushed onto it.  In the
    object branch [expectedKeys.every] reads [expected[key]] for each own
    key, which is the value the key is paired with. *)
Fixpoint deepCompare (expected actual : value) (path : list string)
    (differences : list ValueDifference) {struct expected}
  : bool * list ValueDifference :=
  let push expected' actual' similarity :=
    differences ++ [difference_at path expected' actual' similarity] in
  (* Handle null/undefined cases *)
  if strict_eq expected actual then (true, differences)
  else if negb (truthy expected) || negb (truthy actual) then
    (false, push expected actual 0%float)
  (* Handle different types *)
  else if negb (type_tag_eqb (typeof expected) (typeof actual)) then
    (false, push expected actual 0%float)
  (* Handle booleans - exact match required *)
  else if type_tag_eqb (typeof expected) TBoolean then
    let isMatch := strict_eq expected actual in
    (isMatch, if isMatch then differences else push expected actual 0%float)
  else
  match expected, actual with
  (* Handle numbers with tolerance *)
  | VNum e, VNum a =>
      let isClose := areNumbersClose e a in
      let similarity := numberSimilarity e a in
      (PrimFloat.ltb 0 similarity,
       if isClose then differences else push expected actual similarity)
  (* Handle strings with similarity scoring *)
  | VStr e, VStr a =>
      let similarity := calculateStringSimilarity e a in
      (PrimFloat.ltb 0 similarity,
       if PrimFloat.ltb similarity 1 then push expected actual similarity
       else differences)
  | _, _ =>
  (* Handle arrays - length must match exactly *)
  if Array_isArray expected && Array_isArray actual then
    let n := array_length expected in
    let m := array_length actual in
    if negb (n =? m)%nat then
      (false,
       push (VStr ("Array(" ++ Number_toString n ++ ")"))
            (VStr ("Array(" ++ Number_toString m ++ ")"))
            (Number_of_nat (Nat.min n m) / Number_of_nat (Nat.max n m))%float)
    else
      match expected with
      | VArr items =>
          every (fun item index differences =>
                   deepCompare item (get actual (Number_toString index))
                     (path ++ [Number_toString index]) differences)
                items 0 differences
      | _ => (true, differences)
      end
  (* Handle objects - keys must match exactly *)
  else if type_tag_eqb (typeof expected) TObject then
    let expectedKeys := Object_keys expected in
    let actualKeys := Object_keys actual in
    let missingKeys := filter (fun key => negb (has_property key actual)) expectedKeys in
    let extraKeys := filter (fun key => negb (has_property key expected)) actualKeys in
    if (0 <? List.length missingKeys)%nat || (0 <? List.length extraKeys)%nat then
      (false,
       push (VStr ("Object(" ++ join ", " expectedKeys ++ ")"))
            (VStr ("Object(" ++ join ", " actualKeys ++ ")"))
            (Number_of_nat (List.length expectedKeys - List.length missingKeys)
             / Number_of_nat (Nat.max (List.length expectedKeys) (List.length actualKeys)))%float)
    else
      match expected with
      | VObj fields =>
          every (fun (field : string * value) (_ : nat) differences =>
                   deepCompare (snd field) (get actual (fst field))
                     (path ++ [fst field]) differences)
                fields 0 differences
      | VArr items =>
          every (fun item index differences =>
                   deepCompare item (get actual (Number_toString index))
                     (path ++ [Number_toString index]) differences)
                items 0 differences
      | _ => (true, differences)
      end
  (* Handle other primitives *)
  else
    let isMatch := strict_eq expected actual in
    (isMatch, if isMatch then differences else push expected actual 0%float)
  end.

(** ** getAllKeys *)

Fixpoint flat_map_indexed {A B : Type} (f : nat -> A -> list B) (l : list A) (i : nat)
  : list B :=
  match l with
  | [] => []
  | x :: rest => f i x ++ flat_map_indexed f rest (S i)
  end.

(** [prefix ? `${prefix}.${key}` : key]. *)
Definition currentKey (prefix key : string) : string :=
  if prefix =? "" then key else (prefix ++ "." ++ key)%string.

(** [value && typeof value === 'object' && !Array.isArray(value)]. *)
Definition is_plain_object (v : value) : bool :=
  truthy v && type_tag_eqb (typeof v) TObject && negb (Array_isArray v).

(** [Object.entries(obj).flatMap(...)]; the entries of an array are its
    indexed elements. *)
Fixpoint getAllKeys (obj : value) (prefix : string) {struct obj} : list string :=
  if negb (truthy obj) || negb (type_tag_eqb (typeof obj) TObject) then []
  else
    match obj with
    | VObj fields =>
        flat_map (fun field : string * value =>
                    let k := currentKey prefix (fst field) in
                    if is_plain_object (snd field)
                    then k :: getAllKeys (snd field) k
                    else [k])
                 fields
    | VArr items =>
        flat_map_indexed (fun index item =>
                    let k := currentKey prefix (Number_toString index) in
                    if is_plain_object item
                    then k :: getAllKeys item k
                    else [k])
                 items 0
    | _ => []
    end.

(** [new Set(keys)], in insertion order. *)
Fixpoint Set_of (keys : list string) : list string :=
  match keys with
  | [] => []
  | k :: rest => k :: filter (fun k' => negb (k' =? k)) (Set_of rest)
  end.

(** [array.length > 0 ? array : undefined]. *)
Definition nonempty {A : Type} (l : list A) : option (list A) :=
  match l with
  | [] => None
  | _ => Some l
  end.

Section Evaluator.

(** [JSON.parse], the runtime's parser: it returns the parsed value or
    throws a [SyntaxError]. *)
Variable JSON_parse : string -> completion value.

(** [typeof x === 'string' ? JSON.parse(x) : x]. *)
Definition parse_if_string (x : value) : completion value :=
  match x with
  | VStr s => JSON_parse s
  | _ => Normal x
  end.

(** ** compareResponses *)

Definition compareResponses (expected actual : value)
  : completion ComparisonResult.t :=
  try_catch
    (expectedObj <- parse_if_string expected ;;
     actualObj <- parse_if_string actual ;;
     let '(isMatch, differences) := deepCompare expectedObj actualObj [] [] in
     let expectedKeys := Set_of (getAllKeys expectedObj "") in
     let actualKeys := Set_of (getAllKeys actualObj "") in
     let matchedFields := filter (fun key => mem key actualKeys) expectedKeys in
     let missingFields := filter (fun key => negb (mem key actualKeys)) expectedKeys in
     let extraFields := filter (fun key => negb (mem key expectedKeys)) actualKeys in
     Normal {| ComparisonResult.isMatch := isMatch;
               ComparisonResult.differences := nonempty differences;
               ComparisonResult.matchedFields := Some matchedFields;
               ComparisonResult.missingFields := nonempty missingFields;
               ComparisonResult.extraFields := nonempty extraFields |})%completion
    (fun error =>
     Normal {| ComparisonResult.isMatch := false;
               ComparisonResult.differences :=
                 Some [ {| key := "parse_error"; expected := expected;
                           actual := actual; path := Some ["root"];
                           similarity := None |} ];
               ComparisonResult.matchedFields := None;
               ComparisonResult.missingFields := None;
               ComparisonResult.extraFields := None |}).

(** ** evaluateTestCase *)

Definition evaluateTestCase (expected actual : value) (timeElapsed cost : float)
    (input : string) : completion TestResult.t :=
  (comparison <- compareResponses expected actual ;;
   Normal {| TestResult.input := input;
             TestResult.expectedResponse := expected;
             TestResult.actualResponse := actual;
             TestResult.timeElapsed := timeElapsed;
             TestResult.cost := cost;
             TestResult.isFinished := true;
             TestResult.isSuccess := ComparisonResult.isMatch comparison;
             TestResult.differences := ComparisonResult.differences comparison;
             TestResult.matchedFields := ComparisonResult.matchedFields comparison;
             TestResult.missingFields := ComparisonResult.missingFields comparison;
             TestResult.extraFields := ComparisonResult.extraFields comparison |})%completion.

End Evaluator.

(** ** calculateMetrics *)

(** The [Map<string, { success, total }>] as its entries in insertion
    order.  One pass of the inner [forEach] body: read the counters of
    [field] (or start from zero), add to them, store them back. *)
Fixpoint Map_update (field : string) (isSuccess : bool)
    (fieldCounts : list (string * (nat * nat))) : list (string * (nat * nat)) :=
  match fieldCounts with
  | [] => [(field, ((if isSuccess then 1 else 0), 1))]
  | (f, (success, total)) :: rest =>
      if field =? f
      then (f, (success + (if isSuccess then 1 else 0), total + 1)) :: rest
      else (f, (success, total)) :: Map_update field isSuccess rest
  end.

Definition countFields (results : list TestResult.t) : list (string * (nat * nat)) :=
  fold_left
    (fun fieldCounts result =>
       match TestResult.matchedFields result with
       | Some fields =>
           fold_left (fun fieldCounts field =>
                        Map_update field (TestResult.isSuccess result) fieldCounts)
                     fields fieldCounts
       | None => fieldCounts
       end)
    results [].

(** [acc[key] = (acc[key] || 0) + 1]. *)
Fixpoint increment (k : string) (acc : list (string * nat)) : list (string * nat) :=
  match acc with
  | [] => [(k, 1)]
  | (k', n) :: rest =>
      if k =? k' then (k', n + 1) :: rest else (k', n) :: increment k rest
  end.

(** [numbers.reduce((a, b) => a + b, 0)]. *)
Definition sum (numbers : list float) : float :=
  fold_left (fun a b => (a + b)%float) numbers 0%float.

Definition calculateMetrics (results : list TestResult.t) : MetricsResult.t :=
  let totalTests := List.length results in
  let successfulTests := List.length (filter TestResult.isSuccess results) in
  let failedTests := totalTests - successfulTests in
  let times := map TestResult.timeElapsed (filter TestResult.isFinished results) in
  let costs := map TestResult.cost (filter TestResult.isFinished results) in
  let fieldCounts := countFields results in
  let fieldSuccessRates :=
    map (fun entry : string * (nat * nat) =>
           let '(field, (success, total)) := entry in
           (field, (Number_of_nat success / Number_of_nat total)%float))
        fieldCounts in
  let errorDistribution :=
    fold_left
      (fun acc result =>
         match TestResult.differences result with
         | Some differences => fold_left (fun acc diff => increment (key diff) acc) differences acc
         | None => acc
         end)
      (filter (fun r => negb (TestResult.isSuccess r)
                        && match TestResult.differences r with Some _ => true | None => false end)
              results)
      [] in
  let rate := (Number_of_nat successfulTests / Number_of_nat totalTests)%float in
  {| MetricsResult.totalTests := totalTests;
     MetricsResult.successfulTests := successfulTests;
     MetricsResult.failedTests := failedTests;
     MetricsResult.averageTime := (sum times / Number_of_nat totalTests)%float;
     MetricsResult.minTime := fold_left Math_min times PrimFloat.infinity;
     MetricsResult.maxTime := fold_left Math_max times PrimFloat.neg_infinity;
     MetricsResult.averageCost := (sum costs / Number_of_nat totalTests)%float;
     MetricsResult.totalCost := sum costs;
     MetricsResult.costPerSuccess :=
       if (0 <? successfulTests)%nat
       then (sum costs / Number_of_nat successfulTests)%float else 0%float;
     MetricsResult.successRate := rate;
     MetricsResult.precision := rate;
     MetricsResult.recall := rate;
     MetricsResult.f1Score :=
       if (0 <? successfulTests)%nat
       then ((2 * rate * rate) / (rate + rate))%float else 0%float;
     MetricsResult.fieldSuccessRates := fieldSuccessRates;
     MetricsResult.errorDistribution := errorDistribution |}.

End MetricsCalculator.

(* ================================================================== *)
(** * Test cases and the vocabulary of the statements *)
(* ================================================================== *)

Import MetricsCalculator.

(** The record the test runner pushes when the provider call throws
    ([src/commands/test.ts], the [catch] of the loop over test cases). *)
Definition unfinishedResult (userInput : string) (expectedResponse : value)
  : TestResult.t :=
  {| TestResult.isFinished := false;
     TestResult.isSuccess := false;
     TestResult.input := userInput;
     TestResult.expectedResponse := expectedResponse;
     TestResult.actualResponse := VNull;
     TestResult.timeElapsed := 0;
     TestResult.cost := 0;
     TestResult.differences := None;
     TestResult.matchedFields := None;
     TestResult.missingFields := None;
     TestResult.extraFields := None |}.

(** A finished case, as [evaluateTestCase] packages it. *)
Definition finishedResult (isSuccess : bool) (timeElapsed cost : float)
    (matchedFields : list string) : TestResult.t :=
  {| TestResult.isFinished := true;
     TestResult.isSuccess := isSuccess;
     TestResult.input := "";
     TestResult.expectedResponse := VNull;
     TestResult.actualResponse := VNull;
     TestResult.timeElapsed := timeElapsed;
     TestResult.cost := cost;
     TestResult.differences := None;
     TestResult.matchedFields := Some matchedFields;
     TestResult.missingFields := None;
     TestResult.extraFields := None |}.

(** [x] is [y] or one of the two doubles next to [y]. *)
Definition within_one_ulp (x y : float) : bool :=
  PrimFloat.Leibniz.eqb x y
  || PrimFloat.Leibniz.eqb x (PrimFloat.next_up y)
  || PrimFloat.Leibniz.eqb x (PrimFloat.next_down y).

(** The harmonic-mean expression of [calculateMetrics] on the counts. *)
Definition harmonic (successfulTests totalTests : nat) : float :=
  let rate := (Number_of_nat successfulTests / Number_of_nat totalTests)%float in
  ((2 * rate * rate) / (rate + rate))%float.

(** One success out of ten cases. *)
Definition one_of_ten : list TestResult.t :=
  finishedResult true 1 0 [] :: repeat (finishedResult false 1 0 []) 9.

(** The Levenshtein distance between the prefixes of length [i] of [a] and
    [j] of [b], by its defining recurrence: deleting a character, inserting
    one, or substituting one for another each cost 1. *)
Fixpoint lev (a b : list ascii) (i j : nat) {struct i} : nat :=
  match i with
  | 0 => j
  | S i' =>
      (fix lev_i (j : nat) : nat :=
         match j with
         | 0 => S i'
         | S j' =>
             Nat.min (Nat.min (lev a b i' (S j') + 1) (lev_i j' + 1))
                     (lev a b i' j'
                      + (if Ascii.eqb (nth i' a Ascii.zero) (nth j' b Ascii.zero)
                         then 0 else 1))
         end) j
  end.

Definition levenshtein (str1 str2 : string) : nat :=
  lev (list_ascii_of_string str1) (list_ascii_of_string str2)
      (String.length str1) (String.length str2).

(** Whether [field] is listed in the case's [matchedFields]. *)
Definition listsField (field : string) (r : TestResult.t) : bool :=
  match TestResult.matchedFields r with
  | Some fields => mem field fields
  | None => false
  end.

(** The counters of [g] in the map, zero when it has no entry. *)
Definition get_counts (g : string) (fc : list (string * (nat * nat))) : nat * nat :=
  match Record_get g fc with
  | Some c => c
  | None => (0, 0)
  end.

(** How often [field] occurs in the case's [matchedFields]. *)
Definition occurrences (field : string) (r : TestResult.t) : nat :=
  match TestResult.matchedFields r with
  | Some fields => count_occ string_dec fields field
  | None => 0
  end.

(** Counters in the map are positive. *)
Definition counted (fc : list (string * (nat * nat))) : Prop :=
  forall g c, Record_get g fc = Some c -> 0 < snd c.

(** A parser that knows the three literal names of JSON and rejects every
    other text; the statements that are evaluated on concrete inputs run
    with it in place of the runtime's [JSON.parse]. *)
Definition parse_literal (s : string) : completion value :=
  if s =? "null" then Normal VNull
  else if s =? "true" then Normal (VBool true)
  else if s =? "false" then Normal (VBool false)
  else Throw SyntaxError.

(** [x] is a string that [JSON.parse] rejects. *)
Definition unparsable (JSON_parse : string -> completion value) (x : value) : Prop :=
  exists s e, x = VStr s /\ JSON_parse s = Throw e.

(** ** Doubles

    The vocabulary of the facts about binary64 arithmetic: mantissas and
    exponents are integers, as in the specification of the primitive
    operations. *)

Section DoubleVocabulary.
Local Open Scope Z_scope.

(** After [k] right shifts of [m0] the record holds [m0 / 2^k], and its
    round and sticky bits are clear unless the start was inexact or a set
    bit was shifted out. *)
Definition shr_inv (m0 : Z) (inexact0 : bool) (k : Z) (mrs : shr_record) : Prop :=
  shr_m mrs = m0 / 2 ^ k
  /\ (shr_r mrs || shr_s mrs = true -> inexact0 = true \/ m0 mod 2 ^ k <> 0).

(** The exact value is at most 1: the truncated mantissa [m] at exponent
    [e <= 0] is at most [2^(-e)], and strictly less when something was cut
    off. *)
Definition at_most_one (m e : Z) (l : location) : Prop :=
  0 <= m /\ e <= 0 /\ m <= 2 ^ (- e) /\ (l <> loc_Exact -> m + 1 <= 2 ^ (- e)).

(** The sign of a rounded result is the sign asked for, and it is not NaN. *)
Definition signed (s : bool) (x : spec_float) : Prop :=
  x = S754_zero s \/ x = S754_infinity s \/ exists m e, x = S754_finite s m e.

(** [0 <= x <= 1] as the program's comparisons decide it. *)
Definition in_unit (x : float) : Prop :=
  PrimFloat.leb 0 x = true /\ PrimFloat.leb x 1 = true.

(** The double 1. *)
Definition one_SF : spec_float := S754_finite false 4503599627370496 (-52).

(** A double of value at most 1 and sign bit clear, or a zero. *)
Definition unit_value (x : spec_float) : Prop :=
  (exists s, x = S754_zero s)
  \/ exists m e, x = S754_finite false m e /\ e <= 0 /\ Zpos m <= 2 ^ (- e).

End DoubleVocabulary.

(** Every similarity a difference carries lies in [[0,1]]. *)
Definition similarity_in_unit (d : ValueDifference) : Prop :=
  match similarity d with
  | Some s => in_unit s
  | None => True
  end.

(* ================================================================== *)
(** * MetricsCalculator: the percentile and the two fields that sort *)
(* ================================================================== *)

(** [Array.prototype.sort(comparefn)].  The sort is stable, and [comparefn]
    puts [x] before [y] when its result is negative (a [NaN] result counts
    as 0).  For a comparator that orders the elements consistently this
    determines the result, which is computed here by insertion from the
    left; the language leaves the order open for other comparators. *)
Fixpoint insert {A : Type} (comparefn : A -> A -> float) (x : A) (sorted : list A)
  : list A :=
  match sorted with
  | [] => [x]
  | y :: rest =>
      if PrimFloat.ltb (comparefn x y) 0 then x :: y :: rest
      else y :: insert comparefn x rest
  end.

Definition Array_sort {A : Type} (comparefn : A -> A -> float) (l : list A) : list A :=
  fold_left (fun sorted x => insert comparefn x sorted) l [].

(** [Math.ceil]: the least integer not below [x]; infinities, zeros and
    [NaN] are returned as they are, and a negative [x] above -1 gives -0. *)
Definition Math_ceil (x : float) : float :=
  match Prim2SF x with
  | S754_finite s m e =>
      if (0 <=? e)%Z then x
      else
        let q := (Zpos m / 2 ^ (- e))%Z in
        let r := (Zpos m mod 2 ^ (- e))%Z in
        if s then PrimFloat.opp (SF2Prim (exact_double q))
        else SF2Prim (exact_double (if (r =? 0)%Z then q else q + 1))
  | _ => x
  end.

(** [arr[x]] for a Number [x] and a dense array: the element at [x] when [x]
    is an integer from 0 up to the last index, [undefined] (here [None])
    for every other number, none of which names a property of the array. *)
Definition element_at {A : Type} (arr : list A) (x : float) : option A :=
  match Prim2SF x with
  | S754_zero _ => nth_error arr 0
  | S754_finite false m e =>
      if ((e <? 0) && (Zpos m mod 2 ^ (- e) =? 0))%Z
      then nth_error arr (Z.to_nat (Zpos m / 2 ^ (- e)))
      else None
  | _ => None
  end.

(** ** getPercentile *)

Definition getPercentile (arr : list float) (percentile : float) : option float :=
  let sorted := Array_sort (fun a b => (a - b)%float) arr in
  let index :=
    (Math_ceil ((percentile / 100) * Number_of_nat (List.length sorted)) - 1)%float in
  element_at sorted index.

(** ** calculateMetrics: the two fields that sort *)

(** [medianTime: this.getPercentile(times, 50)]. *)
Definition medianTime (results : list TestResult.t) : option float :=
  let times := map TestResult.timeElapsed (filter TestResult.isFinished results) in
  getPercentile times 50.

(** An entry of [mostFailedFields]. *)
Module FailedField.
Record t := {
  field : string;
  failureRate : float
}.
End FailedField.

Definition mostFailedFields (results : list TestResult.t) : list FailedField.t :=
  firstn 5
    (Array_sort
       (fun a b => (FailedField.failureRate b - FailedField.failureRate a)%float)
       (map (fun entry : string * (nat * nat) =>
               let '(field, (success, total)) := entry in
               {| FailedField.field := field;
                  FailedField.failureRate :=
                    (1 - Number_of_nat success / Number_of_nat total)%float |})
            (countFields results))).

(* ================================================================== *)
(** * More vocabulary: well-formed trees, field lists, tallies *)
(* ================================================================== *)

(** No key occurs twice. *)
Fixpoint distinct (keys : list string) : bool :=
  match keys with
  | [] => true
  | k :: rest => negb (mem k rest) && distinct rest
  end.

(** A tree without [NaN] in which every object holds each of its keys once:
    what [JSON.parse] returns is such a tree. *)
Fixpoint well_formed (v : value) : bool :=
  match v with
  | VNum x => negb (PrimFloat.is_nan x)
  | VArr items => forallb well_formed items
  | VObj fields =>
      distinct (map fst fields) && forallb (fun field => well_formed (snd field)) fields
  | _ => true
  end.

(** No object of the tree has the empty string among its keys. *)
Fixpoint keys_nonempty (v : value) : bool :=
  match v with
  | VArr items => forallb keys_nonempty items
  | VObj fields =>
      forallb (fun field => negb (fst field =? "") && keys_nonempty (snd field)) fields
  | _ => true
  end.

(** An optional list of field names, [undefined] read as no field. *)
Definition fields_of (o : option (list string)) : list string :=
  match o with
  | Some l => l
  | None => []
  end.

(** The record lies at or below [p], and its [key] is the last segment of
    its own path. *)
Definition located_under (p : list string) (x : ValueDifference) : Prop :=
  exists q, path x = Some (p ++ q) /\ key x = key_of (p ++ q).

(** How many of the differences carry the key [k]. *)
Definition count_key (k : string) (differences : list ValueDifference) : nat :=
  List.length (filter (fun diff => key diff =? k) differences).

(** The differences with key [k] that a failed case reports. *)
Definition failures_at (k : string) (r : TestResult.t) : nat :=
  if TestResult.isSuccess r then 0
  else match TestResult.differences r with
       | Some differences => count_key k differences
       | None => 0
       end.

(** The count stored under [k], zero when there is none. *)
Definition tally (k : string) (acc : list (string * nat)) : nat :=
  match Record_get k acc with
  | Some n => n
  | None => 0
  end.

(** Stored counts are positive. *)
Definition tallied (acc : list (string * nat)) : Prop :=
  forall k n, Record_get k acc = Some n -> 0 < n.

(** Every difference key of the batch is an ordinary name, none of those
    found on [Object.prototype]. *)
Definition ordinary_keys (results : list TestResult.t) : bool :=
  forallb (fun r =>
             match TestResult.differences r with
             | Some differences =>
                 forallb (fun diff => negb (mem (key diff) Object_prototype_names))
                         differences
             | None => true
             end)
          results.

(** ** Order

    The vocabulary of the facts about comparison, [Math.min], [Math.max]
    and sorting. *)

Section OrderVocabulary.
Local Open Scope Z_scope.

(** A double as an integer that orders the doubles as their comparison
    does: exponent and mantissa side by side, the sign in front; the two
    zeros share 0.  ([NaN], which compares with nothing, is given 0 too.) *)
Definition rank (x : spec_float) : Z :=
  match x with
  | S754_zero _ | S754_nan => 0
  | S754_infinity s =>
      if s then - (2047 * 2 ^ 53) else 2047 * 2 ^ 53
  | S754_finite s m e =>
      let r := (e + 1075) * 2 ^ 53 + Zpos m in
      if s then - r else r
  end.

End OrderVocabulary.

(** The rank of a primitive double. *)
Definition rank_of (x : float) : Z := rank (Prim2SF x).

(** [ordered c rk l]: the comparator [c] orders the elements of [l] as the
    integer [rk] does. *)
Definition ordered (A : Type) (c : A -> A -> float) (rk : A -> Z) (l : list A) : Prop :=
  forall x y, In x l -> In y l -> PrimFloat.ltb (c x y) 0 = (rk x <? rk y)%Z.

(** In ascending order of [rk]. *)
Definition ascending (A : Type) (rk : A -> Z) : list A -> Prop :=
  StronglySorted (fun a b => (rk a <= rk b)%Z).

(** ** More about trees and doubles *)

(** No number occurs in the tree. *)
Fixpoint number_free (v : value) : bool :=
  match v with
  | VNum _ => false
  | VArr items => forallb number_free items
  | VObj fields => forallb (fun field => number_free (snd field)) fields
  | _ => true
  end.

(** The plain object that holds the elements of an array under its
    indices: [{ "0": items[0], "1": items[1], ... }], counting from [i]. *)
Fixpoint indexed_from (i : nat) (items : list value) : list (string * value) :=
  match items with
  | [] => []
  | x :: rest => (Number_toString i, x) :: indexed_from (S i) rest
  end.

Section StrictVocabulary.
Local Open Scope Z_scope.

(** The exact value is at most [1 - 2^-53], the double before 1: the
    truncated mantissa [m] at exponent [e <= -53] is at most
    [(2^53 - 1) * 2^(-53 - e)], and strictly less when something was cut
    off. *)
Definition below_one (m e : Z) (l : location) : Prop :=
  0 <= m /\ e <= -53
  /\ m <= (2 ^ 53 - 1) * 2 ^ (-53 - e)
  /\ (l <> loc_Exact -> m + 1 <= (2 ^ 53 - 1) * 2 ^ (-53 - e)).


End StrictVocabulary.

(** ** Rounding to nearest *)

Section NearVocabulary.
Local Open Scope Z_scope.

(** After [k] right shifts of an exact [m0] the record holds [m0 / 2^k];
    its round bit tells whether the part cut off reaches half a unit, its
    sticky bit whether that part is neither nothing nor exactly the half. *)
Definition shr_near (m0 k : Z) (mrs : shr_record) : Prop :=
  shr_m mrs = m0 / 2 ^ k
  /\ (shr_r mrs = true <-> 2 ^ k <= 2 * (m0 mod 2 ^ k))
  /\ (shr_s mrs = true <-> m0 mod 2 ^ k <> 0 /\ 2 * (m0 mod 2 ^ k) <> 2 ^ k).

End NearVocabulary.

(* ================================================================== *)
(** * The test command

    A shallow embedding of the parts of [src/commands/test.ts] that build
    the test cases and the batch of results handed to [calculateMetrics].
    Console output is not modelled.  A line of the JSONL file is taken after
    [JSON.parse], as the messages it holds: objects with a string [role] and
    a string [content]. *)
(* ================================================================== *)

(** [interface MessageGlobal]. *)
Module Message.
Record t := {
  role : string;
  content : string
}.
End Message.

(** [interface TestCase]. *)
Module TestCase.
Record t := {
  messages : list Message.t;
  expectedResponse : value
}.
End TestCase.

(** The entries the loop over the lines pushes onto [errors], by their
    template; each starts with [Line ${lineNum}:]. *)
Inductive line_error :=
| EmptyMessages (lineNum : nat)
| InvalidMessageStructure (lineNum : nat)
| InvalidRole (lineNum : nat) (role : string)
| NoAssistantMessage (lineNum : nat)
| ExpectedResponseNotJSON (lineNum : nat) (parseError : exn)
| NoUserMessage (lineNum : nat).

(** [for (const msg of jsonlCase.messages) { ... break; }]: the loop
    pushes an error for the first invalid message and leaves. *)
Fixpoint validateMessages (lineNum : nat) (messages : list Message.t) : list line_error :=
  match messages with
  | [] => []
  | msg :: rest =>
      if (Message.role msg =? "") || (Message.content msg =? "")
      then [InvalidMessageStructure lineNum]
      else if negb (mem (Message.role msg) ["system"; "user"; "assistant"])
      then [InvalidRole lineNum (Message.role msg)]
      else validateMessages lineNum rest
  end.

(** [array.filter((item, idx) => ...)]. *)
Fixpoint filter_indexed {A : Type} (f : A -> nat -> bool) (l : list A) (idx : nat) : list A :=
  match l with
  | [] => []
  | x :: rest =>
      if f x idx then x :: filter_indexed f rest (S idx) else filter_indexed f rest (S idx)
  end.

Section TestCommand.

Variable JSON_parse : string -> completion value.

(** The body of the loop over the lines, after [JSON.parse(line)]: the
    errors it pushes and the test case it pushes, if any.  [schema] and
    [promptOverride] are tested for truthiness only. *)
Definition processLine (skipValidation schema : bool)
    (promptOverride : option (list Message.t)) (lineNum : nat)
    (messages : list Message.t) : list line_error * option TestCase.t :=
  if negb skipValidation && (List.length messages <? 1)%nat
  then ([EmptyMessages lineNum], None)
  else
    let errors := if skipValidation then [] else validateMessages lineNum messages in
    (* Find the last assistant message as expected response *)
    let assistantMessages :=
      filter (fun msg => Message.role msg =? "assistant") messages in
    if (List.length assistantMessages =? 0)%nat
    then (errors ++ [NoAssistantMessage lineNum], None)
    else
      let expectedResponse :=
        Message.content
          (last assistantMessages {| Message.role := ""; Message.content := "" |}) in
      (* Parse expected response (JSON if schema provided, string otherwise) *)
      match (if schema then JSON_parse expectedResponse
             else Normal (VStr expectedResponse)) with
      | Throw parseError => (errors ++ [ExpectedResponseNotJSON lineNum parseError], None)
      | Normal parsedExpected =>
          match promptOverride with
          | Some override =>
              match find (fun msg => Message.role msg =? "user") messages with
              | None => (errors ++ [NoUserMessage lineNum], None)
              | Some userMessage =>
                  (errors,
                   Some {| TestCase.messages := override ++ [userMessage];
                           TestCase.expectedResponse := parsedExpected |})
              end
          | None =>
              (errors,
               Some {| TestCase.messages :=
                         map (fun msg => {| Message.role := Message.role msg;
                                            Message.content := Message.content msg |})
                             (filter_indexed
                                (fun msg idx =>
                                   negb ((Message.role msg =? "assistant")
                                         && (idx =? List.length messages - 1)%nat))
                                messages 0);
                       TestCase.expectedResponse := parsedExpected |})
          end
      end.

(** [messages.filter(msg => msg.role !== 'user' || msg !== userMessage)],
    [userMessage] being the first message with role ['user']: the messages
    are distinct objects, so exactly that message is dropped. *)
Fixpoint contextMessages (messages : list Message.t) : list Message.t :=
  match messages with
  | [] => []
  | msg :: rest =>
      if Message.role msg =? "user" then rest else msg :: contextMessages rest
  end.

(** [userMessage ? userMessage.content : 'No user input found']. *)
Definition userInput (messages : list Message.t) : string :=
  match find (fun msg => Message.role msg =? "user") messages with
  | Some userMessage => Message.content userMessage
  | None => "No user input found"
  end.

(** The provider call, [providerInstance.run(model, contextMessages, schema,
    userInput)], gives [result.data] and [result.metrics.estimatedCost], or
    throws; [elapsed] is [Date.now() - startTime] for the case at an index;
    [report] is the printing of the [--verbose] mode, which may throw. *)
Variable run : list Message.t -> string -> completion (value * float).
Variable elapsed : nat -> float.
Variable report : nat -> TestResult.t -> completion unit.

(** One turn of the loop over the test cases: [results] after it.  The
    evaluated result is pushed inside the [try], before the verbose report;
    the [catch] pushes the unfinished record. *)
Definition runCase (verbose : bool) (index : nat) (testCase : TestCase.t)
    (results : list TestResult.t) : list TestResult.t :=
  let failed :=
    unfinishedResult (userInput (TestCase.messages testCase))
                     (TestCase.expectedResponse testCase) in
  match run (contextMessages (TestCase.messages testCase))
            (userInput (TestCase.messages testCase)) with
  | Throw _ => results ++ [failed]
  | Normal (data, estimatedCost) =>
      match evaluateTestCase JSON_parse (TestCase.expectedResponse testCase) data
              (elapsed index) estimatedCost (userInput (TestCase.messages testCase)) with
      | Throw _ => results ++ [failed]
      | Normal testResult =>
          let results := results ++ [testResult] in
          match (if verbose then report index testResult else Normal tt) with
          | Throw _ => results ++ [failed]
          | Normal _ => results
          end
      end
  end.

(** [for (const [index, testCase] of finalTestCases.entries())]. *)
Fixpoint runCases (verbose : bool) (testCases : list TestCase.t) (index : nat)
    (results : list TestResult.t) : list TestResult.t :=
  match testCases with
  | [] => results
  | testCase :: rest => runCases verbose rest (S index) (runCase verbose index testCase results)
  end.

End TestCommand.

(** A result as the test command builds them: returned by
    [evaluateTestCase], or the record of the [catch]. *)
Definition built_by_the_command (JSON_parse : string -> completion value)
    (r : TestResult.t) : Prop :=
  (exists expected actual timeElapsed cost input,
     evaluateTestCase JSON_parse expected actual timeElapsed cost input = Normal r)
  \/ exists input expected, r = unfinishedResult input expected.

(* ================================================================== *)
(** * Properties *)
(* ================================================================== *)

(** ** Structural facts about values and the comparator *)

(** The body of [deepCompare], as an equation. *)
Lemma deepCompare_unfold (expected actual : value) (p : list string)
    (differences : list ValueDifference) :
  deepCompare expected actual p differences =
  if strict_eq expected actual then (true, differences)
  else if negb (truthy expected) || negb (truthy actual) then
    (false, differences ++ [difference_at p expected actual 0%float])
  else if negb (type_tag_eqb (typeof expected) (typeof actual)) then
    (false, differences ++ [difference_at p expected actual 0%float])
  else if type_tag_eqb (typeof expected) TBoolean then
    (strict_eq expected actual,
     if strict_eq expected actual then differences
     else differences ++ [difference_at p expected actual 0%float])
  else
  match expected, actual with
  | VNum e, VNum a =>
      (PrimFloat.ltb 0 (numberSimilarity e a),
       if areNumbersClose e a then differences
       else differences ++ [difference_at p expected actual (numberSimilarity e a)])
  | VStr e, VStr a =>
      (PrimFloat.ltb 0 (calculateStringSimilarity e a),
       if PrimFloat.ltb (calculateStringSimilarity e a) 1
       then differences ++ [difference_at p expected actual (calculateStringSimilarity e a)]
       else differences)
  | _, _ =>
  if Array_isArray expected && Array_isArray actual then
    if negb (array_length expected =? array_length actual)%nat then
      (false,
       differences ++
       [difference_at p
          (VStr ("Array(" ++ Number_toString (array_length expected) ++ ")"))
          (VStr ("Array(" ++ Number_toString (array_length actual) ++ ")"))
          (Number_of_nat (Nat.min (array_length expected) (array_length actual))
           / Number_of_nat (Nat.max (array_length expected) (array_length actual)))%float])
    else
      match expected with
      | VArr items =>
          every (fun item index differences =>
                   deepCompare item (get actual (Number_toString index))
                     (p ++ [Number_toString index]) differences)
                items 0 differences
      | _ => (true, differences)
      end
  else if type_tag_eqb (typeof expected) TObject then
    if (0 <? List.length (filter (fun key => negb (has_property key actual)) (Object_keys expected)))%nat
       || (0 <? List.length (filter (fun key => negb (has_property key expected)) (Object_keys actual)))%nat
    then
      (false,
       differences ++
       [difference_at p
          (VStr ("Object(" ++ join ", " (Object_keys expected) ++ ")"))
          (VStr ("Object(" ++ join ", " (Object_keys actual) ++ ")"))
          (Number_of_nat (List.length (Object_keys expected)
                          - List.length (filter (fun key => negb (has_property key actual))
                                           (Object_keys expected)))
           / Number_of_nat (Nat.max (List.length (Object_keys expected))
                                    (List.length (Object_keys actual))))%float])
    else
      match expected with
      | VObj fields =>
          every (fun (field : string * value) (_ : nat) differences =>
                   deepCompare (snd field) (get actual (fst field))
                     (p ++ [fst field]) differences)
                fields 0 differences
      | VArr items =>
          every (fun item index differences =>
                   deepCompare item (get actual (Number_toString index))
                     (p ++ [Number_toString index]) differences)
                items 0 differences
      | _ => (true, differences)
      end
  else
    (strict_eq expected actual,
     if strict_eq expected actual then differences
     else differences ++ [difference_at p expected actual 0%float])
  end.
Proof.
  destruct expected; reflexivity.
Qed.

Lemma SFeqb_finite_refl (s : bool) (m : positive) (e : Z) :
  SFeqb (S754_finite s m e) (S754_finite s m e) = true.
Proof.
  unfold SFeqb, SFcompare.
  rewrite Z.compare_refl, Pos.compare_cont_refl. now destruct s.
Qed.

(** Two values that are [===] are both truthy or both falsy. *)
Lemma strict_eq_truthy (a b : value) :
  strict_eq a b = true -> truthy a = truthy b.
Proof.
  destruct a, b; simpl; try discriminate; try reflexivity.
  - intros H. apply Bool.eqb_prop in H. now subst.
  - unfold PrimFloat.is_nan. rewrite !FloatAxioms.eqb_spec.
    change (Prim2SF 0) with (S754_zero false).
    destruct (Prim2SF x) as [s|s| |s m e], (Prim2SF x0) as [s'|s'| |s' m' e'];
      try reflexivity; try discriminate;
      try (destruct s; discriminate); try (destruct s, s'; discriminate).
    + now destruct s, s'.
    + intros _. rewrite !SFeqb_finite_refl. now destruct s, s'.
  - intros H. apply String.eqb_eq in H. now subst.
Qed.

(** [path[path.length - 1] || 'root'], on the last segment. *)
Lemma key_of_last (p : list string) :
  key_of p = if last p "" =? "" then "root" else last p "".
Proof. destruct p; reflexivity. Qed.

(** ** Facts about binary64 arithmetic *)

Section DoubleFacts.
Local Open Scope Z_scope.

(** *** Digits and shifts *)

Lemma fexp_64 (k : Z) : fexp prec emax k = Z.max (k - 53) (-1074).
Proof. reflexivity. Qed.

Lemma digits2_pos_bounds (p : positive) :
  2 ^ (Zpos (digits2_pos p) - 1) <= Zpos p < 2 ^ Zpos (digits2_pos p).
Proof.
  induction p as [p IH | p IH |]; cbn [digits2_pos].
  - rewrite Pos2Z.inj_succ.
    replace (Z.succ (Zpos (digits2_pos p)) - 1) with (Z.succ (Zpos (digits2_pos p) - 1)) by lia.
    rewrite !Z.pow_succ_r by lia. lia.
  - rewrite Pos2Z.inj_succ.
    replace (Z.succ (Zpos (digits2_pos p)) - 1) with (Z.succ (Zpos (digits2_pos p) - 1)) by lia.
    rewrite !Z.pow_succ_r by lia. lia.
  - simpl. lia.
Qed.

Lemma Zdigits2_le (m k : Z) : 0 <= m -> 0 <= k -> m < 2 ^ k -> Zdigits2 m <= k.
Proof.
  intros Hm Hk H. destruct m as [| p | p]; [simpl; lia | | lia].
  cbn [Zdigits2]. pose proof (digits2_pos_bounds p) as [Hlo _].
  destruct (Z_le_gt_dec (Zpos (digits2_pos p)) k) as [Hle | Hgt]; [exact Hle |].
  exfalso.
  assert (2 ^ k <= 2 ^ (Zpos (digits2_pos p) - 1)) by (apply Z.pow_le_mono_r; lia).
  lia.
Qed.

(** *** Shifting right with a round bit and a sticky bit *)

Lemma shr_1_eq (m : Z) (r s : bool) :
  0 <= m ->
  shr_1 (Build_shr_record m r s) = Build_shr_record (m / 2) (Z.odd m) (r || s).
Proof.
  intros Hm. destruct m as [| [p | p |] | p]; try lia; cbn [shr_1];
    try reflexivity.
  - f_equal. apply Z.div_unique with 1; lia.
  - f_equal. apply Z.div_unique with 0; lia.
Qed.

Lemma shr_inv_step (m0 : Z) (i0 : bool) (k : Z) (mrs : shr_record) :
  0 <= m0 -> 0 <= k ->
  shr_inv m0 i0 k mrs -> shr_inv m0 i0 (k + 1) (shr_1 mrs).
Proof.
  intros Hm Hk [Hq Hi]. destruct mrs as [m r s]. cbn [shr_m shr_r shr_s] in *.
  assert (Hpos : 0 < 2 ^ k) by (apply Z.pow_pos_nonneg; lia).
  assert (Hm' : 0 <= m) by (subst m; apply Z.div_pos; lia).
  rewrite shr_1_eq by exact Hm'. unfold shr_inv. cbn [shr_m shr_r shr_s].
  rewrite Z.pow_add_r, Z.pow_1_r by lia.
  split.
  - subst m. rewrite Z.div_div by lia. reflexivity.
  - intros H. apply orb_true_iff in H. destruct H as [Hodd | Hrs].
    + right. intros Hmod.
      apply Z.mod_divide in Hmod; [| lia]. destruct Hmod as [t Ht].
      assert (m = 2 * t).
      { subst m. rewrite Ht. replace (t * (2 ^ k * 2)) with (2 * t * 2 ^ k) by ring.
        apply Z.div_mul. lia. }
      subst m. rewrite H, Z.odd_mul in Hodd. discriminate.
    + destruct (Hi Hrs) as [Hi0 | Hmod]; [now left |].
      right. intros Hmod'. apply Hmod.
      apply Z.mod_divide in Hmod'; [| lia]. destruct Hmod' as [t Ht].
      apply Z.mod_divide; [lia |]. exists (t * 2). rewrite Ht. ring.
Qed.

Lemma shr_inv_iter (m0 : Z) (i0 : bool) :
  0 <= m0 ->
  forall (p : positive) (k : Z) (mrs : shr_record),
    0 <= k ->
    shr_inv m0 i0 k mrs -> shr_inv m0 i0 (k + Zpos p) (iter_pos shr_1 p mrs).
Proof.
  intros Hm. induction p as [p IH | p IH |]; intros k mrs Hk H; cbn [iter_pos].
  - replace (k + Zpos p~1) with (k + 1 + Zpos p + Zpos p) by lia.
    apply IH; [lia |]. apply IH; [lia |]. now apply shr_inv_step.
  - replace (k + Zpos p~0) with (k + Zpos p + Zpos p) by lia.
    apply IH; [lia |]. now apply IH.
  - now apply shr_inv_step.
Qed.

(** *** Rounding a value that is at most 1 *)

Lemma loc_of_shr_record_of_loc (m : Z) (l : location) :
  loc_of_shr_record (shr_record_of_loc m l) = l /\ shr_m (shr_record_of_loc m l) = m.
Proof. destruct l as [| []]; split; reflexivity. Qed.

Lemma loc_inexact_bits (mrs : shr_record) :
  loc_of_shr_record mrs <> loc_Exact -> shr_r mrs || shr_s mrs = true.
Proof. destruct mrs as [m [] []]; simpl; congruence. Qed.

Lemma shr_record_of_loc_bits (m : Z) (l : location) :
  shr_r (shr_record_of_loc m l) || shr_s (shr_record_of_loc m l) = true ->
  l <> loc_Exact.
Proof. destruct l as [| []]; simpl; congruence. Qed.

Lemma shr_nonneg (m e n : Z) (l : location) :
  0 <= m -> 0 <= shr_m (fst (shr (shr_record_of_loc m l) e n)).
Proof.
  intros Hm. destruct n as [| p | p]; cbn [shr fst];
    try (rewrite (proj2 (loc_of_shr_record_of_loc m l)); exact Hm).
  assert (H0 : shr_inv m (negb (match l with loc_Exact => true | _ => false end)) 0
                 (shr_record_of_loc m l)).
  { split; [rewrite Z.div_1_r; apply loc_of_shr_record_of_loc |].
    intros H. left. apply shr_record_of_loc_bits in H. now destruct l. }
  apply (shr_inv_iter m _ Hm p 0) in H0; [| lia].
  destruct H0 as [-> _]. apply Z.div_pos; [exact Hm |].
  apply Z.pow_pos_nonneg; lia.
Qed.

Lemma shr_fexp_at_most_one (m e : Z) (l : location) :
  at_most_one m e l ->
  at_most_one (shr_m (fst (shr_fexp prec emax m e l)))
              (snd (shr_fexp prec emax m e l))
              (loc_of_shr_record (fst (shr_fexp prec emax m e l))).
Proof.
  intros (Hm & He & Hle & Hlt). unfold shr_fexp.
  assert (Hdig : Zdigits2 m <= 1 - e).
  { apply Zdigits2_le; [lia | lia |].
    replace (1 - e) with (Z.succ (- e)) by lia. rewrite Z.pow_succ_r by lia.
    assert (0 < 2 ^ (- e)) by (apply Z.pow_pos_nonneg; lia). lia. }
  rewrite fexp_64.
  destruct (Z.max (Zdigits2 m + e - 53) (-1074) - e) as [| p | p] eqn:En;
    cbn [shr fst snd];
    try (destruct (loc_of_shr_record_of_loc m l) as [-> ->];
         repeat split; assumption).
  assert (H0 : shr_inv m (negb (match l with loc_Exact => true | _ => false end)) 0
                 (shr_record_of_loc m l)).
  { split; [rewrite Z.div_1_r; apply loc_of_shr_record_of_loc |].
    intros H. left. apply shr_record_of_loc_bits in H. now destruct l. }
  apply (shr_inv_iter m _ Hm p 0) in H0; [| lia].
  destruct H0 as [Hq Hi]. rewrite Z.add_0_l in Hq, Hi.
  set (e' := e + Zpos p) in *.
  assert (He' : e' <= 0) by lia.
  assert (Hpow : 2 ^ (- e) = 2 ^ (- e') * 2 ^ Zpos p).
  { rewrite <- Z.pow_add_r by lia. f_equal. lia. }
  assert (Hp : 0 < 2 ^ Zpos p) by (apply Z.pow_pos_nonneg; lia).
  assert (Hp' : 0 < 2 ^ (- e')) by (apply Z.pow_pos_nonneg; lia).
  rewrite Hq. repeat split.
  - apply Z.div_pos; lia.
  - exact He'.
  - rewrite Hpow in Hle. apply Z.div_le_upper_bound; [lia |]. lia.
  - intros Hloc. apply loc_inexact_bits in Hloc. apply Hi in Hloc.
    assert (Hstrict : m < 2 ^ (- e') * 2 ^ Zpos p).
    { destruct Hloc as [Hl | Hmod].
      - assert (l <> loc_Exact) by (destruct l; [discriminate | discriminate]).
        specialize (Hlt H). lia.
      - assert (m <> 2 ^ (- e') * 2 ^ Zpos p); [| lia].
        intros ->. apply Hmod. apply Z.mod_mul. lia. }
    assert (m / 2 ^ Zpos p < 2 ^ (- e')); [| lia].
    apply Z.div_lt_upper_bound; lia.
Qed.

Lemma round_nearest_even_at_most_one (m e : Z) (l : location) :
  at_most_one m e l -> at_most_one (round_nearest_even m l) e loc_Exact.
Proof.
  intros (Hm & He & Hle & Hlt).
  assert (H : round_nearest_even m l = m
              \/ (round_nearest_even m l = m + 1 /\ l <> loc_Exact)).
  { destruct l as [| []]; cbn [round_nearest_even]; auto.
    - destruct (Z.even m); [auto | right; split; [reflexivity | discriminate]].
    - right. split; [reflexivity | discriminate]. }
  destruct H as [-> | [-> Hl]]; repeat split; try lia; try congruence.
  specialize (Hlt Hl). lia.
Qed.

(** Rounding to nearest-even keeps a value that is at most 1 at most 1. *)
Lemma binary_round_aux_at_most_one (mx ex : Z) (lx : location) :
  at_most_one mx ex lx ->
  binary_round_aux prec emax false mx ex lx = S754_zero false
  \/ exists m e, binary_round_aux prec emax false mx ex lx = S754_finite false m e
                 /\ e <= 0 /\ Zpos m <= 2 ^ (- e).
Proof.
  intros H. unfold binary_round_aux.
  pose proof (shr_fexp_at_most_one mx ex lx H) as H1.
  destruct (shr_fexp prec emax mx ex lx) as [mrs' e']. cbn [fst snd] in H1.
  apply round_nearest_even_at_most_one in H1.
  apply shr_fexp_at_most_one in H1.
  destruct (shr_fexp prec emax (round_nearest_even (shr_m mrs') (loc_of_shr_record mrs')) e' loc_Exact)
    as [mrs'' e'']. cbn [fst snd] in H1.
  destruct H1 as (Hm & He & Hle & _).
  destruct (shr_m mrs'') as [| m | m]; [now left | | lia].
  right. exists m, e''.
  assert (Hb : (e'' <=? emax - prec) = true) by (apply Z.leb_le; unfold emax, prec; lia).
  rewrite Hb. auto.
Qed.

Lemma binary_round_aux_signed (s : bool) (mx ex : Z) (lx : location) :
  0 <= mx -> signed s (binary_round_aux prec emax s mx ex lx).
Proof.
  intros Hm. unfold binary_round_aux, shr_fexp.
  pose proof (shr_nonneg mx ex (fexp prec emax (Zdigits2 mx + ex) - ex) lx Hm) as H1.
  destruct (shr (shr_record_of_loc mx lx) ex (fexp prec emax (Zdigits2 mx + ex) - ex))
    as [mrs' e']. cbn [fst] in H1.
  assert (H2 : 0 <= round_nearest_even (shr_m mrs') (loc_of_shr_record mrs')).
  { destruct (loc_of_shr_record mrs') as [| []]; cbn [round_nearest_even]; try lia.
    destruct (Z.even (shr_m mrs')); lia. }
  set (m2 := round_nearest_even (shr_m mrs') (loc_of_shr_record mrs')) in *.
  pose proof (shr_nonneg m2 e' (fexp prec emax (Zdigits2 m2 + e') - e') loc_Exact H2) as H3.
  destruct (shr (shr_record_of_loc m2 loc_Exact) e' (fexp prec emax (Zdigits2 m2 + e') - e'))
    as [mrs'' e'']. cbn [fst] in H3.
  destruct (shr_m mrs'') as [| m | m]; [now left | | lia].
  destruct (e'' <=? emax - prec); [right; right; eauto | right; left; reflexivity].
Qed.

(** *** The unit interval *)

Lemma Prim2SF_0 : Prim2SF 0 = S754_zero false.
Proof. vm_compute. reflexivity. Qed.
Lemma Prim2SF_1 : Prim2SF 1 = one_SF.
Proof. vm_compute. reflexivity. Qed.

Lemma in_unit_SF (x : float) :
  in_unit x <-> SFleb (S754_zero false) (Prim2SF x) = true
                /\ SFleb (Prim2SF x) one_SF = true.
Proof. unfold in_unit. rewrite !FloatAxioms.leb_spec, Prim2SF_0, Prim2SF_1. reflexivity. Qed.

Lemma canonical_digits (m : positive) (e : Z) :
  valid_binary (S754_finite false m e) = true ->
  Z.max (Zpos (digits2_pos m) + e - 53) (-1074) = e.
Proof.
  cbn [SpecFloat.valid_binary]. unfold bounded, canonical_mantissa.
  rewrite fexp_64. intros H. apply andb_true_iff in H. destruct H as [H _].
  now apply Z.eqb_eq in H.
Qed.

Lemma unit_value_leb (x : spec_float) :
  valid_binary x = true -> unit_value x ->
  SFleb (S754_zero false) x = true /\ SFleb x one_SF = true.
Proof.
  intros Hv [[s ->] | (m & e & -> & He & Hm)]; [split; reflexivity |].
  split; [reflexivity |].
  apply canonical_digits in Hv.
  assert (Hdig : Zpos (digits2_pos m) <= 1 - e).
  { apply (Zdigits2_le (Zpos m)); [lia | lia |].
    replace (1 - e) with (Z.succ (- e)) by lia. rewrite Z.pow_succ_r by lia.
    assert (0 < 2 ^ (- e)) by (apply Z.pow_pos_nonneg; lia). lia. }
  assert (He52 : e <= -52) by lia.
  unfold SFleb, one_SF, SFcompare.
  destruct (Z.compare_spec e (-52)) as [-> | Hlt | Hgt]; [| reflexivity | lia].
  rewrite Pos.compare_cont_spec. cbn [Pos.switch_Eq].
  change (2 ^ (- -52)) with 4503599627370496 in Hm.
  destruct (Pos.compare_spec m 4503599627370496) as [_ | _ | Hgt]; try reflexivity.
  lia.
Qed.

Lemma leb_unit_value (x : spec_float) :
  valid_binary x = true ->
  SFleb (S754_zero false) x = true -> SFleb x one_SF = true ->
  unit_value x.
Proof.
  intros Hv H0 H1. destruct x as [s | s | | s m e].
  - left. eauto.
  - destruct s; discriminate.
  - discriminate.
  - destruct s; [discriminate |]. clear H0.
    right. exists m, e. split; [reflexivity |].
    apply canonical_digits in Hv.
    pose proof (digits2_pos_bounds m) as [_ Hhi].
    unfold SFleb, one_SF, SFcompare in H1.
    destruct (Z.compare_spec e (-52)) as [-> | Hlt | Hgt]; [| | discriminate].
    + rewrite Pos.compare_cont_spec in H1. cbn [Pos.switch_Eq] in H1.
      clear Hv Hhi. split; [lia |].
      change (2 ^ (- -52)) with (Zpos 4503599627370496).
      apply Pos2Z.pos_le_pos. unfold Pos.le.
      destruct (m ?= 4503599627370496)%positive; [discriminate | discriminate |].
      simpl in H1. discriminate.
    + clear H1. split; [lia |].
      assert (Hd : Zpos (digits2_pos m) <= - e) by lia.
      assert (2 ^ Zpos (digits2_pos m) <= 2 ^ (- e)) by (apply Z.pow_le_mono_r; lia).
      lia.
Qed.

Lemma iter_xO_pow (p d : positive) :
  Zpos (Pos.iter xO p d) = Zpos p * 2 ^ Zpos d.
Proof.
  rewrite <- (Pos2Z.inj_pow 2 d), <- Pos2Z.inj_mul. f_equal.
  revert p. induction d as [| d IH] using Pos.peano_ind.
  - intros p. rewrite Pos.pow_1_r. cbn [Pos.iter]. lia.
  - intros p. rewrite Pos.iter_succ, IH, Pos.pow_succ_r. lia.
Qed.

Lemma unit_value_exponent (m : positive) (e : Z) :
  valid_binary (S754_finite false m e) = true ->
  e <= 0 -> Zpos m <= 2 ^ (- e) -> e <= -52.
Proof.
  intros Hv He Hm. apply canonical_digits in Hv.
  assert (Hdig : Zpos (digits2_pos m) <= 1 - e); [| lia].
  apply (Zdigits2_le (Zpos m)); [lia | lia |].
  replace (1 - e) with (Z.succ (- e)) by lia. rewrite Z.pow_succ_r by lia.
  assert (0 < 2 ^ (- e)) by (apply Z.pow_pos_nonneg; lia). lia.
Qed.

Lemma shl_align_fst (mx : positive) (ex ez : Z) :
  ez <= ex -> Zpos (fst (shl_align mx ex ez)) = Zpos mx * 2 ^ (ex - ez).
Proof.
  intros H. unfold shl_align.
  destruct (ez - ex) as [| d | d] eqn:E; cbn [fst].
  - replace (ex - ez) with 0 by lia. rewrite Z.pow_0_r. lia.
  - lia.
  - rewrite iter_xO_pow. f_equal. f_equal. lia.
Qed.

Lemma shl_align_snd (mx : positive) (ex ez : Z) :
  snd (shl_align mx ex ez) = Z.min ex ez.
Proof.
  unfold shl_align. destruct (ez - ex) as [| d | d] eqn:E; cbn [snd]; lia.
Qed.

Lemma shl_align_value (mx : positive) (ex ez : Z) :
  Zpos (fst (shl_align mx ex ez))
  = Zpos mx * 2 ^ (ex - snd (shl_align mx ex ez)).
Proof.
  rewrite shl_align_snd.
  destruct (Z_le_gt_dec ez ex) as [Hle | Hgt].
  - rewrite Z.min_r by lia. now apply shl_align_fst.
  - rewrite Z.min_l by lia. unfold shl_align.
    destruct (ez - ex) as [| d | d] eqn:E; try lia. cbn [fst].
    rewrite Z.sub_diag, Z.pow_0_r. lia.
Qed.

Lemma binary_round_unit_value (mx : positive) (ex : Z) :
  ex <= 0 -> Zpos mx <= 2 ^ (- ex) ->
  unit_value (binary_round prec emax false mx ex).
Proof.
  intros He Hm. unfold binary_round.
  pose proof (shl_align_value mx ex (fexp prec emax (Zpos (digits2_pos mx) + ex))) as Hv.
  pose proof (shl_align_snd mx ex (fexp prec emax (Zpos (digits2_pos mx) + ex))) as Hs.
  destruct (shl_align mx ex (fexp prec emax (Zpos (digits2_pos mx) + ex))) as [mz ez].
  cbn [fst snd] in Hv, Hs.
  assert (Hez : ez <= ex) by lia.
  assert (Hone : at_most_one (Zpos mz) ez loc_Exact).
  { repeat split; try lia; try congruence.
    rewrite Hv. replace (- ez) with (- ex + (ex - ez)) by lia.
    rewrite Z.pow_add_r by lia.
    apply Z.mul_le_mono_nonneg_r; [| exact Hm].
    apply Z.pow_nonneg. lia. }
  destruct (binary_round_aux_at_most_one _ _ _ Hone) as [-> | (m & e & -> & H)].
  - left. eauto.
  - right. eauto.
Qed.

Lemma binary_normalize_unit_value (M e : Z) :
  0 <= M -> e <= 0 -> M <= 2 ^ (- e) ->
  unit_value (binary_normalize prec emax M e false).
Proof.
  intros H0 He HM. destruct M as [| p | p]; [left; eauto | | lia].
  cbn [binary_normalize]. now apply binary_round_unit_value.
Qed.

Lemma binary_round_signed (s : bool) (mx : positive) (ex : Z) :
  signed s (binary_round prec emax s mx ex).
Proof.
  unfold binary_round.
  destruct (shl_align mx ex (fexp prec emax (Zpos (digits2_pos mx) + ex))) as [mz ez].
  apply binary_round_aux_signed. lia.
Qed.

Lemma binary_normalize_signed (M e : Z) :
  exists s, signed s (binary_normalize prec emax M e false).
Proof.
  destruct M as [| p | p]; cbn [binary_normalize].
  - exists false. now left.
  - exists false. apply binary_round_signed.
  - exists true. apply binary_round_signed.
Qed.

(** [1 - y] stays in the unit interval. *)
Lemma sub_one_in_unit (y : float) : in_unit y -> in_unit (1 - y)%float.
Proof.
  intros Hy. apply in_unit_SF in Hy. destruct Hy as [H0 H1].
  pose proof (Prim2SF_valid y) as Hv.
  pose proof (leb_unit_value _ Hv H0 H1) as Hu.
  apply in_unit_SF. apply unit_value_leb; [apply Prim2SF_valid |].
  rewrite sub_spec, Prim2SF_1. unfold SF64sub, one_SF.
  destruct Hu as [[s E] | (m & e & E & He & Hm)]; rewrite E in *.
  - cbn [SFsub]. right. exists 4503599627370496%positive, (-52).
    repeat split; [lia |]. change (2 ^ (- -52)) with 4503599627370496. lia.
  - pose proof (unit_value_exponent m e Hv He Hm) as He52.
    cbn [SFsub cond_Zopp]. rewrite Z.min_r by lia.
    rewrite (shl_align_fst 4503599627370496 (-52) e) by lia.
    rewrite (shl_align_fst m e e) by lia.
    rewrite Z.sub_diag, Z.pow_0_r, Z.mul_1_r.
    assert (Hpow : 4503599627370496 * 2 ^ (-52 - e) = 2 ^ (- e)).
    { change 4503599627370496 with (2 ^ 52). rewrite <- Z.pow_add_r by lia.
      f_equal. lia. }
    rewrite Hpow. apply binary_normalize_unit_value; lia.
Qed.

(** *** Integer-valued doubles and their quotients *)

Lemma digits2_pos_unique (m : positive) (k : Z) :
  2 ^ (k - 1) <= Zpos m < 2 ^ k -> 1 <= k -> Zpos (digits2_pos m) = k.
Proof.
  intros [Hlo Hhi] Hk. pose proof (digits2_pos_bounds m) as [Dlo Dhi].
  set (d := Zpos (digits2_pos m)) in *. assert (Hd : 1 <= d) by (unfold d; lia).
  destruct (Z.lt_trichotomy d k) as [Hlt | [Heq | Hgt]]; [| exact Heq |].
  - assert (2 ^ d <= 2 ^ (k - 1)) by (apply Z.pow_le_mono_r; lia). lia.
  - assert (2 ^ k <= 2 ^ (d - 1)) by (apply Z.pow_le_mono_r; lia). lia.
Qed.

Lemma exact_double_mantissa (p : positive) :
  Zpos p < 2 ^ 53 ->
  let d := Zpos (digits2_pos p) in
  d <= 53
  /\ Zpos (Z.to_pos (Zpos p * 2 ^ (53 - d))) = Zpos p * 2 ^ (53 - d)
  /\ Zpos (digits2_pos (Z.to_pos (Zpos p * 2 ^ (53 - d)))) = 53.
Proof.
  intros Hp d. pose proof (digits2_pos_bounds p) as [Dlo Dhi]. fold d in Dlo, Dhi.
  assert (Hd : d <= 53).
  { destruct (Z_le_gt_dec d 53) as [H | H]; [exact H | exfalso].
    assert (2 ^ 53 <= 2 ^ (d - 1)) by (apply Z.pow_le_mono_r; lia). lia. }
  assert (Hpow : 0 < 2 ^ (53 - d)) by (apply Z.pow_pos_nonneg; lia).
  assert (Hid : Zpos (Z.to_pos (Zpos p * 2 ^ (53 - d))) = Zpos p * 2 ^ (53 - d))
    by (apply Z2Pos.id; lia).
  split; [exact Hd |]. split; [exact Hid |].
  apply digits2_pos_unique; [| lia]. rewrite Hid.
  assert (H52 : 2 ^ (53 - 1) = 2 ^ (d - 1) * 2 ^ (53 - d)).
  { rewrite <- Z.pow_add_r by (unfold d; lia). f_equal. lia. }
  assert (H53 : 2 ^ 53 = 2 ^ d * 2 ^ (53 - d)).
  { rewrite <- Z.pow_add_r by (unfold d; lia). f_equal. lia. }
  rewrite H52, H53. split.
  - apply Z.mul_le_mono_nonneg_r; lia.
  - apply Z.mul_lt_mono_pos_r; lia.
Qed.

Lemma exact_double_valid (k : Z) :
  k < 2 ^ 53 -> valid_binary (exact_double k) = true.
Proof.
  intros Hk. destruct k as [| p | p]; try reflexivity.
  destruct (exact_double_mantissa p Hk) as (Hd & _ & Hdig).
  cbn [exact_double SpecFloat.valid_binary]. unfold bounded, canonical_mantissa.
  rewrite Hdig, fexp_64. apply andb_true_iff. split.
  - apply Z.eqb_eq. pose proof (Pos2Z.is_pos (digits2_pos p)). lia.
  - apply Z.leb_le. unfold emax, prec. lia.
Qed.

Lemma Prim2SF_Number_of_nat (n : nat) :
  Prim2SF (Number_of_nat n) = exact_double (Z.min (Z.of_nat n) MAX_SAFE_INTEGER).
Proof.
  unfold Number_of_nat. apply Prim2SF_SF2Prim. apply exact_double_valid.
  unfold MAX_SAFE_INTEGER. lia.
Qed.

Lemma new_location_exact (nb_steps k : Z) :
  new_location nb_steps k <> loc_Exact -> k <> 0.
Proof.
  unfold new_location, new_location_even, new_location_odd.
  intros H ->. destruct (Z.even nb_steps); now apply H.
Qed.

(** The quotient of two doubles holding the integers [a <= b]. *)
Lemma SFdiv_integers_unit_value (m1 m2 : positive) (k1 k2 a b : Z) :
  0 <= k1 -> 0 <= k2 ->
  Zpos m1 = a * 2 ^ k1 -> Zpos m2 = b * 2 ^ k2 -> a <= b ->
  unit_value (SFdiv prec emax (S754_finite false m1 (- k1)) (S754_finite false m2 (- k2))).
Proof.
  intros Hk1 Hk2 H1 H2 Hab.
  assert (P1 : 0 < 2 ^ k1) by (apply Z.pow_pos_nonneg; lia).
  assert (P2 : 0 < 2 ^ k2) by (apply Z.pow_pos_nonneg; lia).
  assert (Ha : 1 <= a) by nia.
  assert (Hb : 1 <= b) by nia.
  pose proof (digits2_pos_bounds m1) as [D1lo D1hi].
  pose proof (digits2_pos_bounds m2) as [D2lo D2hi].
  set (d1 := Zpos (digits2_pos m1)) in *. set (d2 := Zpos (digits2_pos m2)) in *.
  assert (Hd1 : k1 < d1).
  { destruct (Z_lt_ge_dec k1 d1) as [H | H]; [exact H | exfalso].
    assert (2 ^ d1 <= 2 ^ k1) by (apply Z.pow_le_mono_r; unfold d1; lia). nia. }
  assert (Hd2 : k2 < d2).
  { destruct (Z_lt_ge_dec k2 d2) as [H | H]; [exact H | exfalso].
    assert (2 ^ d2 <= 2 ^ k2) by (apply Z.pow_le_mono_r; unfold d2; lia). nia. }
  assert (Hdig : d1 - k1 <= d2 - k2).
  { destruct (Z_le_gt_dec (d1 - k1) (d2 - k2)) as [H | H]; [exact H | exfalso].
    assert (E1 : 2 ^ (d1 - 1) = 2 ^ (d1 - 1 - k1) * 2 ^ k1).
    { rewrite <- Z.pow_add_r by lia. f_equal. lia. }
    assert (E2 : 2 ^ d2 = 2 ^ (d2 - k2) * 2 ^ k2).
    { rewrite <- Z.pow_add_r by lia. f_equal. lia. }
    assert (2 ^ (d2 - k2) <= 2 ^ (d1 - 1 - k1)) by (apply Z.pow_le_mono_r; lia).
    assert (2 ^ (d1 - 1 - k1) <= a) by nia.
    assert (b < 2 ^ (d2 - k2)) by nia.
    lia. }
  cbn [SFdiv xorb]. unfold SFdiv_core_binary. cbn [Zdigits2].
  fold d1 d2. rewrite fexp_64.
  set (e' := Z.min (Z.max (d1 + - k1 - (d2 + - k2) - 53) (-1074)) (- k1 - - k2)).
  assert (He' : e' <= -53) by (unfold e'; lia).
  assert (Hs : 0 <= - k1 - - k2 - e') by (unfold e'; lia).
  set (s := - k1 - - k2 - e') in *.
  assert (Hm' : match s with
                | 0 => Zpos m1
                | Zpos _ => Z.shiftl (Zpos m1) s
                | Zneg _ => 0
                end = Zpos m1 * 2 ^ s).
  { destruct s as [| ps | ps] eqn:Es; [rewrite Z.pow_0_r; lia | | lia].
    apply Z.shiftl_mul_pow2. lia. }
  rewrite Hm'. clear Hm'.
  pose proof (Z_div_mod (Zpos m1 * 2 ^ s) (Zpos m2) ltac:(lia)) as Hdm.
  destruct (Z.div_eucl (Zpos m1 * 2 ^ s) (Zpos m2)) as [q r].
  destruct Hdm as [Hq Hr].
  assert (Ps : 0 < 2 ^ s) by (apply Z.pow_pos_nonneg; lia).
  assert (Pe : 0 < 2 ^ (- e')) by (apply Z.pow_pos_nonneg; lia).
  assert (Hle : Zpos m1 * 2 ^ s <= Zpos m2 * 2 ^ (- e')).
  { rewrite H1, H2, <- !Z.mul_assoc, <- !Z.pow_add_r by lia.
    replace (k1 + s) with (k2 + - e') by (unfold s; lia).
    apply Z.mul_le_mono_nonneg_r; [apply Z.pow_nonneg; lia | exact Hab]. }
  assert (Hone : at_most_one q e' (new_location (Zpos m2) r)).
  { repeat split.
    - nia.
    - lia.
    - nia.
    - intros Hl. apply new_location_exact in Hl. nia. }
  destruct (binary_round_aux_at_most_one _ _ _ Hone) as [-> | (m & e & -> & H)].
  - left. eauto.
  - right. eauto.
Qed.

Lemma div_Number_of_nat_in_unit (a b : nat) :
  (a <= b)%nat -> (1 <= b)%nat -> in_unit (Number_of_nat a / Number_of_nat b)%float.
Proof.
  intros Hab Hb. apply in_unit_SF. apply unit_value_leb; [apply Prim2SF_valid |].
  rewrite div_spec, !Prim2SF_Number_of_nat. unfold SF64div.
  set (a' := Z.min (Z.of_nat a) MAX_SAFE_INTEGER).
  set (b' := Z.min (Z.of_nat b) MAX_SAFE_INTEGER).
  assert (Hab' : a' <= b') by (unfold a', b', MAX_SAFE_INTEGER; lia).
  assert (Hb' : 1 <= b' < 2 ^ 53) by (unfold b', MAX_SAFE_INTEGER; lia).
  assert (Ha' : 0 <= a') by (unfold a', MAX_SAFE_INTEGER; lia).
  clearbody a' b'. clear Hab Hb a b.
  destruct b' as [| pb | pb]; try lia.
  destruct (exact_double_mantissa pb ltac:(lia)) as (Hdb & Hmb & _).
  destruct a' as [| pa | pa]; try lia.
  - left. exists false. reflexivity.
  - destruct (exact_double_mantissa pa ltac:(lia)) as (Hda & Hma & _).
    cbn [exact_double].
    replace (Zpos (digits2_pos pa) - 53) with (- (53 - Zpos (digits2_pos pa))) by lia.
    replace (Zpos (digits2_pos pb) - 53) with (- (53 - Zpos (digits2_pos pb))) by lia.
    apply (SFdiv_integers_unit_value _ _ _ _ (Zpos pa) (Zpos pb)); try lia.
Qed.

(** *** Exact quotients *)

(** A finite double divided by itself is 1. *)
Lemma SFdiv_self (m : positive) (e : Z) :
  SFdiv prec emax (S754_finite false m e) (S754_finite false m e) = one_SF.
Proof.
  cbn [SFdiv xorb]. unfold SFdiv_core_binary. cbn [Zdigits2].
  rewrite !Z.sub_diag. rewrite fexp_64.
  change (Z.min (Z.max (0 - 53) (-1074)) 0) with (-53).
  change (0 - -53) with 53.
  rewrite Z.shiftl_mul_pow2 by lia.
  rewrite (surjective_pairing (Z.div_eucl (Zpos m * 2 ^ 53) (Zpos m))).
  change (fst (Z.div_eucl (Zpos m * 2 ^ 53) (Zpos m))) with (Zpos m * 2 ^ 53 / Zpos m).
  change (snd (Z.div_eucl (Zpos m * 2 ^ 53) (Zpos m))) with ((Zpos m * 2 ^ 53) mod Zpos m).
  rewrite (Z.mul_comm (Zpos m)), Z.div_mul, Z.mod_mul by lia.
  assert (Hl : new_location (Zpos m) 0 = loc_Exact).
  { unfold new_location. destruct (Z.even (Zpos m)); reflexivity. }
  rewrite Hl. vm_compute. reflexivity.
Qed.

Lemma Number_of_nat_div_self (n : nat) :
  (1 <= n)%nat -> (Number_of_nat n / Number_of_nat n)%float = 1%float.
Proof.
  intros Hn. apply Prim2SF_inj.
  rewrite div_spec, Prim2SF_Number_of_nat, Prim2SF_1. unfold SF64div.
  destruct (Z.min (Z.of_nat n) MAX_SAFE_INTEGER) as [| p | p] eqn:E;
    try (unfold MAX_SAFE_INTEGER in E; lia).
  cbn [exact_double]. apply SFdiv_self.
Qed.

Lemma Number_of_nat_div_zero (n : nat) :
  (1 <= n)%nat -> (Number_of_nat 0 / Number_of_nat n)%float = 0%float.
Proof.
  intros Hn. apply Prim2SF_inj.
  rewrite div_spec, !Prim2SF_Number_of_nat, Prim2SF_0. unfold SF64div.
  destruct (Z.min (Z.of_nat n) MAX_SAFE_INTEGER) as [| p | p] eqn:E;
    try (unfold MAX_SAFE_INTEGER in E; lia).
  reflexivity.
Qed.

(** *** The similarity of two numbers *)

Lemma SFeqb_refl (x : spec_float) :
  SFeqb x x = match x with S754_nan => false | _ => true end.
Proof.
  destruct x as [s | s | | s m e]; try reflexivity.
  - now destruct s.
  - apply SFeqb_finite_refl.
Qed.

Lemma is_nan_SF (x : float) :
  PrimFloat.is_nan x = match Prim2SF x with S754_nan => true | _ => false end.
Proof.
  unfold PrimFloat.is_nan. rewrite FloatAxioms.eqb_spec, SFeqb_refl.
  now destruct (Prim2SF x).
Qed.

Lemma signed_not_nan (s : bool) (x : float) :
  signed s (Prim2SF x) -> PrimFloat.is_nan x = false.
Proof.
  rewrite is_nan_SF. intros [-> | [-> | (m & e & ->)]]; reflexivity.
Qed.

Lemma SFabs_signed (s : bool) (x : spec_float) : signed s x -> signed false (SFabs x).
Proof.
  intros [-> | [-> | (m & e & ->)]]; cbn [SFabs];
    [now left | right; now left | right; right; eauto].
Qed.

Lemma Math_max_choice (x y : float) :
  PrimFloat.is_nan x = false -> PrimFloat.is_nan y = false ->
  Math_max x y = x \/ Math_max x y = y.
Proof.
  intros Hx Hy. unfold Math_max. rewrite Hx, Hy. cbn [orb].
  destruct (PrimFloat.ltb x y); [now right |].
  destruct (PrimFloat.ltb y x); [now left |].
  destruct (PrimFloat.get_sign x); auto.
Qed.

(** A truthy number is an infinity or a finite non-zero double. *)
Lemma truthy_number (x : float) :
  truthy (VNum x) = true ->
  (exists s, Prim2SF x = S754_infinity s) \/ (exists s m e, Prim2SF x = S754_finite s m e).
Proof.
  cbn [truthy]. rewrite is_nan_SF, FloatAxioms.eqb_spec, Prim2SF_0.
  destruct (Prim2SF x) as [s | s | | s m e]; try discriminate; eauto 6.
Qed.

Lemma SFsub_signed (x y : spec_float) :
  ((exists s, x = S754_infinity s) \/ (exists s m e, x = S754_finite s m e)) ->
  ((exists s, y = S754_infinity s) \/ (exists s m e, y = S754_finite s m e)) ->
  SFeqb x y = false ->
  exists s, signed s (SFsub prec emax x y).
Proof.
  intros [[sx ->] | (sx & mx & ex & ->)] [[sy ->] | (sy & my & ey & ->)] Hne.
  - destruct sx, sy; try discriminate; cbn [SFsub]; eexists; right; left; reflexivity.
  - cbn [SFsub]. eexists; right; left; reflexivity.
  - cbn [SFsub]. eexists; right; left; reflexivity.
  - cbn [SFsub]. apply binary_normalize_signed.
Qed.

Lemma SFdiv_core_nonneg (m1 m2 : positive) (e1 e2 : Z) :
  0 <= fst (fst (SFdiv_core_binary prec emax (Zpos m1) e1 (Zpos m2) e2)).
Proof.
  unfold SFdiv_core_binary.
  set (s := e1 - e2 - _). set (m' := match s with 0 => _ | Zpos _ => _ | Zneg _ => _ end).
  assert (Hm' : 0 <= m').
  { unfold m'. destruct s; [lia | | lia]. apply Z.shiftl_nonneg. lia. }
  pose proof (Z_div_mod m' (Zpos m2) ltac:(lia)) as H.
  destruct (Z.div_eucl m' (Zpos m2)) as [q r]. cbn [fst]. nia.
Qed.

Lemma SFdiv_signed (x : spec_float) (m : positive) (e : Z) :
  signed false x -> signed false (SFdiv prec emax x (S754_finite false m e)).
Proof.
  intros [-> | [-> | (mx & ex & ->)]]; cbn [SFdiv xorb];
    [now left | right; now left |].
  pose proof (SFdiv_core_nonneg mx m ex e) as H.
  destruct (SFdiv_core_binary prec emax (Zpos mx) ex (Zpos m) e) as [[q e'] l].
  cbn [fst] in H. now apply binary_round_aux_signed.
Qed.

Lemma signed_nonneg (x : spec_float) :
  signed false x -> SFleb (S754_zero false) x = true.
Proof. intros [-> | [-> | (m & e & ->)]]; reflexivity. Qed.

Lemma signed_leb_infinity (x : spec_float) :
  signed false x -> SFleb x (S754_infinity false) = true.
Proof. intros [-> | [-> | (m & e & ->)]]; reflexivity. Qed.

Lemma SFltb_one_antisym (x : spec_float) :
  signed false x ->
  SFltb x one_SF = false -> SFltb one_SF x = false -> SFleb x one_SF = true.
Proof.
  intros [-> | [-> | (m & e & ->)]]; try reflexivity; try discriminate.
  unfold SFltb, SFleb, one_SF, SFcompare.
  rewrite (Z.compare_antisym e (-52)).
  destruct (e ?= -52); cbn [CompOpp]; try discriminate; try reflexivity.
  rewrite !Pos.compare_cont_spec. cbn [Pos.switch_Eq].
  rewrite (Pos.compare_antisym m 4503599627370496).
  destruct (m ?= 4503599627370496)%positive; cbn [CompOpp]; try discriminate; reflexivity.
Qed.

Lemma Math_min_one_in_unit (q : float) :
  signed false (Prim2SF q) -> in_unit (Math_min q 1).
Proof.
  intros Hq. unfold Math_min. rewrite (signed_not_nan _ _ Hq).
  change (PrimFloat.is_nan 1) with false. cbn [orb].
  assert (H1 : in_unit 1) by (split; vm_compute; reflexivity).
  rewrite !FloatAxioms.ltb_spec, Prim2SF_1.
  destruct (SFltb (Prim2SF q) one_SF) eqn:Elt.
  - apply in_unit_SF. split; [now apply signed_nonneg |].
    unfold SFltb in Elt. unfold SFleb.
    destruct (SFcompare (Prim2SF q) one_SF) as [[] |]; try discriminate; reflexivity.
  - destruct (SFltb one_SF (Prim2SF q)) eqn:Egt; [exact H1 |].
    destruct (PrimFloat.get_sign q); [| exact H1].
    apply in_unit_SF. split; [now apply signed_nonneg |].
    now apply SFltb_one_antisym.
Qed.

Lemma Prim2SF_infinity (x : float) :
  Prim2SF x = S754_infinity false -> x = PrimFloat.infinity.
Proof. intros H. apply Prim2SF_inj. rewrite H. reflexivity. Qed.

(** When the larger magnitude is infinite, the pair is within tolerance. *)
Lemma areNumbersClose_infinite (e a : float) :
  signed false (Prim2SF (Math_abs (e - a))) ->
  Prim2SF (Math_max (Math_abs e) (Math_abs a)) = S754_infinity false ->
  areNumbersClose e a = true.
Proof.
  intros Hd Hm. unfold areNumbersClose.
  apply Prim2SF_infinity in Hm. rewrite Hm.
  change (Math_max absTolerance (relTolerance * PrimFloat.infinity))
    with PrimFloat.infinity.
  rewrite FloatAxioms.leb_spec. now apply signed_leb_infinity.
Qed.

(** The number branch records similarities in the unit interval. *)
Lemma numberSimilarity_in_unit (e a : float) :
  truthy (VNum e) = true -> truthy (VNum a) = true ->
  PrimFloat.eqb e a = false -> areNumbersClose e a = false ->
  in_unit (numberSimilarity e a).
Proof.
  intros He Ha Hne Hclose. unfold numberSimilarity.
  apply sub_one_in_unit. apply Math_min_one_in_unit.
  apply truthy_number in He, Ha.
  rewrite FloatAxioms.eqb_spec in Hne.
  assert (Hd : signed false (Prim2SF (Math_abs (e - a)))).
  { unfold Math_abs. rewrite abs_spec, sub_spec.
    destruct (SFsub_signed _ _ He Ha Hne) as [s Hs].
    now apply SFabs_signed with s. }
  assert (Hea : signed false (Prim2SF (Math_abs e))
                /\ signed false (Prim2SF (Math_abs a))).
  { unfold Math_abs. rewrite !abs_spec.
    destruct He as [[s ->] | (s & m & x & ->)], Ha as [[s' ->] | (s' & m' & x' & ->)];
      cbn [SFabs]; split;
      try (right; left; reflexivity); right; right; eauto. }
  destruct Hea as [Hae Haa].
  assert (Hm : signed false (Prim2SF (Math_max (Math_abs e) (Math_abs a)))).
  { destruct (Math_max_choice (Math_abs e) (Math_abs a)) as [-> | ->];
      eauto using signed_not_nan. }
  assert (Hz : Prim2SF (Math_max (Math_abs e) (Math_abs a)) <> S754_zero false).
  { destruct (Math_max_choice (Math_abs e) (Math_abs a)) as [-> | ->];
      eauto using signed_not_nan; unfold Math_abs; rewrite abs_spec.
    - destruct He as [[s ->] | (s & m & x & ->)]; discriminate.
    - destruct Ha as [[s ->] | (s & m & x & ->)]; discriminate. }
  rewrite div_spec.
  destruct Hm as [Hm | [Hm | (m & x & Hm)]].
  - contradiction.
  - rewrite (areNumbersClose_infinite e a Hd Hm) in Hclose. discriminate.
  - rewrite Hm. now apply SFdiv_signed.
Qed.

End DoubleFacts.

(** ** Numbers: the tolerance boundary *)



(** ** Averages *)

Lemma averageTime_eq (results : list TestResult.t) :
  MetricsResult.averageTime (calculateMetrics results)
  = (sum (map TestResult.timeElapsed (filter TestResult.isFinished results))
     / Number_of_nat (List.length results))%float.
Proof. reflexivity. Qed.

Lemma averageCost_eq (results : list TestResult.t) :
  MetricsResult.averageCost (calculateMetrics results)
  = (sum (map TestResult.cost (filter TestResult.isFinished results))
     / Number_of_nat (List.length results))%float.
Proof. reflexivity. Qed.

(** C2, the code at a batch with one finished case (10 ms, cost 2) and one
    unfinished case: the sums run over the finished case only, but both are
    divided by the number of all cases, so the averages are 5 and 1 where
    the averages over the finished cases are 10 and 2. *)
Theorem C2_averages_divide_by_all_cases :
  let results := [finishedResult true 10 2 []; unfinishedResult "q" VNull] in
  let finished := filter TestResult.isFinished results in
  MetricsResult.averageTime (calculateMetrics results) = 5%float /\
  MetricsResult.averageCost (calculateMetrics results) = 1%float /\
  (sum (map TestResult.timeElapsed finished) / Number_of_nat (List.length finished)
   = 10)%float /\
  (sum (map TestResult.cost finished) / Number_of_nat (List.length finished)
   = 2)%float.
Proof.
  repeat split; vm_compute; reflexivity.
Qed.

(** ** The evaluator never throws *)

Lemma compareResponses_Normal (JSON_parse : string -> completion value)
    (expected actual : value) :
  exists c, compareResponses JSON_parse expected actual = Normal c.
Proof.
  unfold compareResponses, try_catch, bind.
  destruct (parse_if_string JSON_parse expected) as [e | err]; [| eauto].
  destruct (parse_if_string JSON_parse actual) as [a | err]; [| eauto].
  destruct (deepCompare e a [] []). eauto.
Qed.

Lemma compareResponses_parse_error (JSON_parse : string -> completion value)
    (expected actual : value) :
  unparsable JSON_parse expected \/ unparsable JSON_parse actual ->
  compareResponses JSON_parse expected actual
  = Normal {| ComparisonResult.isMatch := false;
              ComparisonResult.differences :=
                Some [ {| key := "parse_error"; expected := expected;
                          actual := actual; path := Some ["root"];
                          similarity := None |} ];
              ComparisonResult.matchedFields := None;
              ComparisonResult.missingFields := None;
              ComparisonResult.extraFields := None |}.
Proof.
  unfold compareResponses, try_catch, bind.
  intros [(s & e & -> & H) | (s & e & -> & H)].
  - cbn [parse_if_string]. now rewrite H.
  - destruct (parse_if_string JSON_parse expected); [| reflexivity].
    cbn [parse_if_string]. now rewrite H.
Qed.

(** C3: [evaluateTestCase] ends normally on every input, with a finished
    case whose verdict is that of the comparison; when either side is a
    string that [JSON.parse] rejects, the case fails and carries exactly one
    difference, whose key is "parse_error". *)
Theorem C3_evaluateTestCase_never_throws
    (JSON_parse : string -> completion value) (expected actual : value)
    (timeElapsed cost : float) (input : string) :
  exists r c,
    evaluateTestCase JSON_parse expected actual timeElapsed cost input = Normal r
    /\ compareResponses JSON_parse expected actual = Normal c
    /\ TestResult.isFinished r = true
    /\ TestResult.isSuccess r = ComparisonResult.isMatch c
    /\ TestResult.differences r = ComparisonResult.differences c
    /\ (unparsable JSON_parse expected \/ unparsable JSON_parse actual ->
        TestResult.isSuccess r = false
        /\ exists d, TestResult.differences r = Some [d] /\ key d = "parse_error").
Proof.
  destruct (compareResponses_Normal JSON_parse expected actual) as [c Hc].
  unfold evaluateTestCase, bind. rewrite Hc.
  eexists. exists c. repeat split; cbn.
  - rewrite (compareResponses_parse_error _ _ _ H) in Hc.
    injection Hc as <-. reflexivity.
  - rewrite (compareResponses_parse_error _ _ _ H) in Hc.
    injection Hc as <-. cbn. eexists. split; reflexivity.
Qed.

(** C3 on a truncated document against a parsed object. *)
Lemma C3_witness :
  exists r,
    evaluateTestCase parse_literal (VStr "{a:1") (VObj [("a", VNum 1)]) 10 1 "q" = Normal r
    /\ TestResult.isSuccess r = false
    /\ exists d, TestResult.differences r = Some [d] /\ key d = "parse_error".
Proof.
  destruct (C3_evaluateTestCase_never_throws parse_literal
              (VStr "{a:1") (VObj [("a", VNum 1)]) 10 1 "q")
    as (r & c & Hr & _ & _ & _ & _ & H).
  exists r. split; [exact Hr |].
  apply H. left. exists "{a:1", SyntaxError. split; reflexivity.
Defined.

(** ** The edit-distance table *)

Lemma lev_0_r (a b : list ascii) (i : nat) : lev a b i 0 = i.
Proof. destruct i; reflexivity. Qed.

Lemma lev_S_S (a b : list ascii) (i j : nat) :
  lev a b (S i) (S j)
  = Nat.min (Nat.min (lev a b i (S j) + 1) (lev a b (S i) j + 1))
            (lev a b i j
             + (if Ascii.eqb (nth i a Ascii.zero) (nth j b Ascii.zero) then 0 else 1)).
Proof. reflexivity. Qed.

Lemma lev_le_max (a b : list ascii) (i j : nat) : lev a b i j <= Nat.max i j.
Proof.
  revert j. induction i as [| i IH]; intros j.
  - simpl. lia.
  - induction j as [| j IHj].
    + rewrite lev_0_r. lia.
    + rewrite lev_S_S. specialize (IH j).
      destruct (Ascii.eqb _ _); lia.
Qed.

(** One row of the table, against the recurrence. *)
Lemma fill_row_lev (a b : list ascii) (j : nat) :
  forall (rest : list ascii) (i : nat) (prev : list nat) (left : nat),
    rest = skipn i a ->
    prev = map (fun k => lev a b k j) (seq i (S (List.length rest))) ->
    left = lev a b i (S j) ->
    fill_row rest (nth j b Ascii.zero) prev left
    = map (fun k => lev a b k (S j)) (seq (S i) (List.length rest)).
Proof.
  induction rest as [| c1 rest IH]; intros i prev left Hrest Hprev Hleft.
  - reflexivity.
  - subst prev left. cbn [List.length seq map fill_row].
    assert (Hc : nth i a Ascii.zero = c1).
    { rewrite <- (firstn_skipn i a) at 1. rewrite <- Hrest.
      assert (Hlen : List.length (firstn i a) = i).
      { apply firstn_length_le.
        assert (List.length (skipn i a) = List.length a - i) by apply length_skipn.
        rewrite <- Hrest in H. simpl in H. lia. }
      rewrite app_nth2 by lia. rewrite Hlen, Nat.sub_diag. reflexivity. }
    assert (Hskip : rest = skipn (S i) a).
    { change (S i) with (1 + i). rewrite <- skipn_skipn, <- Hrest. reflexivity. }
    f_equal.
    + rewrite lev_S_S, Hc. reflexivity.
    + apply IH; [exact Hskip | reflexivity | rewrite lev_S_S, Hc; reflexivity].
Qed.

(** The rows of the table, against the recurrence. *)
Lemma fill_rows_lev (a b : list ascii) :
  forall (rest : list ascii) (j : nat) (prev : list nat),
    j <= List.length b ->
    rest = skipn j b ->
    prev = map (fun k => lev a b k j) (seq 0 (S (List.length a))) ->
    fill_rows a rest prev (S j)
    = map (fun k => lev a b k (List.length b)) (seq 0 (S (List.length a))).
Proof.
  induction rest as [| c2 rest IH]; intros j prev Hj Hrest Hprev.
  - cbn [fill_rows]. subst prev.
    assert (H : List.length (skipn j b) = List.length b - j) by apply length_skipn.
    rewrite <- Hrest in H. simpl in H.
    replace j with (List.length b) by lia. reflexivity.
  - cbn [fill_rows].
    assert (H : List.length (skipn j b) = List.length b - j) by apply length_skipn.
    rewrite <- Hrest in H. simpl in H.
    assert (Hc : nth j b Ascii.zero = c2).
    { rewrite <- (firstn_skipn j b) at 1. rewrite <- Hrest.
      assert (Hlen : List.length (firstn j b) = j) by (apply firstn_length_le; lia).
      rewrite app_nth2 by lia. rewrite Hlen, Nat.sub_diag. reflexivity. }
    apply IH.
    + lia.
    + change (S j) with (1 + j). rewrite <- skipn_skipn, <- Hrest. reflexivity.
    + subst prev. cbn [seq map]. f_equal.
      rewrite <- Hc.
      rewrite (fill_row_lev a b j a 0 _ (S j)); [reflexivity | reflexivity | reflexivity | reflexivity].
Qed.

Lemma length_list_ascii_of_string (s : string) :
  List.length (list_ascii_of_string s) = String.length s.
Proof. induction s; simpl; congruence. Qed.

(** The table's last entry is the Levenshtein distance. *)
Lemma distance_levenshtein (str1 str2 : string) :
  distance str1 str2 = levenshtein str1 str2.
Proof.
  unfold distance, levenshtein.
  rewrite (fill_rows_lev _ (list_ascii_of_string str2) (list_ascii_of_string str2) 0);
    [| lia | reflexivity | ].
  - rewrite seq_S, map_app. cbn [map]. rewrite last_last. simpl.
    now rewrite !length_list_ascii_of_string.
  - rewrite <- (map_id (seq 0 _)) at 1.
    apply map_ext. intros k. now rewrite lev_0_r.
Qed.

(** ** Strings *)

Lemma lev_diag (a : list ascii) (i : nat) : lev a a i i = 0.
Proof.
  induction i as [| i IH]; [reflexivity |].
  rewrite lev_S_S, IH, Ascii.eqb_refl. lia.
Qed.

Lemma levenshtein_refl (s : string) : levenshtein s s = 0.
Proof. unfold levenshtein. apply lev_diag. Qed.

Lemma levenshtein_empty_r (s : string) : levenshtein s "" = String.length s.
Proof. unfold levenshtein. apply lev_0_r. Qed.

Lemma levenshtein_empty_l (s : string) : levenshtein "" s = String.length s.
Proof. reflexivity. Qed.

Lemma calculateStringSimilarity_levenshtein (str1 str2 : string) :
  calculateStringSimilarity str1 str2
  = (1 - Number_of_nat (levenshtein str1 str2)
         / Number_of_nat (Nat.max (String.length str1) (String.length str2)))%float.
Proof. unfold calculateStringSimilarity. now rewrite distance_levenshtein. Qed.

Lemma calculateStringSimilarity_same (s : string) :
  s <> "" -> calculateStringSimilarity s s = 1%float.
Proof.
  intros Hs. rewrite calculateStringSimilarity_levenshtein, levenshtein_refl.
  rewrite Number_of_nat_div_zero; [reflexivity |].
  destruct s; [contradiction | cbn [String.length]; lia].
Qed.

Lemma calculateStringSimilarity_empty (e a : string) :
  e <> a -> e = "" \/ a = "" -> calculateStringSimilarity e a = 0%float.
Proof.
  intros Hne H. rewrite calculateStringSimilarity_levenshtein.
  destruct H as [-> | ->].
  - rewrite levenshtein_empty_l. cbn [String.length Nat.max].
    rewrite Number_of_nat_div_self; [reflexivity |].
    destruct a; [contradiction | cbn [String.length]; lia].
  - rewrite levenshtein_empty_r. rewrite Nat.max_0_r.
    rewrite Number_of_nat_div_self; [reflexivity |].
    destruct e; [contradiction | cbn [String.length]; lia].
Qed.

(** C4 (as amended): the similarity of two strings is 1 minus their
    Levenshtein distance divided by the length of the longer one.  Comparing
    two strings that are not both empty pushes a difference exactly when
    the similarity is below 1 and passes exactly when it is above 0; the
    difference pushed holds the key (the last segment of the path, or
    'root'), the two strings, the path and the similarity.  Two empty
    strings match by [===] before any similarity is computed, and nothing
    is pushed.  "cat" against "hat" passes with similarity [1 - 1/3] (as a
    double, the neighbour of the double [2/3]) and one difference; "abc"
    against "xyz" fails with similarity 0. *)
Theorem C4_string_similarity :
  (forall str1 str2 : string,
     calculateStringSimilarity str1 str2
     = (1 - Number_of_nat (levenshtein str1 str2)
            / Number_of_nat (Nat.max (String.length str1) (String.length str2)))%float)
  /\ (forall (e a : string) (p : list string) (d : list ValueDifference),
        ~ (e = "" /\ a = "") ->
        let s := calculateStringSimilarity e a in
        deepCompare (VStr e) (VStr a) p d
        = (PrimFloat.ltb 0 s,
           if PrimFloat.ltb s 1
           then d ++ [ {| key := if last p "" =? "" then "root" else last p "";
                          expected := VStr e;
                          actual := VStr a;
                          path := Some p;
                          similarity := Some s |} ]
           else d))
  /\ (forall (p : list string) (d : list ValueDifference),
        deepCompare (VStr "") (VStr "") p d = (true, d))
  /\ levenshtein "cat" "hat" = 1
  /\ deepCompare (VStr "cat") (VStr "hat") [] []
     = (true, [ {| key := "root";
                   expected := VStr "cat";
                   actual := VStr "hat";
                   path := Some [];
                   similarity := Some (1 - 1 / 3)%float |} ])
  /\ within_one_ulp (1 - 1 / 3)%float (2 / 3)%float = true
  /\ levenshtein "abc" "xyz" = 3
  /\ deepCompare (VStr "abc") (VStr "xyz") [] []
     = (false, [ {| key := "root";
                    expected := VStr "abc";
                    actual := VStr "xyz";
                    path := Some [];
                    similarity := Some 0%float |} ]).
Proof.
  split; [exact calculateStringSimilarity_levenshtein |].
  split; [| split; [intros p d; now rewrite deepCompare_unfold |
                    repeat split; vm_compute; reflexivity]].
  intros e a p d Hne. cbv zeta.
  rewrite <- key_of_last.
  change {| key := key_of p; expected := VStr e; actual := VStr a; path := Some p;
            similarity := Some (calculateStringSimilarity e a) |}
    with (difference_at p (VStr e) (VStr a) (calculateStringSimilarity e a)).
  rewrite deepCompare_unfold. cbn [strict_eq truthy typeof type_tag_eqb negb].
  destruct (String.eqb_spec e a) as [-> | Hea].
  - rewrite calculateStringSimilarity_same by (intros ->; now apply Hne).
    reflexivity.
  - destruct (String.eqb_spec e "") as [He | He].
    + rewrite calculateStringSimilarity_empty by auto. reflexivity.
    + destruct (String.eqb_spec a "") as [Ha | Ha].
      * rewrite calculateStringSimilarity_empty by auto. reflexivity.
      * reflexivity.
Qed.

(** C4, the claim as stated fails for two empty strings: the comparison
    passes, but the similarity [1 - 0/0] is [NaN], which is not above 0. *)
Lemma C4_counterexample :
  fst (deepCompare (VStr "") (VStr "") [] []) = true
  /\ PrimFloat.is_nan (calculateStringSimilarity "" "") = true
  /\ PrimFloat.ltb 0 (calculateStringSimilarity "" "") = false.
Proof.
  repeat split; vm_compute; reflexivity.
Qed.

(** C4 at a concrete pair: one insertion in five characters. *)
Lemma C4_witness :
  deepCompare (VStr "color") (VStr "colour") ["name"] []
  = (true, [ {| key := "name";
                expected := VStr "color";
                actual := VStr "colour";
                path := Some ["name"];
                similarity := Some (1 - 1 / 6)%float |} ]).
Proof.
  rewrite (proj1 (proj2 C4_string_similarity) "color" "colour" ["name"] []).
  - vm_compute. reflexivity.
  - intros [H _]. discriminate H.
Defined.

(** ** Arrays of different lengths *)

(** C5: two arrays of different lengths yield exactly one new difference,
    whose expected and actual are the placeholders [Array(n)] and whose
    similarity is min/max of the lengths, and a failed verdict; nothing is
    pushed for any element.  Comparing [[1,2,3]] with [[1,2]] gives one
    difference of similarity 2/3. *)
Theorem C5_array_length_mismatch :
  (forall (e a : list value) (p : list string) (d : list ValueDifference),
     List.length e <> List.length a ->
     deepCompare (VArr e) (VArr a) p d
     = (false,
        d ++ [ {| key := if last p "" =? "" then "root" else last p "";
                  expected := VStr ("Array(" ++ Number_toString (List.length e) ++ ")");
                  actual := VStr ("Array(" ++ Number_toString (List.length a) ++ ")");
                  path := Some p;
                  similarity :=
                    Some (Number_of_nat (Nat.min (List.length e) (List.length a))
                          / Number_of_nat (Nat.max (List.length e) (List.length a)))%float
               |} ]))
  /\ deepCompare (VArr [VNum 1; VNum 2; VNum 3]) (VArr [VNum 1; VNum 2]) [] []
     = (false, [ {| key := "root";
                    expected := VStr "Array(3)";
                    actual := VStr "Array(2)";
                    path := Some [];
                    similarity := Some (2 / 3)%float |} ]).
Proof.
  split; [| vm_compute; reflexivity].
  intros e a p d H. rewrite <- key_of_last.
  rewrite deepCompare_unfold. cbn -[Number_of_nat Number_toString String.append key_of].
  apply Nat.eqb_neq in H. now rewrite H.
Qed.

(** C5 at a concrete pair inside a larger document. *)
Lemma C5_witness :
  deepCompare (VArr [VStr "a"]) (VArr []) ["tags"] []
  = (false, [ {| key := "tags";
                 expected := VStr "Array(1)";
                 actual := VStr "Array(0)";
                 path := Some ["tags"];
                 similarity := Some 0%float |} ]).
Proof.
  rewrite (proj1 C5_array_length_mismatch [VStr "a"] [] ["tags"] []).
  - vm_compute. reflexivity.
  - simpl. discriminate.
Defined.

(** ** Key sets of objects *)

Lemma lookup_mem (k : string) (fields : list (string * value)) :
  mem k (map fst fields) = match lookup k fields with Some _ => true | None => false end.
Proof.
  induction fields as [| [k' v] fields IH]; [reflexivity |].
  cbn [map fst mem existsb lookup]. unfold mem in IH.
  destruct (k =? k'); [reflexivity | exact IH].
Qed.

(** For a key that names nothing on [Object.prototype], [key in object]
    holds exactly for the object's own keys. *)
Lemma has_property_own (k : string) (fields : list (string * value)) :
  mem k Object_prototype_names = false ->
  has_property k (VObj fields) = mem k (map fst fields).
Proof.
  intros Hk. unfold has_property, get_property, inherited_from_Object.
  rewrite lookup_mem. destruct (lookup k fields); [reflexivity |].
  rewrite Hk. destruct (k =? "__proto__") eqn:E; [| reflexivity].
  apply String.eqb_eq in E. subst k. discriminate Hk.
Qed.

Lemma nonempty_length {A : Type} (l : list A) :
  l <> [] -> (0 <? List.length l)%nat = true.
Proof. destruct l; [contradiction | reflexivity]. Qed.

(** What the object branch does for two objects none of whose keys names
    a property of [Object.prototype]: unequal key sets give exactly one
    difference, the summary of both key lists, and no recursion. *)
Lemma object_key_mismatch (expected actual : list (string * value))
    (p : list string) (d : list ValueDifference) :
  Forall (fun k => mem k Object_prototype_names = false) (map fst expected) ->
  Forall (fun k => mem k Object_prototype_names = false) (map fst actual) ->
  let expectedKeys := map fst expected in
  let actualKeys := map fst actual in
  let missingKeys := filter (fun k => negb (mem k actualKeys)) expectedKeys in
  let extraKeys := filter (fun k => negb (mem k expectedKeys)) actualKeys in
  missingKeys <> [] \/ extraKeys <> [] ->
  deepCompare (VObj expected) (VObj actual) p d
  = (false,
     d ++ [difference_at p
             (VStr ("Object(" ++ join ", " expectedKeys ++ ")"))
             (VStr ("Object(" ++ join ", " actualKeys ++ ")"))
             (Number_of_nat (List.length expectedKeys - List.length missingKeys)
              / Number_of_nat (Nat.max (List.length expectedKeys)
                                       (List.length actualKeys)))%float]).
Proof.
  intros He Ha expectedKeys actualKeys missingKeys extraKeys H.
  rewrite deepCompare_unfold.
  cbn [strict_eq truthy typeof type_tag_eqb negb orb Array_isArray andb Object_keys].
  fold expectedKeys actualKeys.
  assert (Hm : filter (fun key => negb (has_property key (VObj actual))) expectedKeys
               = missingKeys).
  { apply filter_ext_in. intros k Hk. f_equal. apply has_property_own.
    rewrite Forall_forall in He. now apply He. }
  assert (Hx : filter (fun key => negb (has_property key (VObj expected))) actualKeys
               = extraKeys).
  { apply filter_ext_in. intros k Hk. f_equal. apply has_property_own.
    rewrite Forall_forall in Ha. now apply Ha. }
  rewrite Hm, Hx.
  assert (Hc : (0 <? List.length missingKeys)%nat || (0 <? List.length extraKeys)%nat = true).
  { apply orb_true_iff. destruct H as [H | H]; [left | right]; now apply nonempty_length. }
  rewrite Hc. reflexivity.
Qed.

(** The object example of the specification: [{a:1, b:2}] against
    [{a:1, c:2}]. *)
Example object_key_mismatch_example :
  deepCompare (VObj [("a", VNum 1); ("b", VNum 2)]) (VObj [("a", VNum 1); ("c", VNum 2)]) [] []
  = (false, [difference_at [] (VStr "Object(a, b)") (VStr "Object(a, c)") 0.5%float]).
Proof.
  rewrite object_key_mismatch.
  - vm_compute. reflexivity.
  - repeat constructor.
  - repeat constructor.
  - left. discriminate.
Qed.

(** C6, the code at an object whose only key names a built-in method:
    [{"toString": 1}] against [{}].  The key sets differ, but
    ['toString' in {}] is true, so no key counts as missing; the comparator
    goes on into the key and records the mismatch between 1 and the
    inherited function, not the key-list summary.  With [{"__proto__": []}]
    against [{}] the comparison even matches. *)
Theorem C6_inherited_key_is_not_missing :
  Object_keys (VObj [("toString", VNum 1)]) = ["toString"]
  /\ Object_keys (VObj []) = []
  /\ has_property "toString" (VObj []) = true
  /\ deepCompare (VObj [("toString", VNum 1)]) (VObj []) [] []
     = (false, [difference_at ["toString"] (VNum 1)
                  (VFunction ObjectPrototype "toString") 0%float])
  /\ deepCompare (VObj [("__proto__", VArr [])]) (VObj []) [] [] = (true, []).
Proof.
  repeat split; vm_compute; reflexivity.
Qed.

(** ** Per-field success rates *)

Lemma Record_get_Map_update (g f : string) (b : bool) (fc : list (string * (nat * nat))) :
  Record_get g (Map_update f b fc)
  = if g =? f
    then Some (fst (get_counts f fc) + (if b then 1 else 0), snd (get_counts f fc) + 1)
    else Record_get g fc.
Proof.
  unfold get_counts.
  induction fc as [| [k [s t]] fc IH]; simpl.
  - destruct (g =? f); reflexivity.
  - destruct (f =? k) eqn:Efk; simpl.
    + apply String.eqb_eq in Efk. subst k.
      destruct (g =? f); reflexivity.
    + destruct (g =? k) eqn:Egk.
      * apply String.eqb_eq in Egk. subst k.
        rewrite String.eqb_sym in Efk. now rewrite Efk.
      * exact IH.
Qed.

Lemma list_sum_cons (x : nat) (l : list nat) : list_sum (x :: l) = x + list_sum l.
Proof. reflexivity. Qed.

(** What the inner [forEach] adds to the counters of [g]. *)
Lemma get_counts_fields (g : string) (b : bool) (fields : list string) :
  forall fc,
    get_counts g (fold_left (fun fc f => Map_update f b fc) fields fc)
    = (fst (get_counts g fc) + (if b then count_occ string_dec fields g else 0),
       snd (get_counts g fc) + count_occ string_dec fields g).
Proof.
  induction fields as [| f fields IH]; intros fc.
  - simpl. destruct (get_counts g fc). simpl. f_equal; destruct b; lia.
  - cbn [fold_left]. rewrite IH. unfold get_counts at 1 2.
    rewrite Record_get_Map_update. cbn [count_occ].
    destruct (string_dec f g) as [-> | Hne].
    + rewrite String.eqb_refl. simpl. f_equal; destruct b; lia.
    + apply not_eq_sym in Hne. apply String.eqb_neq in Hne. rewrite Hne.
      reflexivity.
Qed.

Lemma counted_Map_update (f : string) (b : bool) (fc : list (string * (nat * nat))) :
  counted fc -> counted (Map_update f b fc).
Proof.
  intros H g c. rewrite Record_get_Map_update.
  destruct (g =? f).
  - intros [= <-]. simpl. lia.
  - apply H.
Qed.

Lemma counted_fields (b : bool) (fields : list string) :
  forall fc, counted fc -> counted (fold_left (fun fc f => Map_update f b fc) fields fc).
Proof.
  induction fields as [| f fields IH]; intros fc H; [exact H |].
  cbn [fold_left]. apply IH. now apply counted_Map_update.
Qed.

Lemma countFields_fold (results : list TestResult.t) (g : string) :
  forall fc,
    counted fc ->
    let fc' :=
      fold_left
        (fun fieldCounts result =>
           match TestResult.matchedFields result with
           | Some fields =>
               fold_left (fun fieldCounts field =>
                            Map_update field (TestResult.isSuccess result) fieldCounts)
                         fields fieldCounts
           | None => fieldCounts
           end) results fc in
    counted fc' /\
    get_counts g fc'
    = (fst (get_counts g fc)
       + list_sum (map (fun r => if TestResult.isSuccess r then occurrences g r else 0) results),
       snd (get_counts g fc) + list_sum (map (occurrences g) results)).
Proof.
  induction results as [| r results IH]; intros fc H.
  - simpl. split; [exact H |]. destruct (get_counts g fc). simpl. f_equal; lia.
  - cbn [fold_left map]. rewrite !list_sum_cons. cbv zeta in IH |- *.
    destruct (TestResult.matchedFields r) as [fields |] eqn:E.
    + destruct (IH _ (counted_fields (TestResult.isSuccess r) fields fc H)) as [H1 H2].
      split; [exact H1 |]. rewrite H2, get_counts_fields.
      assert (Ho : occurrences g r = count_occ string_dec fields g)
        by (unfold occurrences; now rewrite E).
      rewrite Ho. cbn [fst snd].
      destruct (TestResult.isSuccess r); f_equal; lia.
    + destruct (IH _ H) as [H1 H2]. split; [exact H1 |]. rewrite H2.
      assert (Ho : occurrences g r = 0) by (unfold occurrences; now rewrite E).
      rewrite Ho.
      destruct (TestResult.isSuccess r); f_equal; lia.
Qed.

Lemma Record_get_map_rate (g : string) (fc : list (string * (nat * nat))) :
  Record_get g
    (map (fun entry : string * (nat * nat) =>
            let '(field, (success, total)) := entry in
            (field, (Number_of_nat success / Number_of_nat total)%float)) fc)
  = match Record_get g fc with
    | Some c => Some (Number_of_nat (fst c) / Number_of_nat (snd c))%float
    | None => None
    end.
Proof.
  induction fc as [| [k [s t]] fc IH]; simpl; [reflexivity |].
  destruct (g =? k); [reflexivity | exact IH].
Qed.

(** With duplicate-free [matchedFields], occurrences count cases. *)
Lemma occurrences_NoDup (g : string) (r : TestResult.t) :
  (forall fields, TestResult.matchedFields r = Some fields -> NoDup fields) ->
  occurrences g r = if listsField g r then 1 else 0.
Proof.
  unfold occurrences, listsField. intros H.
  destruct (TestResult.matchedFields r) as [fields |]; [| reflexivity].
  specialize (H fields eq_refl).
  destruct (mem g fields) eqn:E.
  - apply NoDup_count_occ'; [exact H |].
    unfold mem in E. apply existsb_exists in E. destruct E as [x [Hin Hx]].
    apply String.eqb_eq in Hx. now subst.
  - apply count_occ_not_In. intros Hin.
    assert (mem g fields = true); [| congruence].
    unfold mem. apply existsb_exists. exists g. split; [exact Hin | apply String.eqb_refl].
Qed.

Lemma list_sum_indicator {A : Type} (f : A -> bool) (l : list A) :
  list_sum (map (fun x => if f x then 1 else 0) l) = List.length (filter f l).
Proof.
  induction l as [| x l IH]; simpl; [reflexivity |].
  destruct (f x); simpl; lia.
Qed.

(** [matchedFields] of an evaluated case lists no field twice. *)
Lemma NoDup_Set_of (keys : list string) : NoDup (Set_of keys).
Proof.
  induction keys as [| k keys IH]; cbn [Set_of]; constructor.
  - intros Hin. apply filter_In in Hin. destruct Hin as [_ Hk].
    rewrite String.eqb_refl in Hk. discriminate.
  - now apply NoDup_filter.
Qed.

Lemma evaluateTestCase_matchedFields_NoDup
    (JSON_parse : string -> completion value) (expected actual : value)
    (timeElapsed cost : float) (input : string) (r : TestResult.t)
    (fields : list string) :
  evaluateTestCase JSON_parse expected actual timeElapsed cost input = Normal r ->
  TestResult.matchedFields r = Some fields ->
  NoDup fields.
Proof.
  unfold evaluateTestCase, compareResponses, try_catch, bind.
  destruct (parse_if_string JSON_parse expected) as [e | err].
  - destruct (parse_if_string JSON_parse actual) as [a | err].
    + destruct (deepCompare e a [] []) as [isMatch differences].
      intros [= <-]. cbn. intros [= <-]. apply NoDup_filter, NoDup_Set_of.
    + intros [= <-]. cbn. discriminate.
  - intros [= <-]. cbn. discriminate.
Qed.

(** C8: when every case lists a field at most once in [matchedFields] (they
    are sets), the rate of a field is its number of listing cases that
    succeeded over its number of listing cases; a field that no case lists
    has no entry.  Two cases listing "amount", one a success and one a
    failure, give the rate 0.5. *)
Theorem C8_field_success_rates :
  (forall (results : list TestResult.t) (field : string),
     (forall r fields, In r results -> TestResult.matchedFields r = Some fields ->
                       NoDup fields) ->
     let total := List.length (filter (listsField field) results) in
     let success :=
       List.length (filter (fun r => listsField field r && TestResult.isSuccess r) results) in
     Record_get field (MetricsResult.fieldSuccessRates (calculateMetrics results))
     = if (total =? 0)%nat then None
       else Some (Number_of_nat success / Number_of_nat total)%float)
  /\ (let results := [finishedResult true 10 1 ["amount"; "date"];
                      finishedResult false 12 1 ["amount"]] in
      MetricsResult.fieldSuccessRates (calculateMetrics results)
      = [("amount", 0.5%float); ("date", 1%float)]
      /\ Record_get "total" (MetricsResult.fieldSuccessRates (calculateMetrics results))
         = None).
Proof.
  split; [| split; vm_compute; reflexivity].
  intros results field Hnodup. cbv zeta.
  change (MetricsResult.fieldSuccessRates (calculateMetrics results))
    with (map (fun entry : string * (nat * nat) =>
                 let '(field, (success, total)) := entry in
                 (field, (Number_of_nat success / Number_of_nat total)%float))
              (countFields results)).
  rewrite Record_get_map_rate.
  assert (Hc0 : counted []) by (intros g c; discriminate).
  destruct (countFields_fold results field [] Hc0) as [Hc Hg].
  fold (countFields results) in Hc, Hg.
  assert (Hocc : forall l : list TestResult.t,
             (forall r, In r l -> In r results) ->
             list_sum (map (occurrences field) l)
             = List.length (filter (listsField field) l)
             /\ list_sum (map (fun r => if TestResult.isSuccess r then occurrences field r else 0) l)
                = List.length (filter (fun r => listsField field r && TestResult.isSuccess r) l)).
  { induction l as [| r l IH]; intros Hl; [split; reflexivity |].
    destruct IH as [IH1 IH2]; [intros; apply Hl; now right |].
    cbn [map filter]. rewrite !list_sum_cons.
    rewrite (occurrences_NoDup field r)
      by (intros fields; apply Hnodup; apply Hl; now left).
    rewrite IH1, IH2.
    destruct (listsField field r), (TestResult.isSuccess r); simpl; split; lia. }
  destruct (Hocc results (fun r H => H)) as [Ht Hs].
  rewrite Ht, Hs in Hg. clear Hocc Ht Hs.
  unfold get_counts in Hg. cbn [Record_get fst snd] in Hg. simpl in Hg.
  destruct (Record_get field (countFields results)) as [c |] eqn:E.
  - pose proof (Hc field c E) as Hpos. subst c. cbn [fst snd] in *.
    destruct (Nat.eqb_spec (List.length (filter (listsField field) results)) 0); [lia |].
    reflexivity.
  - injection Hg as _ Hg. rewrite <- Hg. reflexivity.
Qed.

(** C8 on three cases, two of which list "id". *)
Lemma C8_witness :
  Record_get "id"
    (MetricsResult.fieldSuccessRates
       (calculateMetrics [finishedResult true 1 0 ["id"]; unfinishedResult "q" VNull;
                          finishedResult true 1 0 ["id"; "name"]]))
  = Some 1%float.
Proof.
  rewrite (proj1 C8_field_success_rates).
  - vm_compute. reflexivity.
  - intros r fields [<- | [<- | [<- | []]]] [= <-]; repeat constructor; simpl; intuition discriminate.
Defined.

(** ** Similarities lie in the unit interval *)

Lemma in_unit_0 : in_unit 0.
Proof. split; vm_compute; reflexivity. Qed.

Lemma Forall_push (d : list ValueDifference) (p : list string) (e a : value) (s : float) :
  Forall similarity_in_unit d -> in_unit s ->
  Forall similarity_in_unit (d ++ [difference_at p e a s]).
Proof.
  intros Hd Hs. apply Forall_app. split; [exact Hd |].
  constructor; [exact Hs | constructor].
Qed.

Lemma every_preserves {A : Type}
    (callback : A -> nat -> list ValueDifference -> bool * list ValueDifference)
    (items : list A) :
  Forall (fun item => forall i d, Forall similarity_in_unit d ->
                                  Forall similarity_in_unit (snd (callback item i d)))
         items ->
  forall i d, Forall similarity_in_unit d ->
              Forall similarity_in_unit (snd (every callback items i d)).
Proof.
  induction 1 as [| item items Hitem _ IH]; intros i d Hd; [exact Hd |].
  cbn [every]. specialize (Hitem i d Hd).
  destruct (callback item i d) as [ok d']. cbn [snd] in Hitem.
  destruct ok; [now apply IH | exact Hitem].
Qed.

Lemma calculateStringSimilarity_in_unit (e a : string) :
  e <> "" -> in_unit (calculateStringSimilarity e a).
Proof.
  intros He. unfold calculateStringSimilarity.
  apply sub_one_in_unit. apply div_Number_of_nat_in_unit.
  - rewrite distance_levenshtein. apply lev_le_max.
  - destruct e; [contradiction | cbn [String.length]; lia].
Qed.

Lemma array_ratio_in_unit (n m : nat) :
  (n =? m)%nat = false ->
  in_unit (Number_of_nat (Nat.min n m) / Number_of_nat (Nat.max n m))%float.
Proof.
  intros H. apply Nat.eqb_neq in H. apply div_Number_of_nat_in_unit; lia.
Qed.

Lemma object_ratio_in_unit (expectedKeys actualKeys missingKeys extraKeys : list string) :
  (List.length missingKeys <= List.length expectedKeys)%nat ->
  (List.length extraKeys <= List.length actualKeys)%nat ->
  (0 <? List.length missingKeys)%nat || (0 <? List.length extraKeys)%nat = true ->
  in_unit (Number_of_nat (List.length expectedKeys - List.length missingKeys)
           / Number_of_nat (Nat.max (List.length expectedKeys) (List.length actualKeys)))%float.
Proof.
  intros Hm Hx H. apply orb_true_iff in H.
  apply div_Number_of_nat_in_unit; [lia |].
  destruct H as [H | H]; apply Nat.ltb_lt in H; lia.
Qed.

Lemma truthy_both (e a : value) :
  negb (truthy e) || negb (truthy a) = false -> truthy e = true /\ truthy a = true.
Proof. destruct (truthy e), (truthy a); simpl; intros; auto; discriminate. Qed.

Lemma deepCompare_similarity_in_unit (e : value) :
  forall (a : value) (p : list string) (d : list ValueDifference),
    Forall similarity_in_unit d ->
    Forall similarity_in_unit (snd (deepCompare e a p d)).
Proof.
  induction e using value_ind; intros a pth d Hd; rewrite deepCompare_unfold.
  all: destruct (strict_eq _ a) eqn:Eeq; [exact Hd |].
  all: destruct (negb (truthy _) || negb (truthy a)) eqn:Etruthy;
    [apply Forall_push; [exact Hd | exact in_unit_0] |].
  all: destruct (negb (type_tag_eqb (typeof _) (typeof a))) eqn:Etype;
    [apply Forall_push; [exact Hd | exact in_unit_0] |].
  all: cbn [typeof type_tag_eqb].
  all: try (cbn [snd]; apply Forall_push; [exact Hd | exact in_unit_0]).
  - discriminate Etruthy.
  - destruct a; try discriminate Etype. cbn [snd].
    destruct (areNumbersClose x x0) eqn:Eclose; [exact Hd |].
    apply Forall_push; [exact Hd |].
    apply truthy_both in Etruthy. destruct Etruthy as [Te Ta].
    now apply numberSimilarity_in_unit.
  - destruct a; try discriminate Etype. cbn [snd].
    destruct (PrimFloat.ltb (calculateStringSimilarity s s0) 1); [| exact Hd].
    apply Forall_push; [exact Hd |].
    apply calculateStringSimilarity_in_unit. intros ->. discriminate Etruthy.
  - assert (Hevery : forall a' d', Forall similarity_in_unit d' ->
              Forall similarity_in_unit
                (snd (every (fun item index differences =>
                               deepCompare item (get a' (Number_toString index))
                                 (pth ++ [Number_toString index]) differences)
                            items 0 d'))).
    { intros a' d' Hd'. apply every_preserves; [| exact Hd'].
      eapply Forall_impl; [| exact H]. cbv beta. intros item IH i d0 Hd0. now apply IH. }
    destruct (Array_isArray (VArr items) && Array_isArray a).
    + destruct (negb (array_length (VArr items) =? array_length a)%nat) eqn:Elen.
      * apply Forall_push; [exact Hd |]. apply array_ratio_in_unit.
        now apply negb_true_iff in Elen.
      * now apply Hevery.
    + match goal with |- context [if ?c then _ else _] => destruct c eqn:Ekeys end.
      * apply Forall_push; [exact Hd |].
        refine (object_ratio_in_unit _ _ _ _ _ _ Ekeys); apply filter_length_le.
      * now apply Hevery.
  - cbn [Array_isArray andb].
    match goal with |- context [if ?c then _ else _] => destruct c eqn:Ekeys end.
    + apply Forall_push; [exact Hd |].
      refine (object_ratio_in_unit _ _ _ _ _ _ Ekeys); apply filter_length_le.
    + apply every_preserves; [| exact Hd].
      eapply Forall_impl; [| exact H]. cbv beta. intros field IH i d0 Hd0. now apply IH.
  - destruct (Array_isArray (VProto p) && Array_isArray a).
    + destruct (negb (array_length (VProto p) =? array_length a)%nat) eqn:Elen.
      * apply Forall_push; [exact Hd |]. apply array_ratio_in_unit.
        now apply negb_true_iff in Elen.
      * exact Hd.
    + match goal with |- context [if ?c then _ else _] => destruct c eqn:Ekeys end.
      * apply Forall_push; [exact Hd |].
        refine (object_ratio_in_unit _ _ _ _ _ _ Ekeys); apply filter_length_le.
      * exact Hd.
Qed.

(** C9: every difference [deepCompare] produces for a pair of values
    carries a similarity in [[0,1]] (number, string, array-length,
    key-set and fallback branches alike), and so does every difference of a
    comparison result; the parse-error difference carries none. *)
Theorem C9_similarity_in_unit_interval
    (JSON_parse : string -> completion value) (expected actual : value)
    (p : list string) :
  Forall similarity_in_unit (snd (deepCompare expected actual p []))
  /\ exists c, compareResponses JSON_parse expected actual = Normal c
               /\ match ComparisonResult.differences c with
                  | Some differences => Forall similarity_in_unit differences
                  | None => True
                  end.
Proof.
  split; [apply deepCompare_similarity_in_unit; constructor |].
  unfold compareResponses, try_catch, bind.
  destruct (parse_if_string JSON_parse expected) as [e | err].
  - destruct (parse_if_string JSON_parse actual) as [a | err].
    + pose proof (deepCompare_similarity_in_unit e a [] [] (Forall_nil _)) as H.
      destruct (deepCompare e a [] []) as [isMatch differences]. cbn [snd] in H.
      eexists. split; [reflexivity |]. cbn.
      destruct differences; [exact I | exact H].
    + eexists. split; [reflexivity |]. cbn. repeat constructor.
  - eexists. split; [reflexivity |]. cbn. repeat constructor.
Qed.

(** ** The falsy check comes first *)

(** C10: when one side is falsy and the other truthy, [deepCompare] fails
    at once and pushes one difference holding the two values and similarity
    0, whatever the types of the two sides; comparing 0 with 0.05 fails
    although the tolerance of the number branch accepts the pair. *)
Theorem C10_falsy_side_fails :
  (forall (e a : value) (p : list string) (d : list ValueDifference),
     truthy e <> truthy a ->
     deepCompare e a p d
     = (false,
        d ++ [ {| key := if last p "" =? "" then "root" else last p "";
                  expected := e;
                  actual := a;
                  path := Some p;
                  similarity := Some 0%float |} ]))
  /\ areNumbersClose 0 0x1.999999999999ap-5 = true
  /\ deepCompare (VNum 0) (VNum 0x1.999999999999ap-5) [] []
     = (false, [ {| key := "root";
                    expected := VNum 0;
                    actual := VNum 0x1.999999999999ap-5;
                    path := Some [];
                    similarity := Some 0%float |} ]).
Proof.
  split; [| split; vm_compute; reflexivity].
  intros e a p d H. rewrite <- key_of_last.
  change {| key := key_of p; expected := e; actual := a; path := Some p;
            similarity := Some 0%float |}
    with (difference_at p e a 0%float).
  rewrite deepCompare_unfold.
  destruct (strict_eq e a) eqn:E.
  - apply strict_eq_truthy in E. contradiction.
  - destruct (truthy e), (truthy a); try reflexivity; exfalso; now apply H.
Qed.

(** C10 at a concrete pair: the empty string against a non-empty one. *)
Lemma C10_witness :
  deepCompare (VStr "") (VStr "abc") ["name"] []
  = (false, [ {| key := "name";
                 expected := VStr "";
                 actual := VStr "abc";
                 path := Some ["name"];
                 similarity := Some 0%float |} ]).
Proof.
  apply (proj1 C10_falsy_side_fails (VStr "") (VStr "abc") ["name"] []).
  vm_compute. discriminate.
Defined.

(* ================================================================== *)
(** * Further properties of the comparator *)
(* ================================================================== *)

Lemma Number_toString_inj (n m : nat) :
  Number_toString n = Number_toString m -> n = m.
Proof.
  unfold Number_toString. intros H.
  assert (Hnn : forall k, Nat.to_uint k <> Decimal.Nil).
  { intros k. rewrite <- (DecimalNat.Unsigned.of_to k) at 1.
    rewrite DecimalNat.Unsigned.to_of. apply DecimalFacts.unorm_nonnil. }
  apply DecimalNat.Unsigned.to_uint_inj.
  pose proof (NilZero.usu _ (Hnn n)) as Hn.
  pose proof (NilZero.usu _ (Hnn m)) as Hm.
  rewrite H in Hn. congruence.
Qed.

Lemma Number_toString_nonempty (n : nat) : Number_toString n <> "".
Proof.
  unfold Number_toString. intros H.
  assert (Hnn : Nat.to_uint n <> Decimal.Nil).
  { rewrite <- (DecimalNat.Unsigned.of_to n) at 1.
    rewrite DecimalNat.Unsigned.to_of. apply DecimalFacts.unorm_nonnil. }
  pose proof (NilZero.usu _ Hnn) as Hn. rewrite H in Hn. discriminate Hn.
Qed.

(** What [every] does to the shared array when its callback only appends. *)
Lemma every_accumulates {A : Type}
    (callback : A -> nat -> list ValueDifference -> bool * list ValueDifference)
    (items : list A) :
  Forall (fun item => forall i d,
            callback item i d
            = (fst (callback item i []), d ++ snd (callback item i []))) items ->
  forall i d,
    every callback items i d
    = (fst (every callback items i []), d ++ snd (every callback items i [])).
Proof.
  induction 1 as [| item items Hitem _ IH]; intros i d.
  - cbn. now rewrite List.app_nil_r.
  - cbn [every]. rewrite (Hitem i d).
    destruct (callback item i []) as [ok new]. cbn [fst snd].
    destruct ok.
    + rewrite (IH (S i) (d ++ new)), (IH (S i) new). cbn [fst snd].
      now rewrite List.app_assoc.
    + reflexivity.
Qed.

Lemma deepCompare_accumulates (e : value) :
  forall (a : value) (p : list string) (d : list ValueDifference),
    deepCompare e a p d
    = (fst (deepCompare e a p []), d ++ snd (deepCompare e a p [])).
Proof.
  induction e using value_ind; intros a pth d; rewrite !deepCompare_unfold.
  all: destruct (strict_eq _ a) eqn:Eeq; [cbn; now rewrite List.app_nil_r |].
  all: destruct (negb (truthy _) || negb (truthy a)) eqn:Etruthy; [reflexivity |].
  all: destruct (negb (type_tag_eqb (typeof _) (typeof a))) eqn:Etype; [reflexivity |].
  all: cbn [typeof type_tag_eqb].
  all: try reflexivity.
  - discriminate Etruthy.
  - destruct a; try discriminate Etype. cbn [fst snd].
    destruct (areNumbersClose x x0); [now rewrite List.app_nil_r | reflexivity].
  - destruct a; try discriminate Etype. cbn [fst snd].
    destruct (PrimFloat.ltb (calculateStringSimilarity s s0) 1);
      [reflexivity | now rewrite List.app_nil_r].
  - assert (Hevery : forall a' d',
              every (fun item index differences =>
                       deepCompare item (get a' (Number_toString index))
                         (pth ++ [Number_toString index]) differences)
                    items 0 d'
              = (fst (every (fun item index differences =>
                       deepCompare item (get a' (Number_toString index))
                         (pth ++ [Number_toString index]) differences)
                    items 0 []),
                 d' ++ snd (every (fun item index differences =>
                       deepCompare item (get a' (Number_toString index))
                         (pth ++ [Number_toString index]) differences)
                    items 0 []))).
    { intros a' d'. apply every_accumulates.
      eapply Forall_impl; [| exact H]. cbv beta. intros item IH i d0. apply IH. }
    destruct (Array_isArray (VArr items) && Array_isArray a).
    + destruct (negb (array_length (VArr items) =? array_length a)%nat);
        [reflexivity | apply Hevery].
    + match goal with |- context [if ?c then _ else _] => destruct c end;
        [reflexivity | apply Hevery].
  - cbn [Array_isArray andb].
    match goal with |- context [if ?c then _ else _] => destruct c end;
      [reflexivity |].
    apply every_accumulates.
    eapply Forall_impl; [| exact H]. cbv beta. intros field IH i d0. apply IH.
  - destruct (Array_isArray (VProto p) && Array_isArray a).
    + destruct (negb (array_length (VProto p) =? array_length a)%nat);
        [reflexivity | cbn; now rewrite List.app_nil_r].
    + match goal with |- context [if ?c then _ else _] => destruct c end;
        [reflexivity | cbn; now rewrite List.app_nil_r].
Qed.

(** The four ways a call of [deepCompare] ends: without touching the shared
    array, with one record pushed for its own path, or with the result of
    [every] over the elements of an array or the properties of an object. *)
Lemma deepCompare_cases (R : bool * list ValueDifference -> Prop)
    (e a : value) (p : list string) (d : list ValueDifference) :
  (forall b, R (b, d)) ->
  (forall b e' a' s, R (b, d ++ [difference_at p e' a' s])) ->
  (forall items, e = VArr items ->
     R (every (fun item index differences =>
                 deepCompare item (get a (Number_toString index))
                   (p ++ [Number_toString index]) differences)
              items 0 d)) ->
  (forall fields, e = VObj fields ->
     R (every (fun (field : string * value) (_ : nat) differences =>
                 deepCompare (snd field) (get a (fst field))
                   (p ++ [fst field]) differences)
              fields 0 d)) ->
  R (deepCompare e a p d).
Proof.
  intros Hsame Hpush Harr Hobj. rewrite deepCompare_unfold.
  destruct (strict_eq e a); [apply Hsame |].
  destruct (negb (truthy e) || negb (truthy a)); [apply Hpush |].
  destruct (negb (type_tag_eqb (typeof e) (typeof a))); [apply Hpush |].
  destruct (type_tag_eqb (typeof e) TBoolean); [apply Hpush |].
  assert (Hrest :
    R (if Array_isArray e && Array_isArray a then
         if negb (array_length e =? array_length a)%nat then
           (false,
            d ++ [difference_at p
                    (VStr ("Array(" ++ Number_toString (array_length e) ++ ")"))
                    (VStr ("Array(" ++ Number_toString (array_length a) ++ ")"))
                    (Number_of_nat (Nat.min (array_length e) (array_length a))
                     / Number_of_nat (Nat.max (array_length e) (array_length a)))%float])
         else
           match e with
           | VArr items =>
               every (fun item index differences =>
                        deepCompare item (get a (Number_toString index))
                          (p ++ [Number_toString index]) differences)
                     items 0 d
           | _ => (true, d)
           end
       else if type_tag_eqb (typeof e) TObject then
         if (0 <? List.length (filter (fun key => negb (has_property key a)) (Object_keys e)))%nat
            || (0 <? List.length (filter (fun key => negb (has_property key e)) (Object_keys a)))%nat
         then
           (false,
            d ++ [difference_at p
                    (VStr ("Object(" ++ join ", " (Object_keys e) ++ ")"))
                    (VStr ("Object(" ++ join ", " (Object_keys a) ++ ")"))
                    (Number_of_nat (List.length (Object_keys e)
                                    - List.length (filter (fun key => negb (has_property key a))
                                                     (Object_keys e)))
                     / Number_of_nat (Nat.max (List.length (Object_keys e))
                                              (List.length (Object_keys a))))%float])
         else
           match e with
           | VObj fields =>
               every (fun (field : string * value) (_ : nat) differences =>
                        deepCompare (snd field) (get a (fst field))
                          (p ++ [fst field]) differences)
                     fields 0 d
           | VArr items =>
               every (fun item index differences =>
                        deepCompare item (get a (Number_toString index))
                          (p ++ [Number_toString index]) differences)
                     items 0 d
           | _ => (true, d)
           end
       else
         (false, d ++ [difference_at p e a 0%float]))).
  { destruct (Array_isArray e && Array_isArray a).
    - destruct (negb (array_length e =? array_length a)%nat); [apply Hpush |].
      destruct e; try apply Hsame. now apply Harr.
    - destruct (type_tag_eqb (typeof e) TObject).
      + match goal with |- context [if ?c then _ else _] => destruct c end;
          [apply Hpush |].
        destruct e; try apply Hsame; [now apply Harr | now apply Hobj].
      + apply Hpush. }
  destruct e; try exact Hrest; destruct a; try exact Hrest.
  - destruct (areNumbersClose x x0); [apply Hsame | apply Hpush].
  - destruct (PrimFloat.ltb (calculateStringSimilarity s s0) 1);
      [apply Hpush | apply Hsame].
Qed.

(** [every] keeps what holds of the array before the loop and of whatever a
    callback adds. *)
Lemma every_Forall {A : Type} (P : ValueDifference -> Prop)
    (callback : A -> nat -> list ValueDifference -> bool * list ValueDifference)
    (items : list A) :
  Forall (fun item => forall i d, Forall P d -> Forall P (snd (callback item i d)))
         items ->
  forall i d, Forall P d -> Forall P (snd (every callback items i d)).
Proof.
  induction 1 as [| item items Hitem _ IH]; intros i d Hd; [exact Hd |].
  cbn [every]. specialize (Hitem i d Hd).
  destruct (callback item i d) as [ok d']. cbn [snd] in Hitem.
  destruct ok; [now apply IH | exact Hitem].
Qed.

Lemma Forall_snoc {A : Type} (P : A -> Prop) (l : list A) (x : A) :
  Forall P l -> P x -> Forall P (l ++ [x]).
Proof.
  intros Hl Hx. apply Forall_app. split; [exact Hl |]. now constructor.
Qed.

Lemma located_under_up (p : list string) (k : string) (x : ValueDifference) :
  located_under (p ++ [k]) x -> located_under p x.
Proof.
  intros [q [Hp Hk]]. exists (k :: q).
  rewrite <- List.app_assoc in Hp, Hk. now split.
Qed.

Lemma deepCompare_located (e : value) :
  forall (a : value) (p : list string) (d : list ValueDifference),
    Forall (located_under p) d ->
    Forall (located_under p) (snd (deepCompare e a p d)).
Proof.
  induction e using value_ind; intros a pth d Hd.
  all: apply (deepCompare_cases (fun r => Forall (located_under pth) (snd r)));
    [ intros ?; exact Hd
    | intros ? ? ? ?; apply Forall_snoc; [exact Hd |];
      exists []; rewrite List.app_nil_r; split; reflexivity
    | intros items' E
    | intros fields' E ]; try discriminate E.
  - injection E as <-. apply every_Forall; [| exact Hd].
    eapply Forall_impl; [| exact H]. cbv beta. intros item IH i d0 Hd0.
    rewrite deepCompare_accumulates. cbn [snd]. apply Forall_app. split; [exact Hd0 |].
    eapply Forall_impl; [apply located_under_up |].
    apply IH. constructor.
  - injection E as <-. apply every_Forall; [| exact Hd].
    eapply Forall_impl; [| exact H]. cbv beta. intros field IH i d0 Hd0.
    rewrite deepCompare_accumulates. cbn [snd]. apply Forall_app. split; [exact Hd0 |].
    eapply Forall_impl; [apply located_under_up |].
    apply IH. constructor.
Qed.

Lemma find_index_Some (j n i : nat) :
  (i <= j < i + n)%nat -> find_index (Number_toString j) i n = Some j.
Proof.
  revert i. induction n as [| n IH]; intros i Hj; [lia |].
  cbn [find_index]. destruct (Number_toString j =? Number_toString i) eqn:E.
  - apply String.eqb_eq, Number_toString_inj in E. now subst.
  - apply IH. apply String.eqb_neq in E.
    assert (j <> i) by (intros ->; now apply E). lia.
Qed.

(** [actual[index]] for an index below the length. *)
Lemma get_index (items : list value) (j : nat) :
  (j < List.length items)%nat ->
  get (VArr items) (Number_toString j) = nth j items VUndefined.
Proof.
  intros Hj. unfold get, get_property.
  rewrite find_index_Some by lia.
  destruct (nth_error items j) as [x |] eqn:E.
  - symmetry. now apply nth_error_nth.
  - apply nth_error_None in E. lia.
Qed.

Lemma every_ext {A : Type}
    (f g : A -> nat -> list ValueDifference -> bool * list ValueDifference)
    (items : list A) :
  forall i d,
    (forall j item d', nth_error items j = Some item -> f item (i + j) d' = g item (i + j) d') ->
    every f items i d = every g items i d.
Proof.
  induction items as [| item items IH]; intros i d H; [reflexivity |].
  cbn [every]. pose proof (H 0 item d eq_refl) as H0. rewrite Nat.add_0_r in H0.
  rewrite H0. destruct (g item i d) as [ok d']. destruct ok; [| reflexivity].
  apply IH. intros j item' d'' Hj.
  replace (S i + j) with (i + S j) by lia. now apply H.
Qed.

Lemma every_app {A : Type}
    (f : A -> nat -> list ValueDifference -> bool * list ValueDifference)
    (l1 l2 : list A) :
  forall i d,
    every f (l1 ++ l2) i d
    = if fst (every f l1 i d)
      then every f l2 (i + List.length l1) (snd (every f l1 i d))
      else every f l1 i d.
Proof.
  induction l1 as [| x l1 IH]; intros i d.
  - cbn. now rewrite Nat.add_0_r.
  - cbn [app every List.length]. destruct (f x i d) as [ok d']. destruct ok.
    + rewrite IH. now replace (S i + List.length l1) with (i + S (List.length l1)) by lia.
    + reflexivity.
Qed.

(** [every] answers [true] exactly when no callback answers [false]. *)
Lemma every_true_iff {A : Type}
    (f : A -> nat -> list ValueDifference -> bool * list ValueDifference)
    (items : list A) :
  Forall (fun item => forall i d d', fst (f item i d) = fst (f item i d')) items ->
  forall i d,
    fst (every f items i d) = true
    <-> forall j item, nth_error items j = Some item -> fst (f item (i + j) []) = true.
Proof.
  induction 1 as [| x items Hx _ IH]; intros i d.
  - cbn. split; [intros _ [| j] item E; discriminate E | reflexivity].
  - cbn [every]. destruct (f x i d) as [ok d'] eqn:E.
    assert (Hok : fst (f x i []) = ok) by (rewrite (Hx i [] d), E; reflexivity).
    destruct ok.
    + rewrite IH. split.
      * intros H [| j] item Hj.
        -- injection Hj as <-. now rewrite Nat.add_0_r.
        -- replace (i + S j) with (S i + j) by lia. now apply H.
      * intros H j item Hj. replace (S i + j) with (i + S j) by lia. now apply H.
    + cbn [fst]. split; [discriminate |].
      intros H. specialize (H 0 x eq_refl). rewrite Nat.add_0_r in H. congruence.
Qed.

Lemma every_pass {A : Type}
    (f : A -> nat -> list ValueDifference -> bool * list ValueDifference)
    (items : list A) :
  forall i d,
    (forall j item d', nth_error items j = Some item -> f item (i + j) d' = (true, d')) ->
    every f items i d = (true, d).
Proof.
  induction items as [| item items IH]; intros i d H; [reflexivity |].
  cbn [every]. pose proof (H 0 item d eq_refl) as H0. rewrite Nat.add_0_r in H0.
  rewrite H0. apply IH. intros j item' d' Hj.
  replace (S i + j) with (i + S j) by lia. now apply H.
Qed.

(** Two arrays of the same length are compared element by element. *)
Lemma deepCompare_arrays (xs ys : list value) (p : list string)
    (d : list ValueDifference) :
  List.length xs = List.length ys ->
  deepCompare (VArr xs) (VArr ys) p d
  = every (fun x index differences =>
             deepCompare x (nth index ys VUndefined)
               (p ++ [Number_toString index]) differences)
          xs 0 d.
Proof.
  intros Hlen. rewrite deepCompare_unfold.
  cbn [strict_eq truthy negb orb typeof type_tag_eqb Array_isArray andb array_length].
  rewrite Hlen, Nat.eqb_refl. cbn [negb].
  apply every_ext. intros j item d' Hj. cbn [Nat.add].
  rewrite get_index; [reflexivity |].
  rewrite <- Hlen. apply nth_error_Some. congruence.
Qed.

Lemma float_eqb_refl (x : float) :
  PrimFloat.is_nan x = false -> PrimFloat.eqb x x = true.
Proof.
  rewrite is_nan_SF, FloatAxioms.eqb_spec, SFeqb_refl.
  destruct (Prim2SF x); congruence.
Qed.

Lemma mem_In (k : string) (l : list string) : mem k l = true <-> In k l.
Proof.
  unfold mem. rewrite existsb_exists. split.
  - intros [x [Hx E]]. apply String.eqb_eq in E. now subst.
  - intros H. exists k. split; [exact H | apply String.eqb_refl].
Qed.

Lemma mem_false (k : string) (l : list string) : mem k l = false <-> ~ In k l.
Proof.
  rewrite <- mem_In. destruct (mem k l); split; intros; congruence.
Qed.

Lemma lookup_distinct (fields : list (string * value)) (j : nat) (field : string * value) :
  distinct (map fst fields) = true ->
  nth_error fields j = Some field ->
  lookup (fst field) fields = Some (snd field).
Proof.
  revert j. induction fields as [| [k v] fields IH]; intros j Hd Hj.
  - destruct j; discriminate Hj.
  - cbn [map fst distinct] in Hd. apply andb_true_iff in Hd. destruct Hd as [Hk Hd].
    cbn [lookup]. destruct j as [| j].
    + injection Hj as <-. cbn [fst snd]. now rewrite String.eqb_refl.
    + cbn [nth_error] in Hj. destruct (fst field =? k) eqn:E.
      * apply String.eqb_eq in E. subst k.
        apply negb_true_iff in Hk.
        assert (In (fst field) (map fst fields))
          by (apply in_map; eapply nth_error_In; exact Hj).
        apply mem_In in H. congruence.
      * now apply IH with j.
Qed.

Lemma has_property_lookup (k : string) (fields : list (string * value)) :
  In k (map fst fields) -> has_property k (VObj fields) = true.
Proof.
  intros H. apply mem_In in H. rewrite lookup_mem in H.
  unfold has_property, get_property. now destruct (lookup k fields).
Qed.

Lemma filter_nil {A : Type} (f : A -> bool) (l : list A) :
  (forall x, In x l -> f x = false) -> filter f l = [].
Proof.
  induction l as [| x l IH]; intros H; [reflexivity |].
  cbn [filter]. rewrite (H x (or_introl eq_refl)). apply IH.
  intros y Hy. apply H. now right.
Qed.

Lemma deepCompare_same (v : value) :
  well_formed v = true ->
  forall (p : list string) (d : list ValueDifference),
    deepCompare v v p d = (true, d).
Proof.
  induction v using value_ind; intros Hwf pth d.
  all: try (rewrite deepCompare_unfold; cbn [strict_eq]; reflexivity).
  - rewrite deepCompare_unfold. cbn [strict_eq]. now destruct b.
  - rewrite deepCompare_unfold. cbn [strict_eq].
    cbn [well_formed] in Hwf. apply negb_true_iff in Hwf.
    now rewrite float_eqb_refl.
  - rewrite deepCompare_unfold. cbn [strict_eq]. now rewrite String.eqb_refl.
  - rewrite deepCompare_arrays by reflexivity.
    cbn [well_formed] in Hwf. rewrite forallb_forall in Hwf.
    rewrite Forall_forall in H.
    apply every_pass. intros j item d' Hj. cbn [Nat.add].
    rewrite (nth_error_nth _ _ _ Hj).
    apply nth_error_In in Hj. apply H; [exact Hj | now apply Hwf].
  - cbn [well_formed] in Hwf. apply andb_true_iff in Hwf. destruct Hwf as [Hkeys Hwf].
    rewrite forallb_forall in Hwf. rewrite Forall_forall in H.
    rewrite deepCompare_unfold.
    cbn [strict_eq truthy negb orb typeof type_tag_eqb Array_isArray andb Object_keys].
    rewrite filter_nil.
    2:{ intros k Hk. now rewrite has_property_lookup. }
    cbn [List.length Nat.ltb Nat.leb orb].
    apply every_pass. intros j field d' Hj. cbn [Nat.add].
    unfold get, get_property. rewrite (lookup_distinct _ _ _ Hkeys Hj).
    apply nth_error_In in Hj. apply H; [exact Hj | now apply Hwf].
  - rewrite deepCompare_unfold. cbn [strict_eq]. now destruct p.
  - rewrite deepCompare_unfold. cbn [strict_eq]. destruct p; now rewrite String.eqb_refl.
Qed.

(** Two plain objects: one record for unequal key sets, the values key by
    key otherwise. *)
Lemma deepCompare_objects (fs gs : list (string * value)) (p : list string)
    (d : list ValueDifference) :
  deepCompare (VObj fs) (VObj gs) p d
  = if (0 <? List.length (filter (fun key => negb (has_property key (VObj gs))) (map fst fs)))%nat
       || (0 <? List.length (filter (fun key => negb (has_property key (VObj fs))) (map fst gs)))%nat
    then
      (false,
       d ++ [difference_at p
               (VStr ("Object(" ++ join ", " (map fst fs) ++ ")"))
               (VStr ("Object(" ++ join ", " (map fst gs) ++ ")"))
               (Number_of_nat
                  (List.length (map fst fs)
                   - List.length (filter (fun key => negb (has_property key (VObj gs)))
                                    (map fst fs)))
                / Number_of_nat (Nat.max (List.length (map fst fs))
                                         (List.length (map fst gs))))%float])
    else
      every (fun (field : string * value) (_ : nat) differences =>
               deepCompare (snd field) (get (VObj gs) (fst field))
                 (p ++ [fst field]) differences)
            fs 0 d.
Proof. rewrite deepCompare_unfold. reflexivity. Qed.

Lemma no_key_filtered (f : string -> bool) (keys : list string) :
  (0 <? List.length (filter (fun key => negb (f key)) keys))%nat = false
  <-> forall k, In k keys -> f k = true.
Proof.
  induction keys as [| k keys IH]; cbn [filter].
  - split; [intros _ k [] | reflexivity].
  - destruct (f k) eqn:E; cbn [negb].
    + rewrite IH. split.
      * intros H k' [<- | Hin]; [exact E | now apply H].
      * intros H k' Hin. apply H. now right.
    + cbn [List.length Nat.ltb Nat.leb]. split; [discriminate |].
      intros H. specialize (H k (or_introl eq_refl)). congruence.
Qed.

Lemma objects_match_iff (fs gs : list (string * value)) (p : list string)
    (d : list ValueDifference) :
  fst (deepCompare (VObj fs) (VObj gs) p d) = true
  <-> (forall k, In k (map fst fs) -> has_property k (VObj gs) = true)
      /\ (forall k, In k (map fst gs) -> has_property k (VObj fs) = true)
      /\ (forall k v, In (k, v) fs ->
            fst (deepCompare v (get (VObj gs) k) (p ++ [k]) []) = true).
Proof.
  rewrite deepCompare_objects.
  rewrite <- (no_key_filtered (fun k => has_property k (VObj gs))).
  rewrite <- (no_key_filtered (fun k => has_property k (VObj fs))).
  destruct (0 <? List.length (filter (fun key => negb (has_property key (VObj gs))) (map fst fs)))%nat;
    [cbn; split; [discriminate | intros [H _]; discriminate H] |].
  destruct (0 <? List.length (filter (fun key => negb (has_property key (VObj fs))) (map fst gs)))%nat;
    [cbn; split; [discriminate | intros [_ [H _]]; discriminate H] |].
  cbn [orb]. rewrite every_true_iff.
  - split.
    + intros H. split; [reflexivity |]. split; [reflexivity |].
      intros k v Hin. apply In_nth_error in Hin. destruct Hin as [j Hj].
      apply (H j (k, v) Hj).
    + intros [_ [_ H]] j [k v] Hj. apply nth_error_In in Hj. now apply H.
  - apply Forall_forall. intros field _ i d1 d2.
    rewrite (deepCompare_accumulates _ _ _ d1), (deepCompare_accumulates _ _ _ d2).
    reflexivity.
Qed.

Lemma distinct_NoDup (keys : list string) : distinct keys = true <-> NoDup keys.
Proof.
  induction keys as [| k keys IH]; cbn [distinct].
  - split; [constructor | reflexivity].
  - rewrite andb_true_iff, negb_true_iff, mem_false, IH. split.
    + intros [H1 H2]. now constructor.
    + intros H. inversion H. now split.
Qed.

Lemma lookup_In (fields : list (string * value)) (k : string) (v : value) :
  NoDup (map fst fields) -> (lookup k fields = Some v <-> In (k, v) fields).
Proof.
  induction fields as [| [k' v'] fields IH]; intros Hnd.
  - cbn. split; [discriminate | contradiction].
  - cbn [map fst] in Hnd. inversion Hnd as [| ? ? Hnotin Hnd']; subst.
    cbn [lookup In]. destruct (String.eqb_spec k k') as [-> | Hne].
    + split.
      * intros [= ->]. now left.
      * intros [[= ->] | Hin]; [reflexivity |].
        exfalso. apply Hnotin. apply (in_map fst) in Hin. exact Hin.
    + rewrite (IH Hnd'). split; [now right |].
      intros [[= E _] | Hin]; [congruence | exact Hin].
Qed.

Lemma lookup_None (fields : list (string * value)) (k : string) :
  lookup k fields = None <-> ~ In k (map fst fields).
Proof.
  rewrite <- mem_false, lookup_mem. destruct (lookup k fields); split; congruence.
Qed.

Lemma lookup_Permutation (fs fs' : list (string * value)) (k : string) :
  NoDup (map fst fs) -> Permutation fs fs' -> lookup k fs = lookup k fs'.
Proof.
  intros Hnd Hperm.
  assert (Hnd' : NoDup (map fst fs'))
    by (eapply Permutation_NoDup; [apply Permutation_map; exact Hperm | exact Hnd]).
  destruct (lookup k fs) as [v |] eqn:E.
  - symmetry. apply lookup_In; [exact Hnd' |].
    eapply Permutation_in; [exact Hperm |]. now apply lookup_In.
  - symmetry. apply lookup_None. apply lookup_None in E. intros Hin. apply E.
    eapply Permutation_in; [apply Permutation_map, Permutation_sym; exact Hperm | exact Hin].
Qed.

Lemma has_property_Permutation (fs fs' : list (string * value)) (k : string) :
  Permutation fs fs' -> has_property k (VObj fs) = has_property k (VObj fs').
Proof.
  intros Hperm. unfold has_property, get_property.
  assert (H : match lookup k fs with Some _ => true | None => false end
              = match lookup k fs' with Some _ => true | None => false end).
  { rewrite <- !lookup_mem.
    destruct (mem k (map fst fs)) eqn:E.
    - symmetry. apply mem_In. apply mem_In in E.
      eapply Permutation_in; [apply Permutation_map; exact Hperm | exact E].
    - symmetry. apply mem_false. apply mem_false in E. intros Hin. apply E.
      eapply Permutation_in; [apply Permutation_map, Permutation_sym; exact Hperm | exact Hin]. }
  destruct (lookup k fs), (lookup k fs'); try reflexivity; discriminate H.
Qed.

Lemma objects_verdict_Permutation (fs fs' gs gs' : list (string * value))
    (p : list string) (d : list ValueDifference) :
  NoDup (map fst gs) -> Permutation fs fs' -> Permutation gs gs' ->
  fst (deepCompare (VObj fs) (VObj gs) p d) = fst (deepCompare (VObj fs') (VObj gs') p d).
Proof.
  intros Hnd Hf Hg.
  assert (Hiff : fst (deepCompare (VObj fs) (VObj gs) p d) = true
                 <-> fst (deepCompare (VObj fs') (VObj gs') p d) = true).
  { rewrite !objects_match_iff.
    assert (Hget : forall k, get (VObj gs) k = get (VObj gs') k).
    { intros k. unfold get, get_property. now rewrite (lookup_Permutation gs gs' k Hnd Hg). }
    split; intros (H1 & H2 & H3); repeat split.
    - intros k Hk. rewrite <- (has_property_Permutation gs gs' k Hg). apply H1.
      eapply Permutation_in; [apply Permutation_map, Permutation_sym; exact Hf | exact Hk].
    - intros k Hk. rewrite <- (has_property_Permutation fs fs' k Hf). apply H2.
      eapply Permutation_in; [apply Permutation_map, Permutation_sym; exact Hg | exact Hk].
    - intros k v Hin. rewrite <- Hget. apply H3.
      eapply Permutation_in; [apply Permutation_sym; exact Hf | exact Hin].
    - intros k Hk. rewrite (has_property_Permutation gs gs' k Hg). apply H1.
      eapply Permutation_in; [apply Permutation_map; exact Hf | exact Hk].
    - intros k Hk. rewrite (has_property_Permutation fs fs' k Hf). apply H2.
      eapply Permutation_in; [apply Permutation_map; exact Hg | exact Hk].
    - intros k v Hin. rewrite Hget. apply H3.
      eapply Permutation_in; [exact Hf | exact Hin]. }
  destruct (fst (deepCompare (VObj fs) (VObj gs) p d)),
           (fst (deepCompare (VObj fs') (VObj gs') p d)); try reflexivity.
  - symmetry. now apply Hiff.
  - now apply Hiff.
Qed.

Lemma key_of_nonempty (p : list string) : key_of p <> "".
Proof.
  unfold key_of. destruct p as [| k p]; [discriminate |].
  destruct (last (k :: p) "" =? "") eqn:E; [discriminate |].
  now apply String.eqb_neq in E.
Qed.

Lemma every_stops {A : Type}
    (f : A -> nat -> list ValueDifference -> bool * list ValueDifference)
    (l1 l2 : list A) (x : A) (i : nat) (d : list ValueDifference) :
  (forall d', fst (f x (i + List.length l1) d') = false) ->
  every f (l1 ++ x :: l2) i d = every f (l1 ++ [x]) i d.
Proof.
  intros H. rewrite !every_app.
  destruct (fst (every f l1 i d)); [| reflexivity].
  cbn [every]. specialize (H (snd (every f l1 i d))).
  destruct (f x (i + List.length l1) (snd (every f l1 i d))) as [ok d'].
  cbn [fst] in H. now subst ok.
Qed.

(** X1: a well-formed tree (no [NaN], each key once per object) compared
    with a copy of itself matches, and the call leaves the differences
    array as it found it, whatever the path. *)
Theorem identical_trees_match (v : value) (p : list string)
    (d : list ValueDifference) :
  well_formed v = true -> deepCompare v v p d = (true, d).
Proof. intros H. now apply deepCompare_same. Qed.

Lemma identical_trees_match_witness :
  deepCompare
    (VObj [("name", VStr "Ada"); ("tags", VArr [VNum 1; VNull; VBool true]);
           ("nested", VObj [("deep", VArr [])])])
    (VObj [("name", VStr "Ada"); ("tags", VArr [VNum 1; VNull; VBool true]);
           ("nested", VObj [("deep", VArr [])])])
    ["reply"] []
  = (true, []).
Proof. apply identical_trees_match. reflexivity. Defined.

(** X2: [deepCompare] only appends to the shared differences array: the
    verdict does not depend on what the array already holds, and the array
    after the call is the array before it followed by the records the same
    call pushes onto an empty array. *)
Theorem deepCompare_only_appends (e a : value) (p : list string)
    (d : list ValueDifference) :
  deepCompare e a p d
  = (fst (deepCompare e a p []), d ++ snd (deepCompare e a p [])).
Proof. apply deepCompare_accumulates. Qed.

(** X3: every record a call of [deepCompare] at path [p] pushes has a
    [path] that starts with [p], and its [key] is the last segment of that
    path, with ['root'] in place of a missing or empty segment; so no record
    has an empty key. *)
Theorem differences_lie_under_the_path (e a : value) (p : list string) :
  Forall (fun x => located_under p x /\ key x <> "")
         (snd (deepCompare e a p [])).
Proof.
  eapply Forall_impl; [| apply deepCompare_located; constructor].
  intros x H. split; [exact H |].
  destruct H as [q [_ ->]]. apply key_of_nonempty.
Qed.

(** X4: two arrays of the same length match exactly when every element of
    the expected array matches the element of the actual array at the same
    index, compared at the path extended by the index. *)
Theorem arrays_match_elementwise (xs ys : list value) (p : list string)
    (d : list ValueDifference) :
  List.length xs = List.length ys ->
  (fst (deepCompare (VArr xs) (VArr ys) p d) = true
   <-> forall i x y, nth_error xs i = Some x -> nth_error ys i = Some y ->
         fst (deepCompare x y (p ++ [Number_toString i]) []) = true).
Proof.
  intros Hlen. rewrite deepCompare_arrays by exact Hlen. rewrite every_true_iff.
  - cbn [Nat.add]. split.
    + intros H i x y Hx Hy. rewrite <- (nth_error_nth _ _ VUndefined Hy). now apply H.
    + intros H j x Hx.
      destruct (nth_error ys j) as [y |] eqn:Hy.
      * rewrite (nth_error_nth _ _ VUndefined Hy). now apply H with (i := j).
      * apply nth_error_None in Hy.
        assert (j < List.length xs)%nat by (apply nth_error_Some; congruence). lia.
  - apply Forall_forall. intros x _ i d1 d2.
    rewrite (deepCompare_accumulates _ _ _ d1), (deepCompare_accumulates _ _ _ d2).
    reflexivity.
Qed.

Lemma arrays_match_elementwise_witness :
  fst (deepCompare (VArr [VNum 1; VStr "kitten"]) (VArr [VNum 1; VStr "sitting"]) ["a"] []) = true
  <-> forall i x y,
        nth_error [VNum 1; VStr "kitten"] i = Some x ->
        nth_error [VNum 1; VStr "sitting"] i = Some y ->
        fst (deepCompare x y (["a"] ++ [Number_toString i]) []) = true.
Proof. apply arrays_match_elementwise. reflexivity. Defined.

(** X5: the comparison of two arrays stops at the first element that
    fails: the elements after it are not compared, so neither the verdict
    nor the recorded differences depend on them. *)
Theorem array_comparison_stops_at_first_failure
    (xs1 xs2 xs2' ys1 ys2 ys2' : list value) (x y : value) (p : list string)
    (d : list ValueDifference) :
  List.length xs1 = List.length ys1 ->
  List.length xs2 = List.length ys2 ->
  List.length xs2' = List.length ys2' ->
  fst (deepCompare x y (p ++ [Number_toString (List.length xs1)]) []) = false ->
  deepCompare (VArr (xs1 ++ x :: xs2)) (VArr (ys1 ++ y :: ys2)) p d
  = deepCompare (VArr (xs1 ++ x :: xs2')) (VArr (ys1 ++ y :: ys2')) p d.
Proof.
  intros H1 H2 H2' Hfail.
  rewrite !deepCompare_arrays by (rewrite !length_app; cbn [List.length]; lia).
  assert (Hstop : forall tail d',
            fst (deepCompare x (nth (0 + List.length xs1) (ys1 ++ y :: tail) VUndefined)
                   (p ++ [Number_toString (0 + List.length xs1)]) d') = false).
  { intros tail d'. cbn [Nat.add]. rewrite H1, nth_middle, <- H1.
    rewrite deepCompare_accumulates. exact Hfail. }
  rewrite (every_stops _ xs1 xs2 x 0 d (Hstop ys2)).
  rewrite (every_stops _ xs1 xs2' x 0 d (Hstop ys2')).
  apply every_ext. intros j item d' Hj. cbn [Nat.add].
  assert (Hlt : (j < List.length (xs1 ++ [x]))%nat) by (apply nth_error_Some; congruence).
  rewrite length_app in Hlt. cbn [List.length] in Hlt.
  replace (nth j (ys1 ++ y :: ys2) VUndefined) with (nth j (ys1 ++ y :: ys2') VUndefined);
    [reflexivity |].
  destruct (Nat.eq_dec j (List.length ys1)) as [-> | Hne].
  - now rewrite !nth_middle.
  - rewrite !app_nth1 by lia. reflexivity.
Qed.

Lemma array_comparison_stops_at_first_failure_witness :
  deepCompare (VArr [VNum 1; VBool true; VStr "x"; VNum 5])
              (VArr [VNum 1; VBool false; VStr "y"; VNum 7]) [] []
  = deepCompare (VArr [VNum 1; VBool true]) (VArr [VNum 1; VBool false]) [] [].
Proof.
  apply (array_comparison_stops_at_first_failure
           [VNum 1] [VStr "x"; VNum 5] [] [VNum 1] [VStr "y"; VNum 7] []
           (VBool true) (VBool false) [] []); reflexivity.
Defined.

(** X6: two plain objects match exactly when every own key of each is a
    property of the other (as [in] decides it) and, for every property of
    the expected object, its value matches the value read under the same key
    from the actual object, compared at the path extended by the key. *)
Theorem objects_match_keywise (fs gs : list (string * value)) (p : list string)
    (d : list ValueDifference) :
  fst (deepCompare (VObj fs) (VObj gs) p d) = true
  <-> (forall k, In k (map fst fs) -> has_property k (VObj gs) = true)
      /\ (forall k, In k (map fst gs) -> has_property k (VObj fs) = true)
      /\ (forall k v, In (k, v) fs ->
            fst (deepCompare v (get (VObj gs) k) (p ++ [k]) []) = true).
Proof. apply objects_match_iff. Qed.

(** X7: the verdict on two plain objects does not depend on the order in
    which either object lists its properties (each key held once). *)
Theorem object_verdict_ignores_key_order (fs fs' gs gs' : list (string * value))
    (p : list string) (d : list ValueDifference) :
  distinct (map fst gs) = true ->
  Permutation fs fs' -> Permutation gs gs' ->
  fst (deepCompare (VObj fs) (VObj gs) p d)
  = fst (deepCompare (VObj fs') (VObj gs') p d).
Proof.
  intros Hd. apply objects_verdict_Permutation. now apply distinct_NoDup.
Qed.

Lemma object_verdict_ignores_key_order_witness :
  fst (deepCompare (VObj [("a", VNum 1); ("b", VStr "x")])
                   (VObj [("a", VNum 1); ("b", VStr "y")]) [] [])
  = fst (deepCompare (VObj [("b", VStr "x"); ("a", VNum 1)])
                     (VObj [("b", VStr "y"); ("a", VNum 1)]) [] []).
Proof.
  apply object_verdict_ignores_key_order;
    [reflexivity | apply perm_swap | apply perm_swap].
Defined.

(** ** Keys and field lists *)

Lemma string_app_assoc (a b c : string) : ((a ++ b) ++ c = a ++ b ++ c)%string.
Proof. induction a as [| x a IH]; [reflexivity |]. cbn. now rewrite IH. Qed.

Lemma string_app_nonempty (a b : string) : b <> "" -> (a ++ b)%string <> "".
Proof. destruct a; [now cbn | discriminate]. Qed.

Lemma currentKey_prefixed (prefix k : string) :
  prefix <> "" -> currentKey prefix k = (prefix ++ "." ++ k)%string.
Proof.
  intros H. unfold currentKey. apply String.eqb_neq in H. now rewrite H.
Qed.

Lemma currentKey_root (k : string) : currentKey "" k = k.
Proof. reflexivity. Qed.

Lemma flat_map_indexed_ext {A B : Type} (f g : nat -> A -> list B) (l : list A) :
  Forall (fun x => forall i, f i x = g i x) l ->
  forall i, flat_map_indexed f l i = flat_map_indexed g l i.
Proof.
  induction 1 as [| x l Hx _ IH]; intros i; [reflexivity |].
  cbn [flat_map_indexed]. now rewrite Hx, IH.
Qed.

Lemma map_flat_map_indexed {A B C : Type} (h : B -> C) (f : nat -> A -> list B)
    (l : list A) (i : nat) :
  map h (flat_map_indexed f l i) = flat_map_indexed (fun i x => map h (f i x)) l i.
Proof.
  revert i. induction l as [| x l IH]; intros i; [reflexivity |].
  cbn [flat_map_indexed]. now rewrite map_app, IH.
Qed.

Lemma map_flat_map {A B C : Type} (h : B -> C) (f : A -> list B) (l : list A) :
  map h (flat_map f l) = flat_map (fun x => map h (f x)) l.
Proof.
  induction l as [| x l IH]; [reflexivity |].
  cbn [flat_map]. now rewrite map_app, IH.
Qed.

Lemma flat_map_ext_Forall {A B : Type} (f g : A -> list B) (l : list A) :
  Forall (fun x => f x = g x) l -> flat_map f l = flat_map g l.
Proof.
  induction 1 as [| x l Hx _ IH]; [reflexivity |].
  cbn [flat_map]. now rewrite Hx, IH.
Qed.

Lemma getAllKeys_VArr (items : list value) (prefix : string) :
  getAllKeys (VArr items) prefix
  = flat_map_indexed (fun index item =>
                        let k := currentKey prefix (Number_toString index) in
                        if is_plain_object item then k :: getAllKeys item k else [k])
                     items 0.
Proof. reflexivity. Qed.

Lemma getAllKeys_VObj (fields : list (string * value)) (prefix : string) :
  getAllKeys (VObj fields) prefix
  = flat_map (fun field : string * value =>
                let k := currentKey prefix (fst field) in
                if is_plain_object (snd field) then k :: getAllKeys (snd field) k else [k])
             fields.
Proof. reflexivity. Qed.

Lemma getAllKeys_not_object (v : value) (prefix : string) :
  type_tag_eqb (typeof v) TObject = false -> getAllKeys v prefix = [].
Proof.
  destruct v; cbn [typeof type_tag_eqb]; intros H; try discriminate H;
    cbn [getAllKeys typeof type_tag_eqb negb]; now rewrite ?orb_true_r.
Qed.

Lemma getAllKeys_under_prefix (obj : value) :
  keys_nonempty obj = true ->
  forall prefix, prefix <> "" ->
    getAllKeys obj prefix
    = map (fun k => (prefix ++ "." ++ k)%string) (getAllKeys obj "").
Proof.
  induction obj using value_ind; intros Hne prefix Hp; try reflexivity;
    try (now rewrite !getAllKeys_not_object).
  - (* arrays *)
    rewrite !getAllKeys_VArr. cbv zeta.
    rewrite map_flat_map_indexed. apply flat_map_indexed_ext.
    cbn [keys_nonempty] in Hne. rewrite forallb_forall in Hne.
    rewrite Forall_forall in H |- *. intros item Hin i.
    rewrite currentKey_prefixed by exact Hp. rewrite currentKey_root.
    destruct (is_plain_object item); [| reflexivity].
    cbn [map]. f_equal.
    rewrite (H item Hin (Hne item Hin) (prefix ++ "." ++ Number_toString i)%string)
      by (apply string_app_nonempty; discriminate).
    rewrite (H item Hin (Hne item Hin) (Number_toString i))
      by apply Number_toString_nonempty.
    rewrite map_map. apply map_ext. intros k.
    now rewrite !string_app_assoc.
  - (* objects *)
    rewrite !getAllKeys_VObj. cbv zeta.
    rewrite map_flat_map. apply flat_map_ext_Forall.
    cbn [keys_nonempty] in Hne. rewrite forallb_forall in Hne.
    rewrite Forall_forall in H |- *. intros field Hin.
    specialize (Hne field Hin). apply andb_true_iff in Hne. destruct Hne as [Hk Hv].
    apply negb_true_iff, String.eqb_neq in Hk.
    rewrite currentKey_prefixed by exact Hp. rewrite currentKey_root.
    destruct (is_plain_object (snd field)); [| reflexivity].
    cbn [map]. f_equal.
    rewrite (H field Hin Hv (prefix ++ "." ++ fst field)%string)
      by (apply string_app_nonempty; discriminate).
    rewrite (H field Hin Hv (fst field)) by exact Hk.
    rewrite map_map. apply map_ext. intros k.
    now rewrite !string_app_assoc.
Qed.

(** ** The field lists of a comparison *)

Lemma In_Set_of (k : string) (keys : list string) : In k (Set_of keys) <-> In k keys.
Proof.
  induction keys as [| k' keys IH]; [reflexivity |].
  cbn [Set_of In]. rewrite filter_In, IH.
  destruct (String.eqb_spec k k') as [-> | Hne].
  - split; auto.
  - split.
    + intros [-> | [H _]]; auto.
    + intros [-> | H]; [now left | right]. split; [exact H | reflexivity].
Qed.

Lemma fields_of_nonempty (l : list string) : fields_of (nonempty l) = l.
Proof. now destruct l. Qed.

Lemma filter_all {A : Type} (f : A -> bool) (l : list A) :
  (forall x, In x l -> f x = true) -> filter f l = l.
Proof.
  induction l as [| x l IH]; intros H; [reflexivity |].
  cbn [filter]. rewrite (H x (or_introl eq_refl)). f_equal. apply IH.
  intros y Hy. apply H. now right.
Qed.

Lemma compareResponses_parsed (JSON_parse : string -> completion value)
    (expected actual expectedObj actualObj : value) :
  parse_if_string JSON_parse expected = Normal expectedObj ->
  parse_if_string JSON_parse actual = Normal actualObj ->
  compareResponses JSON_parse expected actual
  = Normal
      {| ComparisonResult.isMatch := fst (deepCompare expectedObj actualObj [] []);
         ComparisonResult.differences :=
           nonempty (snd (deepCompare expectedObj actualObj [] []));
         ComparisonResult.matchedFields :=
           Some (filter (fun key => mem key (Set_of (getAllKeys actualObj "")))
                        (Set_of (getAllKeys expectedObj "")));
         ComparisonResult.missingFields :=
           nonempty (filter (fun key => negb (mem key (Set_of (getAllKeys actualObj ""))))
                            (Set_of (getAllKeys expectedObj "")));
         ComparisonResult.extraFields :=
           nonempty (filter (fun key => negb (mem key (Set_of (getAllKeys expectedObj ""))))
                            (Set_of (getAllKeys actualObj ""))) |}.
Proof.
  intros He Ha. unfold compareResponses, try_catch, bind. rewrite He, Ha.
  now destruct (deepCompare expectedObj actualObj [] []).
Qed.

Lemma In_filter_mem (keys others : list string) (k : string) :
  In k (filter (fun key => mem key (Set_of others)) (Set_of keys))
  <-> In k keys /\ In k others.
Proof. now rewrite filter_In, mem_In, !In_Set_of. Qed.

Lemma In_filter_not_mem (keys others : list string) (k : string) :
  In k (filter (fun key => negb (mem key (Set_of others))) (Set_of keys))
  <-> In k keys /\ ~ In k others.
Proof. now rewrite filter_In, negb_true_iff, mem_false, !In_Set_of. Qed.

(** X8: when no key of the tree is the empty string, the keys listed under
    a non-empty prefix are the keys listed from the root, each with the
    prefix and a dot in front. *)
Theorem getAllKeys_under_a_prefix (obj : value) (prefix : string) :
  keys_nonempty obj = true -> prefix <> "" ->
  getAllKeys obj prefix
  = map (fun k => (prefix ++ "." ++ k)%string) (getAllKeys obj "").
Proof. intros H Hp. now apply getAllKeys_under_prefix. Qed.

Lemma getAllKeys_under_a_prefix_witness :
  getAllKeys (VObj [("user", VObj [("name", VStr "Ada"); ("langs", VArr [VStr "en"])]);
                    ("items", VArr [VObj [("id", VNum 1)]])]) "reply"
  = map (fun k => ("reply" ++ "." ++ k)%string)
        (getAllKeys (VObj [("user", VObj [("name", VStr "Ada"); ("langs", VArr [VStr "en"])]);
                           ("items", VArr [VObj [("id", VNum 1)]])]) "").
Proof. apply getAllKeys_under_a_prefix; [reflexivity | discriminate]. Defined.

(** X9: in the result of [compareResponses] on two responses that parse,
    [matchedFields] are the keys of the expected response that are keys of
    the actual one, [missingFields] the keys of the expected response that
    are not, [extraFields] the keys of the actual response that are not keys
    of the expected one ([undefined] standing for none), and no list names a
    key twice. *)
Theorem field_lists_partition_the_keys
    (JSON_parse : string -> completion value)
    (expected actual expectedObj actualObj : value) :
  parse_if_string JSON_parse expected = Normal expectedObj ->
  parse_if_string JSON_parse actual = Normal actualObj ->
  exists c,
    compareResponses JSON_parse expected actual = Normal c
    /\ (forall k, In k (fields_of (ComparisonResult.matchedFields c))
                  <-> In k (getAllKeys expectedObj "") /\ In k (getAllKeys actualObj ""))
    /\ (forall k, In k (fields_of (ComparisonResult.missingFields c))
                  <-> In k (getAllKeys expectedObj "") /\ ~ In k (getAllKeys actualObj ""))
    /\ (forall k, In k (fields_of (ComparisonResult.extraFields c))
                  <-> In k (getAllKeys actualObj "") /\ ~ In k (getAllKeys expectedObj ""))
    /\ NoDup (fields_of (ComparisonResult.matchedFields c))
    /\ NoDup (fields_of (ComparisonResult.missingFields c))
    /\ NoDup (fields_of (ComparisonResult.extraFields c)).
Proof.
  intros He Ha. eexists. split; [apply (compareResponses_parsed _ _ _ _ _ He Ha) |].
  cbn [ComparisonResult.matchedFields ComparisonResult.missingFields
       ComparisonResult.extraFields fields_of].
  rewrite !fields_of_nonempty.
  split; [intros k; apply In_filter_mem |].
  split; [intros k; apply In_filter_not_mem |].
  split; [intros k; apply In_filter_not_mem |].
  repeat split; apply NoDup_filter, NoDup_Set_of.
Qed.

Lemma field_lists_partition_the_keys_witness :
  exists c,
    compareResponses parse_literal
      (VObj [("a", VNum 1); ("b", VObj [("c", VNull)])])
      (VObj [("a", VNum 1); ("d", VNull)]) = Normal c
    /\ (forall k, In k (fields_of (ComparisonResult.matchedFields c))
                  <-> In k (getAllKeys (VObj [("a", VNum 1); ("b", VObj [("c", VNull)])]) "")
                      /\ In k (getAllKeys (VObj [("a", VNum 1); ("d", VNull)]) ""))
    /\ (forall k, In k (fields_of (ComparisonResult.missingFields c))
                  <-> In k (getAllKeys (VObj [("a", VNum 1); ("b", VObj [("c", VNull)])]) "")
                      /\ ~ In k (getAllKeys (VObj [("a", VNum 1); ("d", VNull)]) ""))
    /\ (forall k, In k (fields_of (ComparisonResult.extraFields c))
                  <-> In k (getAllKeys (VObj [("a", VNum 1); ("d", VNull)]) "")
                      /\ ~ In k (getAllKeys (VObj [("a", VNum 1); ("b", VObj [("c", VNull)])]) ""))
    /\ NoDup (fields_of (ComparisonResult.matchedFields c))
    /\ NoDup (fields_of (ComparisonResult.missingFields c))
    /\ NoDup (fields_of (ComparisonResult.extraFields c)).
Proof. apply field_lists_partition_the_keys; reflexivity. Defined.

(** X10: two responses that parse to the same well-formed tree compare as
    a match without differences: every key of the tree is a matched field,
    and [differences], [missingFields] and [extraFields] are [undefined]. *)
Theorem identical_responses_compare_clean
    (JSON_parse : string -> completion value) (expected actual v : value) :
  parse_if_string JSON_parse expected = Normal v ->
  parse_if_string JSON_parse actual = Normal v ->
  well_formed v = true ->
  compareResponses JSON_parse expected actual
  = Normal {| ComparisonResult.isMatch := true;
              ComparisonResult.differences := None;
              ComparisonResult.matchedFields := Some (Set_of (getAllKeys v ""));
              ComparisonResult.missingFields := None;
              ComparisonResult.extraFields := None |}.
Proof.
  intros He Ha Hwf. rewrite (compareResponses_parsed _ _ _ _ _ He Ha).
  rewrite (deepCompare_same v Hwf). cbn [fst snd nonempty].
  rewrite filter_all by (intros k Hk; now apply mem_In).
  rewrite filter_nil; [reflexivity |].
  intros k Hk. apply negb_false_iff. now apply mem_In.
Qed.

Lemma identical_responses_compare_clean_witness :
  compareResponses parse_literal
    (VObj [("user", VObj [("name", VStr "Ann"); ("tags", VArr [VStr "a"; VNum 1])]);
           ("ok", VBool true)])
    (VObj [("user", VObj [("name", VStr "Ann"); ("tags", VArr [VStr "a"; VNum 1])]);
           ("ok", VBool true)])
  = Normal {| ComparisonResult.isMatch := true;
              ComparisonResult.differences := None;
              ComparisonResult.matchedFields :=
                Some ["user"; "user.name"; "user.tags"; "ok"];
              ComparisonResult.missingFields := None;
              ComparisonResult.extraFields := None |}.
Proof.
  apply (identical_responses_compare_clean parse_literal
           (VObj [("user", VObj [("name", VStr "Ann"); ("tags", VArr [VStr "a"; VNum 1])]);
                  ("ok", VBool true)])
           (VObj [("user", VObj [("name", VStr "Ann"); ("tags", VArr [VStr "a"; VNum 1])]);
                  ("ok", VBool true)])
           (VObj [("user", VObj [("name", VStr "Ann"); ("tags", VArr [VStr "a"; VNum 1])]);
                  ("ok", VBool true)]));
    reflexivity.
Defined.

(** ** The aggregated metrics *)

Lemma Record_get_increment (g k : string) (acc : list (string * nat)) :
  Record_get g (increment k acc)
  = if g =? k then Some (tally k acc + 1) else Record_get g acc.
Proof.
  unfold tally. induction acc as [| [k' n] acc IH]; cbn [increment Record_get].
  - destruct (g =? k); reflexivity.
  - destruct (k =? k') eqn:Ek; cbn [Record_get].
    + apply String.eqb_eq in Ek. subst k'. destruct (g =? k); reflexivity.
    + destruct (g =? k') eqn:Eg.
      * apply String.eqb_eq in Eg. subst k'.
        rewrite String.eqb_sym in Ek. now rewrite Ek.
      * exact IH.
Qed.

Lemma tallied_increment (k : string) (acc : list (string * nat)) :
  tallied acc -> tallied (increment k acc).
Proof.
  intros H g n. rewrite Record_get_increment.
  destruct (g =? k); [intros [= <-]; lia | apply H].
Qed.

Lemma tally_differences (g : string) (differences : list ValueDifference) :
  forall acc,
    tallied acc ->
    tallied (fold_left (fun acc diff => increment (key diff) acc) differences acc)
    /\ tally g (fold_left (fun acc diff => increment (key diff) acc) differences acc)
       = tally g acc + count_key g differences.
Proof.
  unfold count_key.
  induction differences as [| diff differences IH]; intros acc H.
  - cbn. split; [exact H | lia].
  - cbn [fold_left filter].
    destruct (IH _ (tallied_increment (key diff) acc H)) as [H1 H2].
    split; [exact H1 |]. rewrite H2. unfold tally at 1.
    rewrite Record_get_increment, (String.eqb_sym g).
    destruct (key diff =? g) eqn:E.
    + apply String.eqb_eq in E. subst g. cbn [List.length]. lia.
    + reflexivity.
Qed.

Lemma tally_results (g : string) (results : list TestResult.t) :
  forall acc,
    tallied acc ->
    let acc' :=
      fold_left
        (fun acc result =>
           match TestResult.differences result with
           | Some differences =>
               fold_left (fun acc diff => increment (key diff) acc) differences acc
           | None => acc
           end)
        (filter (fun r => negb (TestResult.isSuccess r)
                          && match TestResult.differences r with
                             | Some _ => true
                             | None => false
                             end)
                results)
        acc in
    tallied acc'
    /\ tally g acc' = tally g acc + list_sum (map (failures_at g) results).
Proof.
  induction results as [| r results IH]; intros acc H; cbv zeta.
  - cbn. split; [exact H | lia].
  - cbn [filter map]. rewrite list_sum_cons. unfold failures_at at 1.
    destruct (TestResult.isSuccess r); cbn [negb andb].
    + destruct (IH acc H) as [H1 H2]. split; [exact H1 | rewrite H2; lia].
    + destruct (TestResult.differences r) as [differences |] eqn:Ed.
      * cbn [fold_left]. rewrite Ed.
        destruct (tally_differences g differences acc H) as [H1 H2].
        destruct (IH _ H1) as [H3 H4]. split; [exact H3 |].
        rewrite H4, H2. lia.
      * destruct (IH acc H) as [H1 H2]. split; [exact H1 | rewrite H2; lia].
Qed.

Lemma errorDistribution_tally (results : list TestResult.t) (k : string) :
  Record_get k (MetricsResult.errorDistribution (calculateMetrics results))
  = let n := list_sum (map (failures_at k) results) in
    if (n =? 0)%nat then None else Some n.
Proof.
  cbv zeta.
  assert (H0 : tallied []) by (intros g n; discriminate).
  destruct (tally_results k results [] H0) as [H1 H2]. cbv zeta in H1, H2.
  change (tally k []) with 0 in H2. cbn [Nat.add] in H2.
  unfold calculateMetrics. cbn [MetricsResult.errorDistribution].
  rewrite <- H2. unfold tally.
  match goal with |- ?x = _ => destruct x as [n |] eqn:E end.
  - specialize (H1 k n E). destruct n; [lia | reflexivity].
  - reflexivity.
Qed.

(** *** Rates *)

Lemma list_sum_le {A : Type} (f g : A -> nat) (l : list A) :
  (forall x, f x <= g x) -> list_sum (map f l) <= list_sum (map g l).
Proof.
  intros H. induction l as [| x l IH]; [cbn; lia |].
  cbn [map]. rewrite !list_sum_cons. specialize (H x). lia.
Qed.

Lemma countFields_bounds (results : list TestResult.t) (g : string) (c : nat * nat) :
  Record_get g (countFields results) = Some c -> fst c <= snd c /\ 1 <= snd c.
Proof.
  intros Hg. assert (H0 : counted []) by (intros k n; discriminate).
  destruct (countFields_fold results g [] H0) as [H1 H2]. cbv zeta in H1, H2.
  fold (countFields results) in H1, H2.
  unfold get_counts in H2. rewrite Hg in H2. cbn [Record_get fst snd Nat.add] in H2.
  split.
  - rewrite H2. cbn [fst snd]. apply list_sum_le.
    intros r. destruct (TestResult.isSuccess r); lia.
  - specialize (H1 g c Hg). lia.
Qed.

Lemma fieldSuccessRates_in_unit (results : list TestResult.t) (field : string)
    (rate : float) :
  Record_get field (MetricsResult.fieldSuccessRates (calculateMetrics results)) = Some rate ->
  in_unit rate.
Proof.
  unfold calculateMetrics. cbn [MetricsResult.fieldSuccessRates].
  rewrite Record_get_map_rate.
  destruct (Record_get field (countFields results)) as [c |] eqn:E; [| discriminate].
  intros [= <-]. destruct (countFields_bounds results field c E).
  now apply div_Number_of_nat_in_unit.
Qed.

Lemma successRate_in_unit (results : list TestResult.t) :
  results <> [] -> in_unit (MetricsResult.successRate (calculateMetrics results)).
Proof.
  intros H. unfold calculateMetrics. cbn [MetricsResult.successRate].
  apply div_Number_of_nat_in_unit.
  - apply filter_length_le.
  - destruct results; [contradiction | cbn [List.length]; lia].
Qed.

(** *** A batch in which no case finished *)

Lemma nothing_finished (results : list TestResult.t) :
  (forall r, In r results -> TestResult.isFinished r = false) ->
  filter TestResult.isFinished results = [].
Proof. apply filter_nil. Qed.

(** X11: [errorDistribution] holds, under each difference key, the number
    of differences with that key reported by the cases that failed, and has
    no entry for a key no failed case reports; the differences a successful
    case carries are not counted.  (The accumulator is a plain object, so the
    statement is for keys that name no property of [Object.prototype].) *)
Theorem errorDistribution_counts_failed_differences
    (results : list TestResult.t) (k : string) :
  ordinary_keys results = true ->
  Record_get k (MetricsResult.errorDistribution (calculateMetrics results))
  = let n := list_sum (map (failures_at k) results) in
    if (n =? 0)%nat then None else Some n.
Proof. intros _. apply errorDistribution_tally. Qed.

Lemma errorDistribution_counts_failed_differences_witness :
  Record_get "age"
    (MetricsResult.errorDistribution
       (calculateMetrics
          [ {| TestResult.isFinished := true; TestResult.isSuccess := false;
               TestResult.input := "q1"; TestResult.expectedResponse := VNull;
               TestResult.actualResponse := VNull;
               TestResult.timeElapsed := 1; TestResult.cost := 0;
               TestResult.differences :=
                 Some [difference_at ["age"] (VNum 1) (VBool true) 0;
                       difference_at ["user"; "age"] (VNum 2) VNull 0;
                       difference_at [] VNull (VNum 3) 0];
               TestResult.matchedFields := Some [];
               TestResult.missingFields := None; TestResult.extraFields := None |};
            {| TestResult.isFinished := true; TestResult.isSuccess := true;
               TestResult.input := "q2"; TestResult.expectedResponse := VNull;
               TestResult.actualResponse := VNull;
               TestResult.timeElapsed := 1; TestResult.cost := 0;
               TestResult.differences := Some [difference_at ["age"] (VNum 100) (VNum 112) 0];
               TestResult.matchedFields := Some [];
               TestResult.missingFields := None; TestResult.extraFields := None |} ]))
  = Some 2.
Proof.
  eapply eq_trans;
    [apply errorDistribution_counts_failed_differences; reflexivity | reflexivity].
Defined.

(** X12: for a batch with at least one case, [successRate] lies in
    [[0,1]], and so does every entry of [fieldSuccessRates]. *)
Theorem rates_are_proportions (results : list TestResult.t) :
  results <> [] ->
  in_unit (MetricsResult.successRate (calculateMetrics results))
  /\ forall field rate,
       Record_get field (MetricsResult.fieldSuccessRates (calculateMetrics results))
       = Some rate ->
       in_unit rate.
Proof.
  intros H. split; [now apply successRate_in_unit |].
  intros field rate. apply fieldSuccessRates_in_unit.
Qed.

Lemma rates_are_proportions_witness :
  in_unit (MetricsResult.successRate
             (calculateMetrics [finishedResult true 1 0 ["a"]; finishedResult false 1 0 ["a"; "b"];
                                unfinishedResult "q" VNull]))
  /\ forall field rate,
       Record_get field
         (MetricsResult.fieldSuccessRates
            (calculateMetrics [finishedResult true 1 0 ["a"]; finishedResult false 1 0 ["a"; "b"];
                               unfinishedResult "q" VNull]))
       = Some rate ->
       in_unit rate.
Proof. apply rates_are_proportions. discriminate. Defined.

Lemma Number_of_nat_0 : Number_of_nat 0 = 0%float.
Proof. reflexivity. Qed.

(** X13: when no case of the batch finished, the time and cost lists are
    empty: [minTime] is [Infinity], [maxTime] is [-Infinity], [totalCost] and
    [costPerSuccess] are 0, and the averages are 0 for a batch with cases and
    [NaN] for the empty batch. *)
Theorem batch_without_finished_case (results : list TestResult.t) :
  (forall r, In r results -> TestResult.isFinished r = false) ->
  let m := calculateMetrics results in
  MetricsResult.minTime m = PrimFloat.infinity
  /\ MetricsResult.maxTime m = PrimFloat.neg_infinity
  /\ MetricsResult.totalCost m = 0%float
  /\ MetricsResult.costPerSuccess m = 0%float
  /\ (results <> [] ->
      MetricsResult.averageTime m = 0%float /\ MetricsResult.averageCost m = 0%float)
  /\ (results = [] ->
      PrimFloat.is_nan (MetricsResult.averageTime m) = true
      /\ PrimFloat.is_nan (MetricsResult.averageCost m) = true).
Proof.
  intros H m. subst m. unfold calculateMetrics.
  cbn [MetricsResult.minTime MetricsResult.maxTime MetricsResult.totalCost
       MetricsResult.costPerSuccess MetricsResult.averageTime MetricsResult.averageCost].
  rewrite (nothing_finished results H). cbn [map fold_left sum].
  split; [reflexivity |]. split; [reflexivity |]. split; [reflexivity |].
  split; [| split].
  - destruct (0 <? List.length (filter TestResult.isSuccess results))%nat eqn:E;
      [| reflexivity].
    apply Nat.ltb_lt in E. rewrite <- Number_of_nat_0.
    apply Number_of_nat_div_zero. lia.
  - intros Hne. rewrite <- Number_of_nat_0.
    rewrite Number_of_nat_div_zero; [split; reflexivity |].
    destruct results; [contradiction | cbn [List.length]; lia].
  - intros ->. split; reflexivity.
Qed.

Lemma batch_without_finished_case_witness :
  let m := calculateMetrics [unfinishedResult "q1" VNull; unfinishedResult "q2" (VBool true)] in
  MetricsResult.minTime m = PrimFloat.infinity
  /\ MetricsResult.maxTime m = PrimFloat.neg_infinity
  /\ MetricsResult.totalCost m = 0%float
  /\ MetricsResult.costPerSuccess m = 0%float
  /\ ([unfinishedResult "q1" VNull; unfinishedResult "q2" (VBool true)] <> [] ->
      MetricsResult.averageTime m = 0%float /\ MetricsResult.averageCost m = 0%float)
  /\ ([unfinishedResult "q1" VNull; unfinishedResult "q2" (VBool true)] = [] ->
      PrimFloat.is_nan (MetricsResult.averageTime m) = true
      /\ PrimFloat.is_nan (MetricsResult.averageCost m) = true).
Proof.
  apply batch_without_finished_case.
  intros r [<- | [<- | []]]; reflexivity.
Defined.

(** ** The edit distance *)

Lemma ascii_eqb_sym (x y : ascii) : Ascii.eqb x y = Ascii.eqb y x.
Proof.
  destruct (Ascii.eqb_spec x y) as [-> | H].
  - now rewrite Ascii.eqb_refl.
  - symmetry. apply Ascii.eqb_neq. congruence.
Qed.

Lemma lev_sym (a b : list ascii) (i j : nat) : lev a b i j = lev b a j i.
Proof.
  revert j. induction i as [| i IH]; intros j.
  - now rewrite lev_0_r.
  - induction j as [| j IHj].
    + now rewrite lev_0_r.
    + rewrite !lev_S_S, IHj, !IH, (ascii_eqb_sym (nth i a Ascii.zero)). lia.
Qed.

Lemma levenshtein_sym (s t : string) : levenshtein s t = levenshtein t s.
Proof. unfold levenshtein. apply lev_sym. Qed.

(** The distance is at least the difference of the lengths. *)
Lemma lev_lower (a b : list ascii) (i j : nat) :
  i - j <= lev a b i j /\ j - i <= lev a b i j.
Proof.
  revert j. induction i as [| i IH]; intros j.
  - cbn [lev]. lia.
  - induction j as [| j IHj].
    + rewrite lev_0_r. lia.
    + rewrite lev_S_S. pose proof (IH (S j)). pose proof (IH j).
      destruct (Ascii.eqb (nth i a Ascii.zero) (nth j b Ascii.zero)); lia.
Qed.

Lemma lev_zero (a b : list ascii) (i j : nat) :
  lev a b i j = 0 -> i = j /\ forall k, k < i -> nth k a Ascii.zero = nth k b Ascii.zero.
Proof.
  revert j. induction i as [| i IH]; intros j.
  - cbn [lev]. intros ->. split; [reflexivity | intros k Hk; lia].
  - destruct j as [| j].
    + rewrite lev_0_r. discriminate.
    + rewrite lev_S_S. intros H.
      destruct (Ascii.eqb_spec (nth i a Ascii.zero) (nth j b Ascii.zero)) as [E | E].
      * assert (H0 : lev a b i j = 0) by lia.
        destruct (IH j H0) as [-> Hk]. split; [reflexivity |].
        intros k Hlt. destruct (Nat.eq_dec k j) as [-> | Hne]; [exact E |].
        apply Hk. lia.
      * lia.
Qed.

Lemma list_ascii_of_string_inj (s t : string) :
  list_ascii_of_string s = list_ascii_of_string t -> s = t.
Proof.
  intros H. rewrite <- (string_of_list_ascii_of_string s), H.
  apply string_of_list_ascii_of_string.
Qed.

Lemma levenshtein_zero (s t : string) : levenshtein s t = 0 <-> s = t.
Proof.
  split.
  - unfold levenshtein. intros H. apply lev_zero in H. destruct H as [Hlen H].
    apply list_ascii_of_string_inj.
    apply (nth_ext _ _ Ascii.zero Ascii.zero).
    + now rewrite !length_list_ascii_of_string.
    + intros k Hk. apply H. now rewrite <- length_list_ascii_of_string.
  - intros ->. apply levenshtein_refl.
Qed.

(** X14: the string similarity does not depend on which of the two
    strings is the expected one, and the distance read from the table is 0
    exactly when the two strings are equal. *)
Theorem string_similarity_is_symmetric (str1 str2 : string) :
  calculateStringSimilarity str1 str2 = calculateStringSimilarity str2 str1
  /\ (distance str1 str2 = 0 <-> str1 = str2).
Proof.
  split.
  - rewrite !calculateStringSimilarity_levenshtein.
    now rewrite levenshtein_sym, Nat.max_comm.
  - rewrite distance_levenshtein. apply levenshtein_zero.
Qed.

(* ================================================================== *)
(** * The order of the doubles, and what sorts with it *)
(* ================================================================== *)

Section OrderFacts.
Local Open Scope Z_scope.

Lemma valid_finite_bounds (s : bool) (m : positive) (e : Z) :
  valid_binary (S754_finite s m e) = true ->
  -1074 <= e <= 971 /\ Zpos m < 2 ^ 53 /\ (-1074 < e -> 2 ^ 52 <= Zpos m).
Proof.
  cbn [SpecFloat.valid_binary]. unfold bounded, canonical_mantissa.
  rewrite fexp_64. intros H. apply andb_true_iff in H. destruct H as [H1 H2].
  apply Z.eqb_eq in H1. apply Z.leb_le in H2. unfold emax, prec in H2.
  pose proof (digits2_pos_bounds m) as [Dlo Dhi].
  set (d := Zpos (digits2_pos m)) in *.
  assert (Hd : 1 <= d) by (unfold d; lia).
  split; [lia |]. split.
  - assert (d <= 53) by lia.
    assert (2 ^ d <= 2 ^ 53) by (apply Z.pow_le_mono_r; lia). lia.
  - intros He. assert (d = 53) by lia.
    replace (d - 1) with 52 in Dlo by lia. exact Dlo.
Qed.

Lemma rank_finite_pos (m : positive) (e : Z) :
  valid_binary (S754_finite false m e) = true ->
  0 < (e + 1075) * 2 ^ 53 + Zpos m < 2047 * 2 ^ 53.
Proof.
  intros H. apply valid_finite_bounds in H. destruct H as (He & Hm & _).
  change (2 ^ 53) with 9007199254740992 in *. lia.
Qed.

Lemma compare_cont_Eq (m1 m2 : positive) :
  Pos.compare_cont Eq m1 m2 = (Zpos m1 ?= Zpos m2).
Proof. reflexivity. Qed.

Lemma lex_compare (e1 e2 : Z) (m1 m2 : positive) :
  Zpos m1 < 2 ^ 53 -> Zpos m2 < 2 ^ 53 ->
  match e1 ?= e2 with
  | Lt => Lt
  | Gt => Gt
  | Eq => Pos.compare_cont Eq m1 m2
  end
  = ((e1 + 1075) * 2 ^ 53 + Zpos m1 ?= (e2 + 1075) * 2 ^ 53 + Zpos m2).
Proof.
  intros H1 H2. change (2 ^ 53) with 9007199254740992 in *.
  rewrite compare_cont_Eq.
  destruct (Z.compare_spec e1 e2) as [-> | Hlt | Hgt].
  - destruct (Z.compare_spec (Zpos m1) (Zpos m2)) as [E | E | E]; symmetry.
    + apply Z.compare_eq_iff. lia.
    + apply Z.compare_lt_iff. lia.
    + apply Z.compare_gt_iff. lia.
  - symmetry. apply Z.compare_lt_iff. lia.
  - symmetry. apply Z.compare_gt_iff. lia.
Qed.

(** Comparison of two doubles is comparison of their ranks. *)
Lemma SFcompare_rank (x y : spec_float) :
  valid_binary x = true -> valid_binary y = true ->
  x <> S754_nan -> y <> S754_nan ->
  SFcompare x y = Some (rank x ?= rank y).
Proof.
  intros Vx Vy Nx Ny.
  destruct x as [sx | sx | | sx mx ex]; [| | contradiction |];
    destruct y as [sy | sy | | sy my ey]; try contradiction;
    try (pose proof (rank_finite_pos mx ex) as Rx);
    try (pose proof (rank_finite_pos my ey) as Ry);
    try (pose proof (valid_finite_bounds _ _ _ Vx) as (_ & Bx & _));
    try (pose proof (valid_finite_bounds _ _ _ Vy) as (_ & By & _));
    cbn [SFcompare rank]; cbv zeta.
  all: try (specialize (Rx Vx)); try (specialize (Ry Vy)).
  all: try reflexivity.
  all: try (destruct sx; reflexivity).
  all: try (destruct sy; reflexivity).
  all: try (destruct sx, sy; reflexivity).
  - (* zero, finite *)
    destruct sy; f_equal; symmetry;
      [apply Z.compare_gt_iff | apply Z.compare_lt_iff]; lia.
  - (* infinity, finite *)
    destruct sx, sy; f_equal; symmetry;
      first [apply Z.compare_lt_iff; lia | apply Z.compare_gt_iff; lia].
  - (* finite, zero *)
    destruct sx; f_equal; symmetry;
      [apply Z.compare_lt_iff | apply Z.compare_gt_iff]; lia.
  - (* finite, infinity *)
    destruct sx, sy; f_equal; symmetry;
      first [apply Z.compare_lt_iff; lia | apply Z.compare_gt_iff; lia].
  - (* finite, finite *)
    destruct sx, sy; f_equal.
    + rewrite Z.compare_opp.
      rewrite <- (lex_compare ey ex my mx By Bx).
      rewrite (Z.compare_antisym ex ey).
      destruct (ex ?= ey); cbn [CompOpp]; try reflexivity.
      rewrite !compare_cont_Eq. now rewrite (Z.compare_antisym (Zpos mx)).
    + symmetry. apply Z.compare_lt_iff. lia.
    + symmetry. apply Z.compare_gt_iff. lia.
    + apply lex_compare; assumption.
Qed.

Lemma not_nan_SF (x : float) : PrimFloat.is_nan x = false -> Prim2SF x <> S754_nan.
Proof. rewrite is_nan_SF. intros H E. rewrite E in H. discriminate. Qed.

Lemma compare_rank (x y : float) :
  PrimFloat.is_nan x = false -> PrimFloat.is_nan y = false ->
  SFcompare (Prim2SF x) (Prim2SF y) = Some (rank_of x ?= rank_of y).
Proof.
  intros Hx Hy. apply SFcompare_rank; try apply Prim2SF_valid; now apply not_nan_SF.
Qed.

Lemma ltb_rank (x y : float) :
  PrimFloat.is_nan x = false -> PrimFloat.is_nan y = false ->
  PrimFloat.ltb x y = (rank_of x <? rank_of y).
Proof.
  intros Hx Hy. rewrite FloatAxioms.ltb_spec. unfold SFltb.
  rewrite (compare_rank x y Hx Hy). unfold Z.ltb.
  now destruct (rank_of x ?= rank_of y).
Qed.

Lemma leb_rank (x y : float) :
  PrimFloat.is_nan x = false -> PrimFloat.is_nan y = false ->
  PrimFloat.leb x y = (rank_of x <=? rank_of y).
Proof.
  intros Hx Hy. rewrite FloatAxioms.leb_spec. unfold SFleb.
  rewrite (compare_rank x y Hx Hy). unfold Z.leb.
  now destruct (rank_of x ?= rank_of y).
Qed.

End OrderFacts.

Section SubtractionSign.
Local Open Scope Z_scope.

(** Shifting to the working precision leaves a positive mantissa positive
    when the exponent is not below the least one. *)
Lemma shr_fexp_positive (m e : Z) (l : location) :
  1 <= m -> -1074 <= e ->
  1 <= shr_m (fst (shr_fexp prec emax m e l)) /\ -1074 <= snd (shr_fexp prec emax m e l).
Proof.
  intros Hm He. unfold shr_fexp. rewrite fexp_64.
  destruct (Z.max (Zdigits2 m + e - 53) (-1074) - e) as [| p | p] eqn:En;
    cbn [shr fst snd];
    try (rewrite (proj2 (loc_of_shr_record_of_loc m l)); split; assumption).
  assert (H0 : shr_inv m (negb (match l with loc_Exact => true | _ => false end)) 0
                 (shr_record_of_loc m l)).
  { split; [rewrite Z.div_1_r; apply loc_of_shr_record_of_loc |].
    intros H. left. apply shr_record_of_loc_bits in H. now destruct l. }
  apply (shr_inv_iter m _ ltac:(lia) p 0) in H0; [| lia].
  destruct H0 as [Hq _]. rewrite Z.add_0_l in Hq. rewrite Hq.
  destruct m as [| q | q]; try lia. cbn [Zdigits2] in En.
  pose proof (digits2_pos_bounds q) as [Dlo _].
  set (d := Zpos (digits2_pos q)) in *.
  assert (Hp : Zpos p = d - 53) by lia.
  split; [| lia].
  assert (Hpow : 2 ^ (d - 1) = 2 ^ Zpos p * 2 ^ 52).
  { rewrite <- Z.pow_add_r by lia. f_equal. lia. }
  assert (H52 : 1 <= 2 ^ 52) by (change (2 ^ 52) with 4503599627370496; lia).
  assert (Hpp : 0 < 2 ^ Zpos p) by (apply Z.pow_pos_nonneg; lia).
  assert (2 ^ 52 <= Zpos q / 2 ^ Zpos p); [| lia].
  apply Z.div_le_lower_bound; [exact Hpp |]. rewrite <- Hpow. exact Dlo.
Qed.

Lemma round_nearest_even_ge (m : Z) (l : location) : m <= round_nearest_even m l.
Proof.
  destruct l as [| []]; cbn [round_nearest_even]; try lia.
  destruct (Z.even m); lia.
Qed.

(** Rounding a non-zero integer multiple of a power of two not below the
    least one never gives zero. *)
Lemma binary_round_aux_nonzero (s : bool) (mx ex : Z) (lx : location) :
  1 <= mx -> -1074 <= ex ->
  binary_round_aux prec emax s mx ex lx = S754_infinity s
  \/ exists m e, binary_round_aux prec emax s mx ex lx = S754_finite s m e.
Proof.
  intros Hm He. unfold binary_round_aux.
  pose proof (shr_fexp_positive mx ex lx Hm He) as [H1 H1e].
  destruct (shr_fexp prec emax mx ex lx) as [mrs' e']. cbn [fst snd] in H1, H1e.
  pose proof (round_nearest_even_ge (shr_m mrs') (loc_of_shr_record mrs')) as Hr.
  set (m2 := round_nearest_even (shr_m mrs') (loc_of_shr_record mrs')) in *.
  pose proof (shr_fexp_positive m2 e' loc_Exact ltac:(lia) H1e) as [H2 _].
  destruct (shr_fexp prec emax m2 e' loc_Exact) as [mrs'' e'']. cbn [fst] in H2.
  destruct (shr_m mrs'') as [| m | m]; try lia.
  destruct (e'' <=? emax - prec); [right; eauto | now left].
Qed.

Lemma binary_round_nonzero (s : bool) (mx : positive) (ex : Z) :
  -1074 <= ex ->
  binary_round prec emax s mx ex = S754_infinity s
  \/ exists m e, binary_round prec emax s mx ex = S754_finite s m e.
Proof.
  intros He. unfold binary_round.
  pose proof (shl_align_snd mx ex (fexp prec emax (Zpos (digits2_pos mx) + ex))) as Hs.
  destruct (shl_align mx ex (fexp prec emax (Zpos (digits2_pos mx) + ex))) as [mz ez].
  cbn [snd] in Hs. apply binary_round_aux_nonzero; [lia |].
  rewrite Hs, fexp_64. lia.
Qed.

(** The sign of a rounded integer is the sign of the integer. *)
Lemma binary_normalize_negative (M e : Z) :
  -1074 <= e ->
  SFltb (binary_normalize prec emax M e false) (S754_zero false) = (M <? 0).
Proof.
  intros He. destruct M as [| p | p]; cbn [binary_normalize].
  - reflexivity.
  - destruct (binary_round_nonzero false p e He) as [-> | (m & e' & ->)]; reflexivity.
  - destruct (binary_round_nonzero true p e He) as [-> | (m & e' & ->)]; reflexivity.
Qed.

(** Two canonical mantissas brought to the lower of their exponents compare
    as exponent and mantissa do. *)
Lemma aligned_compare (mx my : positive) (ex ey : Z) :
  valid_binary (S754_finite false mx ex) = true ->
  valid_binary (S754_finite false my ey) = true ->
  (Zpos (fst (shl_align mx ex (Z.min ex ey))) ?= Zpos (fst (shl_align my ey (Z.min ex ey))))
  = ((ex + 1075) * 2 ^ 53 + Zpos mx ?= (ey + 1075) * 2 ^ 53 + Zpos my).
Proof.
  intros Vx Vy.
  apply valid_finite_bounds in Vx. destruct Vx as (Ex & Bx & Nx).
  apply valid_finite_bounds in Vy. destruct Vy as (Ey & By & Ny).
  rewrite !shl_align_fst by lia.
  change (2 ^ 53) with 9007199254740992 in *.
  change (2 ^ 52) with 4503599627370496 in *.
  destruct (Z.lt_trichotomy ex ey) as [Hlt | [-> | Hgt]].
  - rewrite Z.min_l by lia. rewrite Z.sub_diag, Z.pow_0_r, Z.mul_1_r.
    assert (Hp : 2 <= 2 ^ (ey - ex)).
    { change 2 with (2 ^ 1) at 1. apply Z.pow_le_mono_r; lia. }
    specialize (Ny ltac:(lia)).
    assert (Zpos mx < Zpos my * 2 ^ (ey - ex)) by nia.
    transitivity Lt; [now apply Z.compare_lt_iff | symmetry; apply Z.compare_lt_iff; lia].
  - rewrite Z.min_id, Z.sub_diag, Z.pow_0_r, !Z.mul_1_r.
    destruct (Z.compare_spec (Zpos mx) (Zpos my)) as [E | E | E]; symmetry.
    + apply Z.compare_eq_iff. lia.
    + apply Z.compare_lt_iff. lia.
    + apply Z.compare_gt_iff. lia.
  - rewrite Z.min_r by lia. rewrite Z.sub_diag, Z.pow_0_r, Z.mul_1_r.
    assert (Hp : 2 <= 2 ^ (ex - ey)).
    { change 2 with (2 ^ 1) at 1. apply Z.pow_le_mono_r; lia. }
    specialize (Nx ltac:(lia)).
    assert (Zpos my < Zpos mx * 2 ^ (ex - ey)) by nia.
    transitivity Gt; [now apply Z.compare_gt_iff | symmetry; apply Z.compare_gt_iff; lia].
Qed.

Lemma SFsub_negative (x y : spec_float) :
  valid_binary x = true -> valid_binary y = true ->
  x <> S754_nan -> y <> S754_nan ->
  SFltb (SFsub prec emax x y) (S754_zero false) = (rank x <? rank y).
Proof.
  intros Vx Vy Nx Ny.
  destruct x as [sx | sx | | sx mx ex]; [| | contradiction |];
    destruct y as [sy | sy | | sy my ey]; try contradiction;
    try (pose proof (rank_finite_pos mx ex Vx) as Rx);
    try (pose proof (rank_finite_pos my ey Vy) as Ry);
    cbn [SFsub rank]; cbv zeta.
  - now destruct sx, sy.
  - now destruct sx, sy.
  - destruct sy; cbn [negb SFltb SFcompare]; symmetry;
      [apply Z.ltb_ge | apply Z.ltb_lt]; lia.
  - now destruct sx, sy.
  - now destruct sx, sy.
  - destruct sx, sy; cbn [SFltb SFcompare]; symmetry;
      first [apply Z.ltb_ge; lia | apply Z.ltb_lt; lia].
  - destruct sx; cbn [SFltb SFcompare]; symmetry;
      [apply Z.ltb_lt | apply Z.ltb_ge]; lia.
  - destruct sx, sy; cbn [negb SFltb SFcompare]; symmetry;
      first [apply Z.ltb_ge; lia | apply Z.ltb_lt; lia].
  - assert (Hez : -1074 <= Z.min ex ey).
    { apply valid_finite_bounds in Vx, Vy. lia. }
    rewrite (binary_normalize_negative _ _ Hez).
    pose proof (aligned_compare mx my ex ey Vx Vy) as Hc.
    set (ax := Zpos (fst (shl_align mx ex (Z.min ex ey)))) in *.
    set (ay := Zpos (fst (shl_align my ey (Z.min ex ey)))) in *.
    assert (Hax : 0 < ax) by (unfold ax; lia).
    assert (Hay : 0 < ay) by (unfold ay; lia).
    set (rx := (ex + 1075) * 2 ^ 53 + Zpos mx) in *.
    set (ry := (ey + 1075) * 2 ^ 53 + Zpos my) in *.
    assert (Hlt : ax < ay <-> rx < ry).
    { rewrite <- !Z.compare_lt_iff. now rewrite Hc. }
    assert (Hgt : ay < ax <-> ry < rx).
    { rewrite <- !Z.compare_gt_iff. now rewrite Hc. }
    destruct sx, sy; cbn [cond_Zopp].
    + destruct (Z.ltb_spec (- ax - - ay) 0), (Z.ltb_spec (- rx) (- ry)); try reflexivity; lia.
    + destruct (Z.ltb_spec (- ax - ay) 0), (Z.ltb_spec (- rx) ry); try reflexivity; lia.
    + destruct (Z.ltb_spec (ax - - ay) 0), (Z.ltb_spec rx (- ry)); try reflexivity; lia.
    + destruct (Z.ltb_spec (ax - ay) 0), (Z.ltb_spec rx ry); try reflexivity; lia.
Qed.

(** [a - b < 0] exactly when [a < b]. *)
Lemma sub_negative (x y : float) :
  PrimFloat.is_nan x = false -> PrimFloat.is_nan y = false ->
  PrimFloat.ltb (x - y) 0 = PrimFloat.ltb x y.
Proof.
  intros Hx Hy. rewrite (ltb_rank x y Hx Hy).
  rewrite FloatAxioms.ltb_spec, FloatAxioms.sub_spec, Prim2SF_0.
  apply SFsub_negative; try apply Prim2SF_valid; now apply not_nan_SF.
Qed.

End SubtractionSign.

Section MinMax.
Local Open Scope Z_scope.

Lemma rank_bounds (x : spec_float) :
  valid_binary x = true -> - (2047 * 2 ^ 53) <= rank x <= 2047 * 2 ^ 53.
Proof.
  intros V. destruct x as [s | s | | s m e]; cbn [rank]; cbv zeta.
  - change (2 ^ 53) with 9007199254740992. lia.
  - change (2 ^ 53) with 9007199254740992. destruct s; lia.
  - change (2 ^ 53) with 9007199254740992. lia.
  - assert (V' : valid_binary (S754_finite false m e) = true) by exact V.
    pose proof (rank_finite_pos m e V'). destruct s; lia.
Qed.

Lemma Math_min_spec (a b : float) :
  PrimFloat.is_nan a = false -> PrimFloat.is_nan b = false ->
  (Math_min a b = a \/ Math_min a b = b)
  /\ rank_of (Math_min a b) = Z.min (rank_of a) (rank_of b).
Proof.
  intros Ha Hb. unfold Math_min. rewrite Ha, Hb. cbn [orb].
  rewrite (ltb_rank a b Ha Hb), (ltb_rank b a Hb Ha).
  destruct (Z.ltb_spec (rank_of a) (rank_of b)); [split; [now left | lia] |].
  destruct (Z.ltb_spec (rank_of b) (rank_of a)); [split; [now right | lia] |].
  destruct (PrimFloat.get_sign a); split; auto; lia.
Qed.

Lemma Math_max_spec (a b : float) :
  PrimFloat.is_nan a = false -> PrimFloat.is_nan b = false ->
  (Math_max a b = a \/ Math_max a b = b)
  /\ rank_of (Math_max a b) = Z.max (rank_of a) (rank_of b).
Proof.
  intros Ha Hb. unfold Math_max. rewrite Ha, Hb. cbn [orb].
  rewrite (ltb_rank a b Ha Hb), (ltb_rank b a Hb Ha).
  destruct (Z.ltb_spec (rank_of a) (rank_of b)); [split; [now right | lia] |].
  destruct (Z.ltb_spec (rank_of b) (rank_of a)); [split; [now left | lia] |].
  destruct (PrimFloat.get_sign a); split; auto; lia.
Qed.

Lemma fold_Math_min (l : list float) :
  Forall (fun t => PrimFloat.is_nan t = false) l ->
  forall init, PrimFloat.is_nan init = false ->
    let r := fold_left Math_min l init in
    PrimFloat.is_nan r = false
    /\ rank_of r <= rank_of init
    /\ Forall (fun t => rank_of r <= rank_of t) l
    /\ (r = init \/ In r l).
Proof.
  induction 1 as [| t l Ht _ IH]; intros init Hinit; cbv zeta.
  - cbn. repeat split; auto; lia.
  - cbn [fold_left].
    destruct (Math_min_spec init t Hinit Ht) as [Hc Hr].
    assert (Hn : PrimFloat.is_nan (Math_min init t) = false)
      by (destruct Hc as [-> | ->]; assumption).
    destruct (IH _ Hn) as (H1 & H2 & H3 & H4). cbv zeta in H1, H2, H3, H4.
    repeat split.
    + exact H1.
    + lia.
    + constructor; [lia | exact H3].
    + destruct H4 as [H4 | H4]; [| right; now right].
      rewrite H4. destruct Hc as [-> | ->]; [now left | right; now left].
Qed.

Lemma fold_Math_max (l : list float) :
  Forall (fun t => PrimFloat.is_nan t = false) l ->
  forall init, PrimFloat.is_nan init = false ->
    let r := fold_left Math_max l init in
    PrimFloat.is_nan r = false
    /\ rank_of init <= rank_of r
    /\ Forall (fun t => rank_of t <= rank_of r) l
    /\ (r = init \/ In r l).
Proof.
  induction 1 as [| t l Ht _ IH]; intros init Hinit; cbv zeta.
  - cbn. repeat split; auto; lia.
  - cbn [fold_left].
    destruct (Math_max_spec init t Hinit Ht) as [Hc Hr].
    assert (Hn : PrimFloat.is_nan (Math_max init t) = false)
      by (destruct Hc as [-> | ->]; assumption).
    destruct (IH _ Hn) as (H1 & H2 & H3 & H4). cbv zeta in H1, H2, H3, H4.
    repeat split.
    + exact H1.
    + lia.
    + constructor; [lia | exact H3].
    + destruct H4 as [H4 | H4]; [| right; now right].
      rewrite H4. destruct Hc as [-> | ->]; [now left | right; now left].
Qed.

Lemma rank_of_bounds (x : float) : - (2047 * 2 ^ 53) <= rank_of x <= 2047 * 2 ^ 53.
Proof. apply rank_bounds, Prim2SF_valid. Qed.

Lemma Math_min_infinity (t : float) :
  PrimFloat.is_nan t = false -> Math_min PrimFloat.infinity t = t.
Proof.
  intros Ht. unfold Math_min. rewrite Ht.
  change (PrimFloat.is_nan PrimFloat.infinity) with false. cbn [orb].
  rewrite (ltb_rank PrimFloat.infinity t eq_refl Ht).
  change (rank_of PrimFloat.infinity) with (2047 * 2 ^ 53).
  pose proof (rank_of_bounds t).
  destruct (Z.ltb_spec (2047 * 2 ^ 53) (rank_of t)); [lia |].
  destruct (PrimFloat.ltb t PrimFloat.infinity); reflexivity.
Qed.

Lemma Math_max_neg_infinity (t : float) :
  PrimFloat.is_nan t = false -> Math_max PrimFloat.neg_infinity t = t.
Proof.
  intros Ht. unfold Math_max. rewrite Ht.
  change (PrimFloat.is_nan PrimFloat.neg_infinity) with false. cbn [orb].
  rewrite (ltb_rank t PrimFloat.neg_infinity Ht eq_refl).
  change (rank_of PrimFloat.neg_infinity) with (- (2047 * 2 ^ 53)).
  pose proof (rank_of_bounds t).
  destruct (PrimFloat.ltb PrimFloat.neg_infinity t); [reflexivity |].
  destruct (Z.ltb_spec (rank_of t) (- (2047 * 2 ^ 53))); [lia |].
  reflexivity.
Qed.

End MinMax.

(** X15: when no finished case has a [NaN] time, [minTime] is at most and
    [maxTime] at least the time of every finished case, and when some case
    finished both are the times of finished cases. *)
Theorem minTime_and_maxTime_bound_the_times (results : list TestResult.t) :
  (forall r, In r results -> TestResult.isFinished r = true ->
             PrimFloat.is_nan (TestResult.timeElapsed r) = false) ->
  let m := calculateMetrics results in
  (forall r, In r results -> TestResult.isFinished r = true ->
             PrimFloat.leb (MetricsResult.minTime m) (TestResult.timeElapsed r) = true
             /\ PrimFloat.leb (TestResult.timeElapsed r) (MetricsResult.maxTime m) = true)
  /\ ((exists r, In r results /\ TestResult.isFinished r = true) ->
      exists r1 r2,
        In r1 results /\ TestResult.isFinished r1 = true
        /\ MetricsResult.minTime m = TestResult.timeElapsed r1
        /\ In r2 results /\ TestResult.isFinished r2 = true
        /\ MetricsResult.maxTime m = TestResult.timeElapsed r2).
Proof.
  intros Hnan m. subst m. unfold calculateMetrics.
  cbn [MetricsResult.minTime MetricsResult.maxTime].
  set (times := map TestResult.timeElapsed (filter TestResult.isFinished results)).
  assert (Htimes : Forall (fun t => PrimFloat.is_nan t = false) times).
  { apply Forall_forall. intros t Ht. apply in_map_iff in Ht.
    destruct Ht as [r [<- Hr]]. apply filter_In in Hr. now apply Hnan. }
  assert (Hin : forall t, In t times ->
            exists r, In r results /\ TestResult.isFinished r = true
                      /\ t = TestResult.timeElapsed r).
  { intros t Ht. apply in_map_iff in Ht. destruct Ht as [r [<- Hr]].
    apply filter_In in Hr. exists r. tauto. }
  split.
  - intros r Hr Hfin.
    assert (Ht : In (TestResult.timeElapsed r) times)
      by (apply in_map, filter_In; now split).
    destruct (fold_Math_min times Htimes PrimFloat.infinity eq_refl) as (N1 & _ & L1 & _).
    destruct (fold_Math_max times Htimes PrimFloat.neg_infinity eq_refl) as (N2 & _ & L2 & _).
    cbv zeta in N1, L1, N2, L2. rewrite Forall_forall in L1, L2.
    rewrite (leb_rank _ _ N1 (Hnan r Hr Hfin)), (leb_rank _ _ (Hnan r Hr Hfin) N2).
    split; apply Z.leb_le; [now apply L1 | now apply L2].
  - intros [r [Hr Hfin]].
    assert (Ht : In (TestResult.timeElapsed r) times)
      by (apply in_map, filter_In; now split).
    destruct times as [| t times']; [contradiction |].
    inversion Htimes as [| ? ? Nt Htimes']; subst.
    cbn [fold_left]. rewrite (Math_min_infinity t Nt), (Math_max_neg_infinity t Nt).
    destruct (fold_Math_min times' Htimes' t Nt) as (_ & _ & _ & M1).
    destruct (fold_Math_max times' Htimes' t Nt) as (_ & _ & _ & M2).
    cbv zeta in M1, M2.
    assert (I1 : In (fold_left Math_min times' t) (t :: times'))
      by (destruct M1 as [-> | M1]; [now left | now right]).
    assert (I2 : In (fold_left Math_max times' t) (t :: times'))
      by (destruct M2 as [-> | M2]; [now left | now right]).
    destruct (Hin _ I1) as (r1 & A1 & B1 & C1).
    destruct (Hin _ I2) as (r2 & A2 & B2 & C2).
    exists r1, r2. repeat split; assumption.
Qed.

Lemma minTime_and_maxTime_bound_the_times_witness :
  let results := [finishedResult true 30 0 []; unfinishedResult "q" VNull;
                  finishedResult false 10 0 []; finishedResult true 20 0 []] in
  let m := calculateMetrics results in
  (forall r, In r results -> TestResult.isFinished r = true ->
             PrimFloat.leb (MetricsResult.minTime m) (TestResult.timeElapsed r) = true
             /\ PrimFloat.leb (TestResult.timeElapsed r) (MetricsResult.maxTime m) = true)
  /\ ((exists r, In r results /\ TestResult.isFinished r = true) ->
      exists r1 r2,
        In r1 results /\ TestResult.isFinished r1 = true
        /\ MetricsResult.minTime m = TestResult.timeElapsed r1
        /\ In r2 results /\ TestResult.isFinished r2 = true
        /\ MetricsResult.maxTime m = TestResult.timeElapsed r2).
Proof.
  apply minTime_and_maxTime_bound_the_times.
  intros r [<- | [<- | [<- | [<- | []]]]] _; reflexivity.
Defined.

(** ** Sorting *)

Lemma insert_Permutation {A : Type} (c : A -> A -> float) (x : A) (l : list A) :
  Permutation (insert c x l) (x :: l).
Proof.
  induction l as [| y l IH]; cbn [insert]; [reflexivity |].
  destruct (PrimFloat.ltb (c x y) 0); [reflexivity |].
  rewrite IH. apply perm_swap.
Qed.

Lemma fold_insert_Permutation {A : Type} (c : A -> A -> float) (l : list A) :
  forall acc,
    Permutation (fold_left (fun sorted x => insert c x sorted) l acc) (acc ++ l).
Proof.
  induction l as [| x l IH]; intros acc; cbn [fold_left].
  - now rewrite List.app_nil_r.
  - rewrite IH, insert_Permutation. apply Permutation_middle.
Qed.

(** The sorted array holds the elements of the array, each as often. *)
Lemma Array_sort_Permutation {A : Type} (c : A -> A -> float) (l : list A) :
  Permutation (Array_sort c l) l.
Proof. unfold Array_sort. apply (fold_insert_Permutation c l []). Qed.

Lemma Array_sort_length {A : Type} (c : A -> A -> float) (l : list A) :
  List.length (Array_sort c l) = List.length l.
Proof. apply Permutation_length, Array_sort_Permutation. Qed.

Section Sorted.

Variable A : Type.
Variable c : A -> A -> float.
Variable rk : A -> Z.

Lemma insert_ascending (x : A) (l : list A) :
  ordered A c rk (x :: l) -> ascending A rk l -> ascending A rk (insert c x l).
Proof.
  unfold ascending. intros Ho. induction l as [| y l IH]; intros Hs; cbn [insert].
  - repeat constructor.
  - apply StronglySorted_inv in Hs. destruct Hs as [Hs Hy].
    rewrite (Ho x y) by (cbn; auto).
    destruct (Z.ltb_spec (rk x) (rk y)) as [Hlt | Hge].
    + constructor; [now constructor |].
      constructor; [lia |].
      eapply Forall_impl; [| exact Hy]. cbv beta. intros a Ha. lia.
    + constructor.
      * apply IH; [| exact Hs].
        intros a b Ha Hb. apply Ho; cbn in Ha, Hb |- *; tauto.
      * eapply Permutation_Forall; [symmetry; apply insert_Permutation |].
        constructor; [lia | exact Hy].
Qed.

Lemma fold_insert_ascending (l : list A) :
  forall acc, ordered A c rk (acc ++ l) -> ascending A rk acc ->
              ascending A rk (fold_left (fun sorted x => insert c x sorted) l acc).
Proof.
  induction l as [| x l IH]; intros acc Ho Hs; cbn [fold_left]; [exact Hs |].
  apply IH.
  - intros a b Ha Hb. apply Ho.
    + apply in_app_or in Ha. destruct Ha as [Ha | Ha].
      * apply (Permutation_in _ (insert_Permutation c x acc)) in Ha.
        apply in_or_app. destruct Ha as [<- | Ha]; [right; now left | now left].
      * apply in_or_app. right. now right.
    + apply in_app_or in Hb. destruct Hb as [Hb | Hb].
      * apply (Permutation_in _ (insert_Permutation c x acc)) in Hb.
        apply in_or_app. destruct Hb as [<- | Hb]; [right; now left | now left].
      * apply in_or_app. right. now right.
  - apply insert_ascending; [| exact Hs].
    intros a b Ha Hb. apply Ho; apply in_or_app.
    + destruct Ha as [<- | Ha]; [right; now left | now left].
    + destruct Hb as [<- | Hb]; [right; now left | now left].
Qed.

(** Sorting with a comparator that orders the elements as [rk] does gives
    them in ascending order of [rk]. *)
Lemma Array_sort_ascending (l : list A) :
  ordered A c rk l -> ascending A rk (Array_sort c l).
Proof.
  intros Ho. unfold Array_sort. apply fold_insert_ascending; [exact Ho | constructor].
Qed.

(** In an ascending list the element at [k] has at least [k + 1] elements
    not above it and at least [length - k] not below it. *)
Lemma ascending_nth (l : list A) (k : nat) (x : A) :
  ascending A rk l -> nth_error l k = Some x ->
  Forall (fun a => (rk a <= rk x)%Z) (firstn (S k) l)
  /\ Forall (fun a => (rk x <= rk a)%Z) (skipn k l).
Proof.
  unfold ascending. revert k. induction l as [| y l IH]; intros k Hs Hk.
  - destruct k; discriminate Hk.
  - apply StronglySorted_inv in Hs. destruct Hs as [Hs Hy].
    destruct k as [| k].
    + injection Hk as <-. cbn [firstn skipn]. split.
      * constructor; [lia | constructor].
      * constructor; [lia | exact Hy].
    + cbn [nth_error] in Hk. destruct (IH k Hs Hk) as [H1 H2].
      cbn [skipn]. split; [| exact H2].
      change (firstn (S (S k)) (y :: l)) with (y :: firstn (S k) l).
      constructor; [| exact H1].
      rewrite Forall_forall in Hy. apply Hy. eapply nth_error_In; exact Hk.
Qed.

End Sorted.

Lemma filter_length_Permutation {A : Type} (f : A -> bool) (l l' : list A) :
  Permutation l l' -> List.length (filter f l) = List.length (filter f l').
Proof.
  induction 1 as [| x l l' _ IH | x y l | l l' l'' _ IH1 _ IH2]; cbn [filter].
  - reflexivity.
  - destruct (f x); cbn [List.length]; now rewrite IH.
  - destruct (f x), (f y); reflexivity.
  - now rewrite IH1.
Qed.

Lemma Forall_filter_length {A : Type} (f : A -> bool) (l : list A) :
  Forall (fun a => f a = true) l -> List.length (filter f l) = List.length l.
Proof.
  induction 1 as [| x l Hx _ IH]; [reflexivity |].
  cbn [filter]. rewrite Hx. cbn [List.length]. now rewrite IH.
Qed.

Lemma filter_length_app_le {A : Type} (f : A -> bool) (l1 l2 : list A) :
  List.length (filter f l1) <= List.length (filter f (l1 ++ l2))
  /\ List.length (filter f l2) <= List.length (filter f (l1 ++ l2)).
Proof. rewrite filter_app, length_app. lia. Qed.

Lemma In_firstn {A : Type} (n : nat) (l : list A) (x : A) : In x (firstn n l) -> In x l.
Proof.
  intros H. rewrite <- (firstn_skipn n l). apply in_or_app. now left.
Qed.

Lemma In_skipn {A : Type} (n : nat) (l : list A) (x : A) : In x (skipn n l) -> In x l.
Proof.
  intros H. rewrite <- (firstn_skipn n l). apply in_or_app. now right.
Qed.

Section ExactArithmetic.
Local Open Scope Z_scope.

Lemma bits_clear_exact (mrs : shr_record) :
  shr_r mrs || shr_s mrs = false -> loc_of_shr_record mrs = loc_Exact.
Proof. destruct mrs as [m [] []]; cbn; congruence. Qed.

Lemma digits2_pos_shift (m : positive) (j : Z) (p : positive) :
  0 <= j -> Zpos p = Zpos m * 2 ^ j ->
  Zpos (digits2_pos p) = Zpos (digits2_pos m) + j.
Proof.
  intros Hj Hp. pose proof (digits2_pos_bounds m) as [Dlo Dhi].
  set (d := Zpos (digits2_pos m)) in *.
  assert (Hd : 1 <= d) by (unfold d; lia).
  assert (Hpj : 0 < 2 ^ j) by (apply Z.pow_pos_nonneg; lia).
  apply digits2_pos_unique; [| lia]. rewrite Hp. split.
  - replace (d + j - 1) with (d - 1 + j) by lia. rewrite Z.pow_add_r by lia.
    apply Z.mul_le_mono_nonneg_r; lia.
  - rewrite Z.pow_add_r by lia. apply Z.mul_lt_mono_pos_r; lia.
Qed.

(** Rounding is the identity on a 53-bit mantissa times a power of two. *)
Lemma binary_round_aux_exact (m : positive) (j e : Z) :
  Zpos (digits2_pos m) = 53 -> 0 <= j -> -1074 <= e + j <= 971 ->
  binary_round_aux prec emax false (Zpos m * 2 ^ j) e loc_Exact
  = S754_finite false m (e + j).
Proof.
  intros Hd Hj He.
  assert (Hpj : 0 < 2 ^ j) by (apply Z.pow_pos_nonneg; lia).
  destruct (Zpos m * 2 ^ j) as [| p | p] eqn:Ep; try lia.
  pose proof (digits2_pos_shift m j p Hj (eq_sym Ep)) as Hdp. rewrite Hd in Hdp.
  assert (Hfirst : exists mrs',
            shr_fexp prec emax (Zpos p) e loc_Exact = (mrs', e + j)
            /\ shr_m mrs' = Zpos m /\ loc_of_shr_record mrs' = loc_Exact).
  { unfold shr_fexp. cbn [Zdigits2]. rewrite fexp_64, Hdp.
    replace (Z.max (53 + j + e - 53) (-1074) - e) with j by lia.
    destruct j as [| pj | pj]; try lia; cbn [shr].
    - eexists. split; [rewrite Z.add_0_r; reflexivity |]. split; [| reflexivity].
      cbn. lia.
    - eexists. split; [reflexivity |].
      assert (H0 : shr_inv (Zpos p) false 0 (shr_record_of_loc (Zpos p) loc_Exact)).
      { split; [rewrite Z.div_1_r; reflexivity | cbn; discriminate]. }
      apply (shr_inv_iter (Zpos p) false ltac:(lia) pj 0) in H0; [| lia].
      destruct H0 as [Hq Hi]. rewrite Z.add_0_l in Hq, Hi. split.
      + rewrite Hq, <- Ep. apply Z.div_mul. lia.
      + apply bits_clear_exact.
        destruct (shr_r _ || shr_s _) eqn:Eb; [| reflexivity].
        destruct (Hi eq_refl) as [Hf | Hmod]; [discriminate |].
        exfalso. apply Hmod. rewrite <- Ep. apply Z.mod_mul. lia. }
  destruct Hfirst as (mrs' & E1 & Hm' & Hl').
  unfold binary_round_aux. rewrite E1, Hm', Hl'. cbn [round_nearest_even].
  unfold shr_fexp. cbn [Zdigits2]. rewrite fexp_64, Hd.
  replace (Z.max (53 + (e + j) - 53) (-1074) - (e + j)) with 0 by lia.
  cbn [shr shr_record_of_loc shr_m].
  assert (Hb : (e + j <=? emax - prec) = true) by (apply Z.leb_le; unfold emax, prec; lia).
  now rewrite Hb.
Qed.

Lemma exact_double_finite (k : Z) :
  1 <= k < 2 ^ 53 ->
  exists (m : positive) (d : Z),
    exact_double k = S754_finite false m (d - 53)
    /\ 1 <= d <= 53 /\ Zpos m = k * 2 ^ (53 - d) /\ Zpos (digits2_pos m) = 53
    /\ 2 ^ (d - 1) <= k < 2 ^ d.
Proof.
  intros Hk. destruct k as [| p | p]; try lia.
  destruct (exact_double_mantissa p ltac:(lia)) as (Hd & Hm & Hdig).
  pose proof (digits2_pos_bounds p) as Hb.
  exists (Z.to_pos (Zpos p * 2 ^ (53 - Zpos (digits2_pos p)))), (Zpos (digits2_pos p)).
  cbn [exact_double]. repeat split; try assumption; try lia.
Qed.

(** Halving an integer-valued double is exact. *)
Lemma SFmul_half (m : positive) (e : Z) :
  Zpos (digits2_pos m) = 53 -> -1073 <= e <= 972 ->
  SFmul prec emax (S754_finite false 4503599627370496 (-53)) (S754_finite false m e)
  = S754_finite false m (e - 1).
Proof.
  intros Hd He. cbn [SFmul xorb].
  replace (Zpos (4503599627370496 * m)) with (Zpos m * 2 ^ 52)
    by (change (2 ^ 52) with 4503599627370496; lia).
  rewrite binary_round_aux_exact; [f_equal; lia | exact Hd | lia | lia].
Qed.

(** Subtracting 1 from a positive integer-valued double is exact. *)
Lemma SFsub_one (c : Z) :
  1 <= c < 2 ^ 53 -> SFsub prec emax (exact_double c) one_SF = exact_double (c - 1).
Proof.
  intros Hc. destruct (exact_double_finite c Hc) as (m & d & E & Hd & Hm & Hdig & Hcd).
  rewrite E. unfold one_SF. cbn [SFsub]. cbv zeta.
  rewrite Z.min_r by lia. rewrite !shl_align_fst by lia. cbn [cond_Zopp].
  replace (-52 - -52) with 0 by lia. rewrite Z.pow_0_r, Z.mul_1_r.
  replace (Zpos m * 2 ^ (d - 53 - -52) - 4503599627370496) with ((c - 1) * 2 ^ 52).
  2:{ rewrite Hm, <- Z.mul_assoc, <- Z.pow_add_r by lia.
      replace (53 - d + (d - 53 - -52)) with 52 by lia.
      change (2 ^ 52) with 4503599627370496. lia. }
  destruct (Z.eq_dec c 1) as [-> | Hne]; [reflexivity |].
  destruct (exact_double_finite (c - 1) ltac:(lia)) as (m' & d' & E' & Hd' & Hm' & Hdig' & Hcd').
  rewrite E'.
  assert (Hpos : 0 < (c - 1) * 2 ^ 52)
    by (change (2 ^ 52) with 4503599627370496; lia).
  destruct ((c - 1) * 2 ^ 52) as [| p | p] eqn:Ep; try lia.
  cbn [binary_normalize]. unfold binary_round.
  assert (Hp : Zpos p = Zpos m' * 2 ^ (d' - 1)).
  { rewrite Hm', <- Z.mul_assoc, <- Z.pow_add_r by lia.
    replace (53 - d' + (d' - 1)) with 52 by lia. lia. }
  pose proof (digits2_pos_shift m' (d' - 1) p ltac:(lia) Hp) as Hdp.
  rewrite Hdig' in Hdp. rewrite fexp_64, Hdp.
  replace (Z.max (53 + (d' - 1) + -52 - 53) (-1074)) with (d' - 53) by lia.
  unfold shl_align.
  destruct (d' - 53 - -52) as [| q | q] eqn:Eq; try lia.
  - rewrite Hp, binary_round_aux_exact by lia. f_equal. lia.
  - rewrite Hp, binary_round_aux_exact by lia. f_equal. lia.
Qed.

Lemma element_at_exact {A : Type} (arr : list A) (x : float) (k : Z) :
  Prim2SF x = exact_double k -> 0 <= k < 2 ^ 52 ->
  element_at arr x = nth_error arr (Z.to_nat k).
Proof.
  intros E Hk. unfold element_at. rewrite E.
  destruct (Z.eq_dec k 0) as [-> | Hne]; [reflexivity |].
  assert (H52 : 2 ^ 52 < 2 ^ 53) by (apply Z.pow_lt_mono_r; lia).
  destruct (exact_double_finite k ltac:(lia)) as (m & d & E' & Hd & Hm & Hdig & Hkd).
  rewrite E'.
  assert (Hd52 : d <= 52).
  { destruct (Z_le_gt_dec d 52); [assumption |].
    assert (2 ^ 52 <= 2 ^ (d - 1)) by (apply Z.pow_le_mono_r; lia). lia. }
  assert (Hlt : (d - 53 <? 0) = true) by (apply Z.ltb_lt; lia).
  rewrite Hlt. replace (- (d - 53)) with (53 - d) by lia.
  assert (Hp : 0 < 2 ^ (53 - d)) by (apply Z.pow_pos_nonneg; lia).
  rewrite Hm, Z.mod_mul, Z.div_mul by lia. reflexivity.
Qed.

Lemma half_of_shifted (k j : Z) :
  0 <= k -> 0 <= j ->
  (if (k * 2 ^ j) mod 2 ^ (j + 1) =? 0
   then k * 2 ^ j / 2 ^ (j + 1) else k * 2 ^ j / 2 ^ (j + 1) + 1)
  = (k + 1) / 2.
Proof.
  intros Hk Hj. assert (Hp : 0 < 2 ^ j) by (apply Z.pow_pos_nonneg; lia).
  rewrite Z.pow_add_r, Z.pow_1_r by lia.
  rewrite (Z.mul_comm (2 ^ j) 2).
  rewrite Z.div_mul_cancel_r by lia.
  rewrite Z.mul_mod_distr_r by lia.
  pose proof (Z.div_mod k 2 ltac:(lia)) as Hdm.
  pose proof (Z.mod_pos_bound k 2 ltac:(lia)) as Hb.
  assert (Hcases : k mod 2 = 0 \/ k mod 2 = 1) by lia.
  destruct Hcases as [E | E]; rewrite E.
  - rewrite Z.mul_0_l. cbn [Z.eqb].
    apply Z.div_unique with 1; lia.
  - rewrite Z.mul_1_l.
    destruct (Z.eqb_spec (2 ^ j) 0); [lia |].
    apply Z.div_unique with 0; lia.
Qed.

End ExactArithmetic.

Lemma Prim2SF_half : Prim2SF (50 / 100) = S754_finite false 4503599627370496 (-53).
Proof. vm_compute. reflexivity. Qed.

(** The index [getPercentile] computes for the 50th percentile of [n]
    numbers. *)
Lemma median_index (n : nat) :
  (1 <= n)%nat -> (Z.of_nat n < 2 ^ 53)%Z ->
  Prim2SF (Math_ceil (50 / 100 * Number_of_nat n) - 1)
  = exact_double (Z.of_nat ((n - 1) / 2)).
Proof.
  intros Hn Hmax.
  assert (Hmin : Z.min (Z.of_nat n) MAX_SAFE_INTEGER = Z.of_nat n)
    by (unfold MAX_SAFE_INTEGER; lia).
  destruct (exact_double_finite (Z.of_nat n) ltac:(lia)) as (m & d & E & Hd & Hm & Hdig & Hnd).
  assert (Hx : Prim2SF (50 / 100 * Number_of_nat n) = S754_finite false m (d - 54)).
  { rewrite FloatAxioms.mul_spec, Prim2SF_half, Prim2SF_Number_of_nat, Hmin, E.
    unfold SF64mul. rewrite SFmul_half by (try exact Hdig; lia).
    f_equal. lia. }
  set (c := ((Z.of_nat n + 1) / 2)%Z).
  assert (Hc : (1 <= c < 2 ^ 53)%Z).
  { unfold c. split.
    - apply Z.div_le_lower_bound; lia.
    - apply Z.div_lt_upper_bound; lia. }
  assert (Hceil : Math_ceil (50 / 100 * Number_of_nat n) = SF2Prim (exact_double c)).
  { unfold Math_ceil. rewrite Hx.
    assert (Hneg : (0 <=? d - 54)%Z = false) by (apply Z.leb_gt; lia).
    rewrite Hneg. cbv zeta. f_equal. f_equal.
    replace (- (d - 54))%Z with (53 - d + 1)%Z by lia.
    rewrite Hm. apply half_of_shifted; lia. }
  rewrite FloatAxioms.sub_spec, Hceil, Prim2SF_1.
  rewrite Prim2SF_SF2Prim by (apply exact_double_valid; lia).
  unfold SF64sub. rewrite SFsub_one by exact Hc.
  f_equal. unfold c.
  rewrite Nat2Z.inj_div, Nat2Z.inj_sub by lia. cbn [Z.of_nat].
  replace (Z.of_nat n + 1)%Z with (Z.of_nat n - 1 + 1 * 2)%Z by lia.
  rewrite Z.div_add by lia. change (Z.pos (Pos.of_succ_nat 1)) with 2%Z.
  change (Z.pos (Pos.of_succ_nat 0)) with 1%Z. lia.
Qed.

Lemma getPercentile_median (arr : list float) :
  (1 <= List.length arr)%nat -> (Z.of_nat (List.length arr) < 2 ^ 52)%Z ->
  getPercentile arr 50
  = nth_error (Array_sort (fun a b => (a - b)%float) arr) ((List.length arr - 1) / 2).
Proof.
  intros Hn Hmax. unfold getPercentile. rewrite Array_sort_length.
  assert (H52 : (2 ^ 52 < 2 ^ 53)%Z) by (apply Z.pow_lt_mono_r; lia).
  rewrite (element_at_exact _ _ _ (median_index _ Hn ltac:(lia))).
  - now rewrite Nat2Z.id.
  - split; [lia |].
    assert ((List.length arr - 1) / 2 <= List.length arr)%nat; [| lia].
    apply Nat.Div0.div_le_upper_bound. lia.
Qed.

Lemma element_at_nil {A : Type} (x : float) : element_at (@nil A) x = None.
Proof.
  unfold element_at. destruct (Prim2SF x) as [s | s | | [] m e]; try reflexivity.
  - destruct ((e <? 0)%Z && (Z.pos m mod 2 ^ (- e) =? 0)%Z); [| reflexivity].
    now destruct (Z.to_nat (Z.pos m / 2 ^ (- e))).
Qed.

Lemma ordered_by_rank (l : list float) :
  Forall (fun t => PrimFloat.is_nan t = false) l ->
  ordered float (fun a b => (a - b)%float) rank_of l.
Proof.
  intros H x y Hx Hy. rewrite Forall_forall in H.
  rewrite sub_negative by (now apply H). apply ltb_rank; now apply H.
Qed.

(** X16: for an array of at least one and fewer than 2^32 numbers, none of
    them [NaN], [getPercentile(arr, 50)] is an element of the array with at
    least half of the elements (rounded up) not above it and more than half
    of them (the half rounded down, plus one) not below it: the lower
    median. *)
Theorem getPercentile_50_is_the_lower_median (arr : list float) :
  Forall (fun t => PrimFloat.is_nan t = false) arr ->
  (1 <= List.length arr)%nat -> (Z.of_nat (List.length arr) < 2 ^ 32)%Z ->
  exists x,
    getPercentile arr 50 = Some x
    /\ In x arr
    /\ ((List.length arr + 1) / 2
        <= List.length (filter (fun t => PrimFloat.leb t x) arr))%nat
    /\ (List.length arr / 2 + 1
        <= List.length (filter (fun t => PrimFloat.leb x t) arr))%nat.
Proof.
  intros Hnan Hn Hmax.
  assert (Hmax' : (Z.of_nat (List.length arr) < 2 ^ 52)%Z).
  { assert ((2 ^ 32 < 2 ^ 52)%Z) by (apply Z.pow_lt_mono_r; lia). lia. }
  rewrite (getPercentile_median arr Hn Hmax').
  set (sorted := Array_sort (fun a b => (a - b)%float) arr).
  set (k := ((List.length arr - 1) / 2)%nat).
  pose proof (Array_sort_Permutation (fun a b => (a - b)%float) arr) as Hperm.
  fold sorted in Hperm.
  assert (Hlen : List.length sorted = List.length arr) by (now apply Permutation_length).
  assert (Hk : (k < List.length arr)%nat).
  { unfold k. apply Nat.Div0.div_lt_upper_bound. lia. }
  destruct (nth_error sorted k) as [x |] eqn:Ex;
    [| apply nth_error_None in Ex; lia].
  exists x. split; [reflexivity |].
  assert (Hx : In x arr).
  { eapply Permutation_in; [exact Hperm |]. eapply nth_error_In; exact Ex. }
  split; [exact Hx |].
  pose proof (Array_sort_ascending float _ rank_of arr (ordered_by_rank arr Hnan)) as Hasc.
  fold sorted in Hasc.
  destruct (ascending_nth float rank_of sorted k x Hasc Ex) as [Hlow Hhigh].
  rewrite Forall_forall in Hnan.
  assert (Hsorted_nan : forall t, In t sorted -> PrimFloat.is_nan t = false).
  { intros t Ht. apply Hnan. eapply Permutation_in; [exact Hperm | exact Ht]. }
  rewrite <- (filter_length_Permutation (fun t => PrimFloat.leb t x) _ _ Hperm).
  rewrite <- (filter_length_Permutation (fun t => PrimFloat.leb x t) _ _ Hperm).
  split.
  - rewrite <- (firstn_skipn (S k) sorted).
    pose proof (filter_length_app_le (fun t => PrimFloat.leb t x)
                  (firstn (S k) sorted) (skipn (S k) sorted)) as [H _].
    rewrite Forall_filter_length in H.
    + rewrite length_firstn in H.
      assert ((List.length arr + 1) / 2 = S k)%nat.
      { unfold k. replace (List.length arr + 1)%nat with (List.length arr - 1 + 1 * 2)%nat by lia.
        rewrite Nat.div_add by lia. lia. }
      lia.
    + rewrite Forall_forall in Hlow |- *. intros t Ht.
      rewrite leb_rank.
      * apply Z.leb_le. now apply Hlow.
      * apply Hsorted_nan. eapply In_firstn; exact Ht.
      * now apply Hnan.
  - rewrite <- (firstn_skipn k sorted).
    pose proof (filter_length_app_le (fun t => PrimFloat.leb x t)
                  (firstn k sorted) (skipn k sorted)) as [_ H].
    rewrite Forall_filter_length in H.
    + rewrite length_skipn in H.
      assert (List.length arr / 2 + 1 = List.length arr - k)%nat.
      { unfold k.
        pose proof (Nat.div_mod_eq (List.length arr) 2).
        pose proof (Nat.div_mod_eq (List.length arr - 1) 2).
        pose proof (Nat.mod_upper_bound (List.length arr) 2 ltac:(lia)).
        pose proof (Nat.mod_upper_bound (List.length arr - 1) 2 ltac:(lia)).
        lia. }
      lia.
    + rewrite Forall_forall in Hhigh |- *. intros t Ht.
      rewrite leb_rank.
      * apply Z.leb_le. now apply Hhigh.
      * now apply Hnan.
      * apply Hsorted_nan. eapply In_skipn; exact Ht.
Qed.

Lemma getPercentile_50_is_the_lower_median_witness :
  exists x,
    getPercentile [30; 10; 40; 20]%float 50 = Some x
    /\ In x [30; 10; 40; 20]%float
    /\ ((List.length [30; 10; 40; 20]%float + 1) / 2
        <= List.length (filter (fun t => PrimFloat.leb t x) [30; 10; 40; 20]%float))%nat
    /\ (List.length [30; 10; 40; 20]%float / 2 + 1
        <= List.length (filter (fun t => PrimFloat.leb x t) [30; 10; 40; 20]%float))%nat.
Proof.
  apply getPercentile_50_is_the_lower_median.
  - repeat constructor.
  - cbn; lia.
  - cbn; lia.
Defined.

(** X17: the percentile of an empty array is [undefined], whatever the
    percentile; so [medianTime] is [undefined] for a batch in which no case
    finished, the empty batch included. *)
Theorem medianTime_of_nothing_is_undefined (results : list TestResult.t)
    (percentile : float) :
  getPercentile [] percentile = None
  /\ ((forall r, In r results -> TestResult.isFinished r = false) ->
      medianTime results = None).
Proof.
  split.
  - unfold getPercentile. cbn [Array_sort fold_left]. apply element_at_nil.
  - intros H. unfold medianTime. rewrite (nothing_finished results H).
    cbn [map]. unfold getPercentile. cbn [Array_sort fold_left]. apply element_at_nil.
Qed.

(** ** mostFailedFields *)

Lemma Map_update_keys (f : string) (b : bool) (fc : list (string * (nat * nat))) :
  map fst (Map_update f b fc)
  = if mem f (map fst fc) then map fst fc else map fst fc ++ [f].
Proof.
  induction fc as [| [k [s t]] fc IH]; [reflexivity |].
  cbn [Map_update map fst mem existsb]. destruct (f =? k) eqn:E; cbn [orb].
  - reflexivity.
  - cbn [map fst]. rewrite IH. unfold mem. now destruct (existsb (String.eqb f) (map fst fc)).
Qed.

Lemma NoDup_Map_update (f : string) (b : bool) (fc : list (string * (nat * nat))) :
  NoDup (map fst fc) -> NoDup (map fst (Map_update f b fc)).
Proof.
  intros H. rewrite Map_update_keys. destruct (mem f (map fst fc)) eqn:E; [exact H |].
  apply mem_false in E.
  apply (Permutation_NoDup (l := f :: map fst fc)).
  - change (f :: map fst fc) with ([f] ++ map fst fc). apply Permutation_app_comm.
  - now constructor.
Qed.

Lemma countFields_NoDup (results : list TestResult.t) :
  NoDup (map fst (countFields results)).
Proof.
  unfold countFields.
  assert (H : forall fc, NoDup (map fst fc) ->
            NoDup (map fst
              (fold_left
                 (fun fieldCounts result =>
                    match TestResult.matchedFields result with
                    | Some fields =>
                        fold_left (fun fieldCounts field =>
                                     Map_update field (TestResult.isSuccess result) fieldCounts)
                                  fields fieldCounts
                    | None => fieldCounts
                    end) results fc))).
  { induction results as [| r results IH]; intros fc Hfc; [exact Hfc |].
    cbn [fold_left]. apply IH.
    destruct (TestResult.matchedFields r) as [fields |]; [| exact Hfc].
    revert fc Hfc. induction fields as [| f fields IHf]; intros fc Hfc; [exact Hfc |].
    cbn [fold_left]. apply IHf. now apply NoDup_Map_update. }
  apply H. constructor.
Qed.

Lemma Record_get_In {A : Type} (l : list (string * A)) (k : string) (v : A) :
  NoDup (map fst l) -> (Record_get k l = Some v <-> In (k, v) l).
Proof.
  induction l as [| [k' v'] l IH]; intros Hnd.
  - cbn. split; [discriminate | contradiction].
  - cbn [map fst] in Hnd. inversion Hnd as [| ? ? Hnotin Hnd']; subst.
    cbn [Record_get In]. destruct (String.eqb_spec k k') as [-> | Hne].
    + split.
      * intros [= ->]. now left.
      * intros [[= ->] | Hin]; [reflexivity |].
        exfalso. apply Hnotin. apply (in_map fst) in Hin. exact Hin.
    + rewrite (IH Hnd'). split; [now right |].
      intros [[= E _] | Hin]; [congruence | exact Hin].
Qed.

Lemma in_unit_not_nan (x : float) : in_unit x -> PrimFloat.is_nan x = false.
Proof.
  intros [H _]. rewrite is_nan_SF. rewrite FloatAxioms.leb_spec in H.
  destruct (Prim2SF x); try reflexivity. rewrite Prim2SF_0 in H. discriminate H.
Qed.

Lemma StronglySorted_app_inv {A : Type} (R : A -> A -> Prop) (l1 l2 : list A) :
  StronglySorted R (l1 ++ l2) ->
  StronglySorted R l1 /\ StronglySorted R l2
  /\ forall a b, In a l1 -> In b l2 -> R a b.
Proof.
  induction l1 as [| x l1 IH]; cbn [app]; intros H.
  - split; [constructor |]. split; [exact H |]. intros a b [].
  - apply StronglySorted_inv in H. destruct H as [H Hx].
    destruct (IH H) as (H1 & H2 & H3). apply Forall_app in Hx. destruct Hx as [Hx1 Hx2].
    split; [now constructor |]. split; [exact H2 |].
    intros a b [<- | Ha] Hb; [| now apply H3].
    rewrite Forall_forall in Hx2. now apply Hx2.
Qed.

(** The entries [mostFailedFields] is cut from, before the sort. *)
Lemma candidates_spec (results : list TestResult.t) (e : FailedField.t) :
  In e (map (fun entry : string * (nat * nat) =>
               let '(field, (success, total)) := entry in
               {| FailedField.field := field;
                  FailedField.failureRate :=
                    (1 - Number_of_nat success / Number_of_nat total)%float |})
            (countFields results))
  <-> exists rate,
        Record_get (FailedField.field e)
          (MetricsResult.fieldSuccessRates (calculateMetrics results)) = Some rate
        /\ FailedField.failureRate e = (1 - rate)%float.
Proof.
  unfold calculateMetrics. cbn [MetricsResult.fieldSuccessRates].
  rewrite Record_get_map_rate. rewrite in_map_iff. split.
  - intros [[f [s t]] [<- Hin]]. cbn [FailedField.field FailedField.failureRate].
    apply (Record_get_In _ _ _ (countFields_NoDup results)) in Hin. rewrite Hin.
    eexists. split; reflexivity.
  - intros [rate [Hr Hf]].
    destruct (Record_get (FailedField.field e) (countFields results)) as [[s t] |] eqn:E;
      [| discriminate].
    injection Hr as <-. cbn [fst snd] in Hf.
    exists (FailedField.field e, (s, t)). split.
    + destruct e as [f fr]. cbn [FailedField.field FailedField.failureRate] in *. now subst.
    + now apply (Record_get_In _ _ _ (countFields_NoDup results)).
Qed.

Lemma candidates_not_nan (results : list TestResult.t) (e : FailedField.t) :
  (exists rate,
     Record_get (FailedField.field e)
       (MetricsResult.fieldSuccessRates (calculateMetrics results)) = Some rate
     /\ FailedField.failureRate e = (1 - rate)%float) ->
  PrimFloat.is_nan (FailedField.failureRate e) = false.
Proof.
  intros [rate [Hr ->]]. apply in_unit_not_nan, sub_one_in_unit.
  eapply fieldSuccessRates_in_unit. exact Hr.
Qed.

(** X18: [mostFailedFields] holds the five fields with the highest
    failure rates, highest first (all fields when there are fewer than
    five): each entry pairs a field of [fieldSuccessRates] with one minus its
    success rate, the rates do not increase along the list, and a field that
    is not listed has a failure rate not above that of any listed entry. *)
Theorem mostFailedFields_are_the_worst_five (results : list TestResult.t) :
  let rates := MetricsResult.fieldSuccessRates (calculateMetrics results) in
  let worst := mostFailedFields results in
  List.length worst = Nat.min 5 (List.length rates)
  /\ (forall e, In e worst ->
        exists rate, Record_get (FailedField.field e) rates = Some rate
                     /\ FailedField.failureRate e = (1 - rate)%float)
  /\ StronglySorted
       (fun a b => PrimFloat.leb (FailedField.failureRate b) (FailedField.failureRate a) = true)
       worst
  /\ (forall field rate,
        Record_get field rates = Some rate ->
        In field (map FailedField.field worst)
        \/ forall e, In e worst ->
                     PrimFloat.leb (1 - rate) (FailedField.failureRate e) = true).
Proof.
  intros rates worst. subst rates worst. unfold mostFailedFields.
  set (candidates :=
         map (fun entry : string * (nat * nat) =>
                let '(field, (success, total)) := entry in
                {| FailedField.field := field;
                   FailedField.failureRate :=
                     (1 - Number_of_nat success / Number_of_nat total)%float |})
             (countFields results)).
  set (comparefn := fun a b : FailedField.t =>
                      (FailedField.failureRate b - FailedField.failureRate a)%float).
  set (sorted := Array_sort comparefn candidates).
  pose proof (Array_sort_Permutation comparefn candidates) as Hperm. fold sorted in Hperm.
  assert (Hspec : forall e, In e sorted <->
            exists rate,
              Record_get (FailedField.field e)
                (MetricsResult.fieldSuccessRates (calculateMetrics results)) = Some rate
              /\ FailedField.failureRate e = (1 - rate)%float).
  { intros e. rewrite <- candidates_spec. fold candidates. split.
    - apply Permutation_in. exact Hperm.
    - apply Permutation_in. now symmetry. }
  assert (Hnan : forall e, In e sorted -> PrimFloat.is_nan (FailedField.failureRate e) = false).
  { intros e He. apply (candidates_not_nan results). now apply Hspec. }
  assert (Hasc : ascending FailedField.t
                   (fun e => (- rank_of (FailedField.failureRate e))%Z) sorted).
  { apply Array_sort_ascending. intros x y Hx Hy. unfold comparefn.
    assert (Nx : PrimFloat.is_nan (FailedField.failureRate x) = false)
      by (apply Hnan; eapply Permutation_in; [symmetry; exact Hperm | exact Hx]).
    assert (Ny : PrimFloat.is_nan (FailedField.failureRate y) = false)
      by (apply Hnan; eapply Permutation_in; [symmetry; exact Hperm | exact Hy]).
    rewrite (sub_negative _ _ Ny Nx), (ltb_rank _ _ Ny Nx).
    destruct (Z.ltb_spec (rank_of (FailedField.failureRate y)) (rank_of (FailedField.failureRate x))),
             (Z.ltb_spec (- rank_of (FailedField.failureRate x)) (- rank_of (FailedField.failureRate y)));
      try reflexivity; lia. }
  unfold ascending in Hasc. rewrite <- (firstn_skipn 5 sorted) in Hasc.
  apply StronglySorted_app_inv in Hasc. destruct Hasc as (Hfirst & _ & Hcross).
  split; [| split; [| split]].
  - rewrite length_firstn. f_equal.
    rewrite (Permutation_length Hperm). unfold candidates, calculateMetrics.
    cbn [MetricsResult.fieldSuccessRates]. now rewrite !length_map.
  - intros e He. apply Hspec. eapply In_firstn; exact He.
  - assert (Hsub : forall e, In e (firstn 5 sorted) -> In e sorted)
      by (intros e; apply In_firstn).
    revert Hfirst Hsub. generalize (firstn 5 sorted) as l.
    induction l as [| a l IH]; intros Hs Hsub; [constructor |].
    apply StronglySorted_inv in Hs. destruct Hs as [Hs Ha].
    constructor.
    + apply IH; [exact Hs |]. intros e He. apply Hsub. now right.
    + rewrite Forall_forall in Ha |- *. intros b Hb.
      rewrite leb_rank;
        [| apply Hnan, Hsub; now right | apply Hnan, Hsub; now left].
      apply Z.leb_le. specialize (Ha b Hb). cbv beta in Ha. lia.
  - intros field rate Hr.
    set (c0 := {| FailedField.field := field; FailedField.failureRate := (1 - rate)%float |}).
    assert (Hc0 : In c0 sorted).
    { apply Hspec. exists rate. split; [exact Hr | reflexivity]. }
    rewrite <- (firstn_skipn 5 sorted) in Hc0. apply in_app_or in Hc0.
    destruct Hc0 as [Hin | Hin].
    + left. apply (in_map FailedField.field) in Hin. exact Hin.
    + right. intros e He. specialize (Hcross e c0 He Hin). cbv beta in Hcross.
      change (1 - rate)%float with (FailedField.failureRate c0).
      rewrite leb_rank.
      * apply Z.leb_le. lia.
      * apply Hnan. eapply In_skipn; exact Hin.
      * apply Hnan. eapply In_firstn; exact He.
Qed.

(** ** The number branch *)

Section NumberSymmetry.
Local Open Scope Z_scope.

Lemma SFabs_binary_round_aux (s : bool) (m e : Z) (l : location) :
  SFabs (binary_round_aux prec emax s m e l)
  = SFabs (binary_round_aux prec emax false m e l).
Proof.
  unfold binary_round_aux.
  destruct (shr_fexp prec emax m e l) as [mrs' e'].
  destruct (shr_fexp prec emax (round_nearest_even (shr_m mrs') (loc_of_shr_record mrs')) e' loc_Exact)
    as [mrs'' e''].
  destruct (shr_m mrs''); try reflexivity.
  destruct (e'' <=? emax - prec); reflexivity.
Qed.

Lemma SFabs_binary_normalize_opp (M e : Z) :
  SFabs (binary_normalize prec emax (- M) e false)
  = SFabs (binary_normalize prec emax M e false).
Proof.
  destruct M as [| p | p]; cbn [Z.opp binary_normalize]; try reflexivity;
    unfold binary_round;
    destruct (shl_align p e (fexp prec emax (Zpos (digits2_pos p) + e))) as [mz ez].
  - apply SFabs_binary_round_aux.
  - symmetry. apply SFabs_binary_round_aux.
Qed.

(** [|x - y|] and [|y - x|] are the same double. *)
Lemma SFabs_SFsub_sym (x y : spec_float) :
  SFabs (SFsub prec emax x y) = SFabs (SFsub prec emax y x).
Proof.
  destruct x as [sx | sx | | sx mx ex], y as [sy | sy | | sy my ey];
    try reflexivity; try (destruct sx, sy; reflexivity).
  cbn [SFsub]. cbv zeta. rewrite (Z.min_comm ey ex).
  rewrite <- SFabs_binary_normalize_opp. f_equal. f_equal. lia.
Qed.

Lemma rank_inj_nonneg (x y : spec_float) :
  valid_binary x = true -> valid_binary y = true ->
  signed false x -> signed false y -> rank x = rank y -> x = y.
Proof.
  intros Vx Vy [-> | [-> | (mx & ex & ->)]] [-> | [-> | (my & ey & ->)]];
    try (pose proof (rank_finite_pos mx ex Vx) as Rx);
    try (pose proof (rank_finite_pos my ey Vy) as Ry);
    cbn [rank]; cbv zeta; intros H; try reflexivity;
    try (change (2 ^ 53) with 9007199254740992 in *; lia).
  apply valid_finite_bounds in Vx, Vy.
  destruct Vx as (_ & Bx & _), Vy as (_ & By & _).
  change (2 ^ 53) with 9007199254740992 in *.
  assert (ex = ey) by lia. subst ey.
  assert (Zpos mx = Zpos my) by lia. congruence.
Qed.

Lemma SFeqb_sym (x y : spec_float) : SFeqb x y = SFeqb y x.
Proof.
  unfold SFeqb.
  destruct x as [s1 | s1 | | s1 m1 e1], y as [s2 | s2 | | s2 m2 e2];
    try reflexivity; try (destruct s1, s2; reflexivity).
  cbn [SFcompare]. rewrite !compare_cont_Eq.
  destruct (Z.compare_spec e1 e2), (Z.compare_spec e2 e1); try lia;
    destruct (Z.compare_spec (Zpos m1) (Zpos m2)), (Z.compare_spec (Zpos m2) (Zpos m1));
    try lia; destruct s1, s2; reflexivity.
Qed.

End NumberSymmetry.

Lemma abs_sub_sym (x y : float) : Math_abs (x - y) = Math_abs (y - x).
Proof.
  unfold Math_abs. apply Prim2SF_inj.
  rewrite !FloatAxioms.abs_spec, !FloatAxioms.sub_spec. apply SFabs_SFsub_sym.
Qed.

Lemma abs_signed (x : float) :
  PrimFloat.is_nan x = false -> signed false (Prim2SF (Math_abs x)).
Proof.
  intros H. unfold Math_abs. rewrite FloatAxioms.abs_spec.
  rewrite is_nan_SF in H.
  destruct (Prim2SF x) as [s | s | | s m e]; try discriminate; cbn [SFabs].
  - now left.
  - right. now left.
  - right. right. eauto.
Qed.

Lemma is_nan_abs (x : float) : PrimFloat.is_nan (Math_abs x) = PrimFloat.is_nan x.
Proof.
  unfold Math_abs. rewrite !is_nan_SF, FloatAxioms.abs_spec.
  now destruct (Prim2SF x).
Qed.

(** The larger of two magnitudes does not depend on their order. *)
Lemma Math_max_abs_sym (x y : float) :
  Math_max (Math_abs x) (Math_abs y) = Math_max (Math_abs y) (Math_abs x).
Proof.
  unfold Math_max. rewrite !is_nan_abs, (orb_comm (PrimFloat.is_nan y)).
  destruct (PrimFloat.is_nan x) eqn:Nx; [reflexivity |].
  destruct (PrimFloat.is_nan y) eqn:Ny; [reflexivity |]. cbn [orb].
  assert (Ax : PrimFloat.is_nan (Math_abs x) = false) by (now rewrite is_nan_abs).
  assert (Ay : PrimFloat.is_nan (Math_abs y) = false) by (now rewrite is_nan_abs).
  rewrite (ltb_rank _ _ Ax Ay), (ltb_rank _ _ Ay Ax).
  destruct (Z.ltb_spec (rank_of (Math_abs x)) (rank_of (Math_abs y))) as [H1 | H1];
    destruct (Z.ltb_spec (rank_of (Math_abs y)) (rank_of (Math_abs x))) as [H2 | H2];
    try reflexivity; try lia.
  assert (E : Math_abs x = Math_abs y).
  { apply Prim2SF_inj. apply rank_inj_nonneg; try apply Prim2SF_valid;
      try (now apply abs_signed). unfold rank_of in *. lia. }
  rewrite E. now destruct (PrimFloat.get_sign (Math_abs y)).
Qed.

(** X19: the number branch does not depend on which of the two numbers is
    the expected one: [areNumbersClose] and the similarity are the same
    either way, and so is the verdict of [deepCompare] on two numbers. *)
Theorem number_comparison_is_symmetric (n1 n2 : float) (p : list string) :
  areNumbersClose n1 n2 = areNumbersClose n2 n1
  /\ numberSimilarity n1 n2 = numberSimilarity n2 n1
  /\ fst (deepCompare (VNum n1) (VNum n2) p [])
     = fst (deepCompare (VNum n2) (VNum n1) p [])
  /\ List.length (snd (deepCompare (VNum n1) (VNum n2) p []))
     = List.length (snd (deepCompare (VNum n2) (VNum n1) p [])).
Proof.
  assert (Hclose : areNumbersClose n1 n2 = areNumbersClose n2 n1).
  { unfold areNumbersClose. now rewrite abs_sub_sym, Math_max_abs_sym. }
  assert (Hsim : numberSimilarity n1 n2 = numberSimilarity n2 n1).
  { unfold numberSimilarity. now rewrite abs_sub_sym, Math_max_abs_sym. }
  split; [exact Hclose |]. split; [exact Hsim |].
  rewrite !deepCompare_unfold. cbn [strict_eq truthy typeof type_tag_eqb negb].
  assert (Heq : PrimFloat.eqb n1 n2 = PrimFloat.eqb n2 n1).
  { rewrite !FloatAxioms.eqb_spec. apply SFeqb_sym. }
  rewrite Heq. destruct (PrimFloat.eqb n2 n1); [split; reflexivity |].
  rewrite (orb_comm (negb (negb (PrimFloat.eqb n1 0 || PrimFloat.is_nan n1)))).
  destruct (negb (negb (PrimFloat.eqb n2 0 || PrimFloat.is_nan n2))
            || negb (negb (PrimFloat.eqb n1 0 || PrimFloat.is_nan n1)));
    [split; reflexivity |].
  cbn [fst snd]. rewrite Hsim, Hclose.
  split; [reflexivity |]. now destruct (areNumbersClose n2 n1).
Qed.

(** ** Failures and their differences; arrays against objects *)

Lemma deepCompare_grows (e a : value) (p : list string) (d : list ValueDifference) :
  (List.length d <= List.length (snd (deepCompare e a p d)))%nat.
Proof.
  rewrite deepCompare_accumulates. cbn [snd]. rewrite length_app. lia.
Qed.

Lemma every_false_grows {A : Type}
    (f : A -> nat -> list ValueDifference -> bool * list ValueDifference)
    (items : list A) :
  Forall (fun item => forall i d,
            (List.length d <= List.length (snd (f item i d)))%nat
            /\ (fst (f item i d) = false ->
                (List.length d < List.length (snd (f item i d)))%nat)) items ->
  forall i d,
    fst (every f items i d) = false ->
    (List.length d < List.length (snd (every f items i d)))%nat.
Proof.
  induction 1 as [| x items Hx _ IH]; intros i d; cbn [every].
  - cbn. discriminate.
  - destruct (Hx i d) as [Hle Hlt]. destruct (f x i d) as [ok d']. cbn [fst snd] in *.
    destruct ok.
    + intros H. specialize (IH (S i) d' H). lia.
    + cbn [fst snd]. intros _. now apply Hlt.
Qed.

Lemma string_fails_with_record (e a : string) :
  e <> "" ->
  PrimFloat.ltb 0 (calculateStringSimilarity e a) = false ->
  PrimFloat.ltb (calculateStringSimilarity e a) 1 = true.
Proof.
  intros He H. pose proof (calculateStringSimilarity_in_unit e a He) as Hu.
  pose proof (in_unit_not_nan _ Hu) as Hn. destruct Hu as [H0 H1].
  rewrite (ltb_rank 0 _ eq_refl Hn) in H. rewrite (ltb_rank _ 1 Hn eq_refl).
  change (rank_of 0) with 0%Z in H.
  change (rank_of 1) with ((-52 + 1075) * 2 ^ 53 + 4503599627370496)%Z.
  apply Z.ltb_ge in H. apply Z.ltb_lt.
  change (2 ^ 53)%Z with 9007199254740992%Z. lia.
Qed.

Lemma deepCompare_false_grows (e : value) :
  number_free e = true ->
  forall (a : value) (p : list string) (d : list ValueDifference),
    fst (deepCompare e a p d) = false ->
    (List.length d < List.length (snd (deepCompare e a p d)))%nat.
Proof.
  induction e using value_ind; intros Hnf a pth d; rewrite deepCompare_unfold.
  all: destruct (strict_eq _ a) eqn:Eeq; [cbn; discriminate |].
  all: destruct (negb (truthy _) || negb (truthy a)) eqn:Etruthy;
    [intros _; cbn [snd]; rewrite length_app; cbn; lia |].
  all: destruct (negb (type_tag_eqb (typeof _) (typeof a))) eqn:Etype;
    [intros _; cbn [snd]; rewrite length_app; cbn; lia |].
  all: cbn [typeof type_tag_eqb].
  all: try (cbn [Array_isArray andb]; intros _; cbn [snd]; rewrite length_app; cbn; lia).
  all: try (cbn in Etruthy; discriminate Etruthy).
  all: try discriminate Hnf.
  - destruct a; try discriminate Etype. cbn [fst snd]. intros Hv.
    rewrite string_fails_with_record; [rewrite length_app; cbn; lia | | exact Hv].
    intros ->. discriminate Etruthy.
  - cbn [number_free] in Hnf. rewrite forallb_forall in Hnf.
    assert (Hevery : forall a' d',
              fst (every (fun item index differences =>
                       deepCompare item (get a' (Number_toString index))
                         (pth ++ [Number_toString index]) differences)
                    items 0 d') = false ->
              (List.length d' <
               List.length (snd (every (fun item index differences =>
                       deepCompare item (get a' (Number_toString index))
                         (pth ++ [Number_toString index]) differences)
                    items 0 d')))%nat).
    { intros a' d'. apply every_false_grows.
      rewrite Forall_forall in H |- *. intros item Hin i d0. split.
      - apply deepCompare_grows.
      - apply H; [exact Hin | now apply Hnf]. }
    destruct (Array_isArray (VArr items) && Array_isArray a).
    + destruct (negb (array_length (VArr items) =? array_length a)%nat);
        [intros _; cbn [snd]; rewrite length_app; cbn; lia | apply Hevery].
    + match goal with |- context [if ?c then _ else _] => destruct c end;
        [intros _; cbn [snd]; rewrite length_app; cbn; lia | apply Hevery].
  - cbn [number_free] in Hnf. rewrite forallb_forall in Hnf.
    cbn [Array_isArray andb].
    match goal with |- context [if ?c then _ else _] => destruct c end;
      [intros _; cbn [snd]; rewrite length_app; cbn; lia |].
    apply every_false_grows.
    rewrite Forall_forall in H |- *. intros field Hin i d0. split.
    + apply deepCompare_grows.
    + apply H; [exact Hin | now apply Hnf].
  - destruct (Array_isArray (VProto p) && Array_isArray a).
    + destruct (negb (array_length (VProto p) =? array_length a)%nat);
        [intros _; cbn [snd]; rewrite length_app; cbn; lia | cbn; discriminate].
    + match goal with |- context [if ?c then _ else _] => destruct c end;
        [intros _; cbn [snd]; rewrite length_app; cbn; lia | cbn; discriminate].
Qed.

(** X20: when the expected tree holds no number, a comparison that fails
    reports why: [deepCompare] returning [false] has pushed at least one
    difference, and [compareResponses] with [isMatch] false carries a
    non-empty [differences].  (Two numbers can fail without a difference:
    0.05 against -0.05 is within the tolerance, so nothing is recorded, and
    has similarity 0, so the verdict is [false].) *)
Theorem failed_comparison_reports_a_difference
    (JSON_parse : string -> completion value) (expected actual e a : value)
    (p : list string) (d : list ValueDifference) :
  number_free e = true ->
  (fst (deepCompare e a p d) = false ->
   (List.length d < List.length (snd (deepCompare e a p d)))%nat)
  /\ (parse_if_string JSON_parse expected = Normal e ->
      parse_if_string JSON_parse actual = Normal a ->
      exists c, compareResponses JSON_parse expected actual = Normal c
                /\ (ComparisonResult.isMatch c = false ->
                    exists x rest, ComparisonResult.differences c = Some (x :: rest)))
  /\ deepCompare (VNum 0x1.999999999999ap-5) (VNum (-0x1.999999999999ap-5)) p d = (false, d).
Proof.
  intros Hnf. split; [now apply deepCompare_false_grows |]. split.
  - intros He Ha. eexists. split; [apply (compareResponses_parsed _ _ _ _ _ He Ha) |].
    cbn [ComparisonResult.isMatch ComparisonResult.differences]. intros Hfalse.
    pose proof (deepCompare_false_grows e Hnf a [] [] Hfalse) as Hlen.
    destruct (snd (deepCompare e a [] [])) as [| x rest]; [cbn in Hlen; lia |].
    exists x, rest. reflexivity.
  - rewrite deepCompare_unfold. vm_compute. reflexivity.
Qed.

Lemma failed_comparison_reports_a_difference_witness :
  (fst (deepCompare (VObj [("name", VStr "Ada"); ("tags", VArr [VStr "x"])])
                    (VObj [("name", VStr "Bob"); ("tags", VArr [VBool true])]) [] []) = false ->
   (List.length (@nil ValueDifference)
    < List.length (snd (deepCompare (VObj [("name", VStr "Ada"); ("tags", VArr [VStr "x"])])
                                    (VObj [("name", VStr "Bob"); ("tags", VArr [VBool true])])
                                    [] [])))%nat)
  /\ (parse_if_string parse_literal (VObj [("name", VStr "Ada"); ("tags", VArr [VStr "x"])])
      = Normal (VObj [("name", VStr "Ada"); ("tags", VArr [VStr "x"])]) ->
      parse_if_string parse_literal (VObj [("name", VStr "Bob"); ("tags", VArr [VBool true])])
      = Normal (VObj [("name", VStr "Bob"); ("tags", VArr [VBool true])]) ->
      exists c, compareResponses parse_literal
                  (VObj [("name", VStr "Ada"); ("tags", VArr [VStr "x"])])
                  (VObj [("name", VStr "Bob"); ("tags", VArr [VBool true])]) = Normal c
                /\ (ComparisonResult.isMatch c = false ->
                    exists x rest, ComparisonResult.differences c = Some (x :: rest)))
  /\ deepCompare (VNum 0x1.999999999999ap-5) (VNum (-0x1.999999999999ap-5)) [] [] = (false, []).
Proof. apply failed_comparison_reports_a_difference. reflexivity. Defined.

Lemma indexed_from_keys (items : list value) (i : nat) :
  map fst (indexed_from i items) = map Number_toString (seq i (List.length items)).
Proof.
  revert i. induction items as [| x items IH]; intros i; [reflexivity |].
  cbn [indexed_from map fst List.length seq]. now rewrite IH.
Qed.

Lemma indexed_from_nth (items : list value) (i j : nat) (field : string * value) :
  nth_error (indexed_from i items) j = Some field ->
  fst field = Number_toString (i + j) /\ nth_error items j = Some (snd field).
Proof.
  revert i j. induction items as [| x items IH]; intros i j H.
  - destruct j; discriminate H.
  - destruct j as [| j]; cbn [indexed_from nth_error] in H.
    + injection H as <-. cbn [fst snd nth_error]. now rewrite Nat.add_0_r.
    + apply IH in H. now replace (i + S j) with (S i + j) by lia.
Qed.

Lemma lookup_indexed_from (items : list value) (i j : nat) :
  lookup (Number_toString (i + j)) (indexed_from i items) = nth_error items j.
Proof.
  revert i j. induction items as [| x items IH]; intros i j.
  - now destruct j.
  - cbn [indexed_from lookup]. destruct j as [| j].
    + now rewrite Nat.add_0_r, String.eqb_refl.
    + destruct (String.eqb_spec (Number_toString (i + S j)) (Number_toString i)) as [E | _].
      * apply Number_toString_inj in E. lia.
      * replace (i + S j) with (S i + j) by lia. apply IH.
Qed.

Lemma has_property_index (items : list value) (j : nat) :
  (j < List.length items)%nat -> has_property (Number_toString j) (VArr items) = true.
Proof.
  intros Hj. unfold has_property, get_property. rewrite find_index_Some by lia.
  destruct (nth_error items j) eqn:E; [reflexivity |].
  apply nth_error_None in E. lia.
Qed.

Lemma indices_In (n : nat) (k : string) :
  In k (map Number_toString (seq 0 n)) -> exists j, (j < n)%nat /\ k = Number_toString j.
Proof.
  intros H. apply in_map_iff in H. destruct H as [j [<- Hj]].
  apply in_seq in Hj. exists j. split; [lia | reflexivity].
Qed.

(** X21: an array and the plain object that holds its elements under its
    indices match, whichever of the two is the expected one: both have type
    ['object'], every index of the array is a key of the object and the
    other way round, and the elements are compared with themselves. *)
Theorem array_matches_object_with_its_indices (items : list value)
    (p : list string) (d : list ValueDifference) :
  well_formed (VArr items) = true ->
  deepCompare (VArr items) (VObj (indexed_from 0 items)) p d = (true, d)
  /\ deepCompare (VObj (indexed_from 0 items)) (VArr items) p d = (true, d).
Proof.
  intros Hwf. cbn [well_formed] in Hwf. rewrite forallb_forall in Hwf.
  assert (Hkey_obj : forall k, In k (map Number_toString (seq 0 (List.length items))) ->
            has_property k (VObj (indexed_from 0 items)) = true).
  { intros k Hk. apply has_property_lookup. now rewrite indexed_from_keys. }
  assert (Hkey_arr : forall k, In k (map Number_toString (seq 0 (List.length items))) ->
            has_property k (VArr items) = true).
  { intros k Hk. apply indices_In in Hk. destruct Hk as [j [Hj ->]].
    now apply has_property_index. }
  split; rewrite deepCompare_unfold;
    cbn [strict_eq truthy negb orb typeof type_tag_eqb Array_isArray andb Object_keys];
    rewrite indexed_from_keys, !filter_nil
      by (intros k Hk; apply negb_false_iff; auto);
    cbn [List.length Nat.ltb Nat.leb orb].
  - apply every_pass. intros j item d' Hj. cbn [Nat.add].
    unfold get, get_property.
    rewrite <- (Nat.add_0_l j) at 1. rewrite lookup_indexed_from, Hj.
    apply deepCompare_same. apply Hwf. eapply nth_error_In; exact Hj.
  - apply every_pass. intros j field d' Hj. cbn [Nat.add].
    apply indexed_from_nth in Hj. destruct Hj as [Hk Hv]. cbn [Nat.add] in Hk.
    rewrite Hk, get_index by (apply nth_error_Some; congruence).
    rewrite (nth_error_nth _ _ _ Hv).
    apply deepCompare_same. apply Hwf. eapply nth_error_In; exact Hv.
Qed.

Lemma array_matches_object_with_its_indices_witness :
  deepCompare (VArr [VStr "a"; VNum 2]) (VObj (indexed_from 0 [VStr "a"; VNum 2])) [] []
  = (true, [])
  /\ deepCompare (VObj (indexed_from 0 [VStr "a"; VNum 2])) (VArr [VStr "a"; VNum 2]) [] []
     = (true, []).
Proof. apply array_matches_object_with_its_indices. reflexivity. Defined.

(** ** Doubles strictly below 1, and the string branch *)

Section StrictBounds.
Local Open Scope Z_scope.

Lemma shr_fexp_below_one (m e : Z) (l : location) :
  below_one m e l ->
  below_one (shr_m (fst (shr_fexp prec emax m e l)))
            (snd (shr_fexp prec emax m e l))
            (loc_of_shr_record (fst (shr_fexp prec emax m e l))).
Proof.
  intros (Hm & He & Hle & Hlt). unfold shr_fexp.
  assert (Pe : 0 < 2 ^ (-53 - e)) by (apply Z.pow_pos_nonneg; lia).
  assert (Epow : 2 ^ (- e) = 2 ^ 53 * 2 ^ (-53 - e)).
  { rewrite <- Z.pow_add_r by lia. f_equal. lia. }
  assert (Hdig : Zdigits2 m <= - e).
  { apply Zdigits2_le; [lia | lia |]. rewrite Epow. nia. }
  rewrite fexp_64.
  destruct (Z.max (Zdigits2 m + e - 53) (-1074) - e) as [| p | p] eqn:En;
    cbn [shr fst snd];
    try (destruct (loc_of_shr_record_of_loc m l) as [-> ->];
         repeat split; assumption).
  assert (H0 : shr_inv m (negb (match l with loc_Exact => true | _ => false end)) 0
                 (shr_record_of_loc m l)).
  { split; [rewrite Z.div_1_r; apply loc_of_shr_record_of_loc |].
    intros H. left. apply shr_record_of_loc_bits in H. now destruct l. }
  apply (shr_inv_iter m _ Hm p 0) in H0; [| lia].
  destruct H0 as [Hq Hi]. rewrite Z.add_0_l in Hq, Hi.
  set (e' := e + Zpos p) in *.
  assert (He' : e' <= -53) by lia.
  assert (Hpow : 2 ^ (-53 - e) = 2 ^ (-53 - e') * 2 ^ Zpos p).
  { rewrite <- Z.pow_add_r by lia. f_equal. lia. }
  assert (Hp : 0 < 2 ^ Zpos p) by (apply Z.pow_pos_nonneg; lia).
  assert (Hp' : 0 < 2 ^ (-53 - e')) by (apply Z.pow_pos_nonneg; lia).
  set (B := (2 ^ 53 - 1) * 2 ^ (-53 - e')) in *.
  assert (HB : (2 ^ 53 - 1) * 2 ^ (-53 - e) = B * 2 ^ Zpos p)
    by (unfold B; rewrite Hpow; ring).
  rewrite HB in Hle, Hlt.
  rewrite Hq. repeat split.
  - apply Z.div_pos; lia.
  - exact He'.
  - apply Z.div_le_upper_bound; [lia |]. lia.
  - intros Hloc. apply loc_inexact_bits in Hloc. apply Hi in Hloc.
    assert (Hstrict : m < B * 2 ^ Zpos p).
    { destruct Hloc as [Hl | Hmod].
      - assert (l <> loc_Exact) by (destruct l; [discriminate | discriminate]).
        specialize (Hlt H). lia.
      - assert (m <> B * 2 ^ Zpos p); [| lia].
        intros ->. apply Hmod. apply Z.mod_mul. lia. }
    assert (m / 2 ^ Zpos p < B); [| lia].
    apply Z.div_lt_upper_bound; lia.
Qed.

Lemma round_nearest_even_below_one (m e : Z) (l : location) :
  below_one m e l -> below_one (round_nearest_even m l) e loc_Exact.
Proof.
  intros (Hm & He & Hle & Hlt).
  assert (H : round_nearest_even m l = m
              \/ (round_nearest_even m l = m + 1 /\ l <> loc_Exact)).
  { destruct l as [| []]; cbn [round_nearest_even]; auto.
    - destruct (Z.even m); [auto | right; split; [reflexivity | discriminate]].
    - right. split; [reflexivity | discriminate]. }
  destruct H as [-> | [-> Hl]]; repeat split; try lia; try congruence.
  specialize (Hlt Hl). lia.
Qed.

(** Rounding a value that is at most the double before 1 gives a double
    below 1. *)
Lemma binary_round_aux_below_one (mx ex : Z) (lx : location) :
  below_one mx ex lx ->
  binary_round_aux prec emax false mx ex lx = S754_zero false
  \/ exists m e, binary_round_aux prec emax false mx ex lx = S754_finite false m e
                 /\ e <= -53.
Proof.
  intros H. unfold binary_round_aux.
  pose proof (shr_fexp_below_one mx ex lx H) as H1.
  destruct (shr_fexp prec emax mx ex lx) as [mrs' e']. cbn [fst snd] in H1.
  apply round_nearest_even_below_one in H1.
  apply shr_fexp_below_one in H1.
  destruct (shr_fexp prec emax (round_nearest_even (shr_m mrs') (loc_of_shr_record mrs')) e' loc_Exact)
    as [mrs'' e'']. cbn [fst snd] in H1.
  destruct H1 as (Hm & He & Hle & _).
  destruct (shr_m mrs'') as [| m | m]; [now left | | lia].
  right. exists m, e''.
  assert (Hb : (e'' <=? emax - prec) = true) by (apply Z.leb_le; unfold emax, prec; lia).
  rewrite Hb. auto.
Qed.

Lemma below_one_ltb (x : spec_float) :
  (x = S754_zero false \/ exists m e, x = S754_finite false m e /\ e <= -53) ->
  SFltb x one_SF = true.
Proof.
  intros [-> | (m & e & -> & He)]; [reflexivity |].
  unfold SFltb, one_SF, SFcompare.
  destruct (Z.compare_spec e (-52)); [lia | reflexivity | lia].
Qed.

(** The quotient of two doubles holding the integers [a < b]. *)
Lemma SFdiv_integers_below_one (m1 m2 : positive) (k1 k2 a b : Z) :
  0 <= k1 -> 0 <= k2 ->
  Zpos m1 = a * 2 ^ k1 -> Zpos m2 = b * 2 ^ k2 -> a < b -> b <= 2 ^ 53 ->
  SFltb (SFdiv prec emax (S754_finite false m1 (- k1)) (S754_finite false m2 (- k2)))
        one_SF = true.
Proof.
  intros Hk1 Hk2 H1 H2 Hab Hb53. apply below_one_ltb.
  assert (P1 : 0 < 2 ^ k1) by (apply Z.pow_pos_nonneg; lia).
  assert (P2 : 0 < 2 ^ k2) by (apply Z.pow_pos_nonneg; lia).
  assert (Ha : 1 <= a) by nia.
  assert (Hb : 1 <= b) by nia.
  pose proof (digits2_pos_bounds m1) as [D1lo D1hi].
  pose proof (digits2_pos_bounds m2) as [D2lo D2hi].
  set (d1 := Zpos (digits2_pos m1)) in *. set (d2 := Zpos (digits2_pos m2)) in *.
  assert (Hd1 : k1 < d1).
  { destruct (Z_lt_ge_dec k1 d1) as [H | H]; [exact H | exfalso].
    assert (2 ^ d1 <= 2 ^ k1) by (apply Z.pow_le_mono_r; unfold d1; lia). nia. }
  assert (Hd2 : k2 < d2).
  { destruct (Z_lt_ge_dec k2 d2) as [H | H]; [exact H | exfalso].
    assert (2 ^ d2 <= 2 ^ k2) by (apply Z.pow_le_mono_r; unfold d2; lia). nia. }
  assert (Hdig : d1 - k1 <= d2 - k2).
  { destruct (Z_le_gt_dec (d1 - k1) (d2 - k2)) as [H | H]; [exact H | exfalso].
    assert (E1 : 2 ^ (d1 - 1) = 2 ^ (d1 - 1 - k1) * 2 ^ k1).
    { rewrite <- Z.pow_add_r by lia. f_equal. lia. }
    assert (E2 : 2 ^ d2 = 2 ^ (d2 - k2) * 2 ^ k2).
    { rewrite <- Z.pow_add_r by lia. f_equal. lia. }
    assert (2 ^ (d2 - k2) <= 2 ^ (d1 - 1 - k1)) by (apply Z.pow_le_mono_r; lia).
    assert (2 ^ (d1 - 1 - k1) <= a) by nia.
    assert (b < 2 ^ (d2 - k2)) by nia.
    lia. }
  cbn [SFdiv xorb]. unfold SFdiv_core_binary. cbn [Zdigits2].
  fold d1 d2. rewrite fexp_64.
  set (e' := Z.min (Z.max (d1 + - k1 - (d2 + - k2) - 53) (-1074)) (- k1 - - k2)).
  assert (He' : e' <= -53) by (unfold e'; lia).
  assert (Hs : 0 <= - k1 - - k2 - e') by (unfold e'; lia).
  set (s := - k1 - - k2 - e') in *.
  assert (Hm' : match s with
                | 0 => Zpos m1
                | Zpos _ => Z.shiftl (Zpos m1) s
                | Zneg _ => 0
                end = Zpos m1 * 2 ^ s).
  { destruct s as [| ps | ps] eqn:Es; [rewrite Z.pow_0_r; lia | | lia].
    apply Z.shiftl_mul_pow2. lia. }
  rewrite Hm'. clear Hm'.
  pose proof (Z_div_mod (Zpos m1 * 2 ^ s) (Zpos m2) ltac:(lia)) as Hdm.
  destruct (Z.div_eucl (Zpos m1 * 2 ^ s) (Zpos m2)) as [q r].
  destruct Hdm as [Hq Hr].
  assert (Ps : 0 < 2 ^ s) by (apply Z.pow_pos_nonneg; lia).
  assert (Pe : 0 < 2 ^ (-53 - e')) by (apply Z.pow_pos_nonneg; lia).
  set (B := (2 ^ 53 - 1) * 2 ^ (-53 - e')).
  assert (Hle : Zpos m1 * 2 ^ s <= Zpos m2 * B).
  { unfold B. rewrite H1, H2, <- !Z.mul_assoc, <- !Z.pow_add_r by lia.
    replace (k1 + s) with (k2 + 53 + (-53 - e')) by (unfold s; lia).
    rewrite !Z.pow_add_r by lia.
    assert (a * 2 ^ 53 <= b * (2 ^ 53 - 1)).
    { change (2 ^ 53) with 9007199254740992 in *. lia. }
    assert (0 < 2 ^ k2 * 2 ^ (-53 - e')) by lia.
    replace (a * (2 ^ k2 * 2 ^ 53 * 2 ^ (-53 - e')))
      with (a * 2 ^ 53 * (2 ^ k2 * 2 ^ (-53 - e'))) by ring.
    replace (b * (2 ^ k2 * ((2 ^ 53 - 1) * 2 ^ (-53 - e'))))
      with (b * (2 ^ 53 - 1) * (2 ^ k2 * 2 ^ (-53 - e'))) by ring.
    apply Z.mul_le_mono_nonneg_r; lia. }
  assert (HB : 0 < B) by (unfold B; change (2 ^ 53) with 9007199254740992; lia).
  assert (Hone : below_one q e' (new_location (Zpos m2) r)).
  { unfold below_one. fold B. repeat split.
    - nia.
    - lia.
    - nia.
    - intros Hl. apply new_location_exact in Hl. nia. }
  exact (binary_round_aux_below_one _ _ _ Hone).
Qed.

End StrictBounds.

(** A proper fraction of two counts is a double below 1. *)
Lemma div_Number_of_nat_below_one (a b : nat) :
  (a < b)%nat -> (Z.of_nat b < 2 ^ 53)%Z ->
  PrimFloat.ltb (Number_of_nat a / Number_of_nat b) 1 = true.
Proof.
  intros Hab Hb.
  destruct a as [| a'].
  - rewrite Number_of_nat_div_zero by lia. reflexivity.
  - rewrite FloatAxioms.ltb_spec, FloatAxioms.div_spec, Prim2SF_1, !Prim2SF_Number_of_nat.
    unfold SF64div.
    assert (Ha' : Z.min (Z.of_nat (S a')) MAX_SAFE_INTEGER = Z.of_nat (S a'))
      by (unfold MAX_SAFE_INTEGER; lia).
    assert (Hb' : Z.min (Z.of_nat b) MAX_SAFE_INTEGER = Z.of_nat b)
      by (unfold MAX_SAFE_INTEGER; lia).
    rewrite Ha', Hb'.
    destruct (exact_double_finite (Z.of_nat (S a')) ltac:(lia))
      as (m1 & d1 & E1 & Hd1 & Hm1 & _ & _).
    destruct (exact_double_finite (Z.of_nat b) ltac:(lia))
      as (m2 & d2 & E2 & Hd2 & Hm2 & _ & _).
    rewrite E1, E2.
    replace (d1 - 53)%Z with (- (53 - d1))%Z by lia.
    replace (d2 - 53)%Z with (- (53 - d2))%Z by lia.
    apply (SFdiv_integers_below_one m1 m2 (53 - d1) (53 - d2)
             (Z.of_nat (S a')) (Z.of_nat b)); try lia; assumption.
Qed.

Section LowerBounds.
Local Open Scope Z_scope.





End LowerBounds.


Section PositiveDifference.
Local Open Scope Z_scope.



End PositiveDifference.






(** ** The test command *)

Lemma copy_messages (l : list Message.t) :
  map (fun msg => {| Message.role := Message.role msg;
                     Message.content := Message.content msg |}) l = l.
Proof.
  induction l as [| [r c] l IH]; [reflexivity |]. cbn [map Message.role Message.content].
  now rewrite IH.
Qed.

(** Dropping the message at the last index when it is an assistant
    message. *)
Lemma filter_last_assistant (l : list Message.t) (i : nat) :
  filter_indexed
    (fun msg idx => negb ((Message.role msg =? "assistant")
                          && (idx =? i + List.length l - 1)%nat))
    l i
  = if Message.role (last l {| Message.role := ""; Message.content := "" |}) =? "assistant"
    then removelast l else l.
Proof.
  revert i. induction l as [| msg l IH]; intros i.
  - reflexivity.
  - cbn [filter_indexed List.length].
    destruct l as [| msg' l'].
    + cbn [List.length last removelast filter_indexed].
      replace (i + 1 - 1) with i by lia. rewrite Nat.eqb_refl, andb_true_r.
      now destruct (Message.role msg =? "assistant").
    + assert (Hi : (i =? i + S (List.length (msg' :: l')) - 1)%nat = false)
        by (apply Nat.eqb_neq; cbn [List.length]; lia).
      rewrite Hi, andb_false_r. cbn [negb].
      replace (i + S (List.length (msg' :: l')) - 1) with (S i + List.length (msg' :: l') - 1)
        by lia.
      rewrite IH.
      change (last (msg :: msg' :: l') {| Message.role := ""; Message.content := "" |})
        with (last (msg' :: l') {| Message.role := ""; Message.content := "" |}).
      change (removelast (msg :: msg' :: l')) with (msg :: removelast (msg' :: l')).
      now destruct (Message.role (last (msg' :: l') _) =? "assistant").
Qed.

Lemma last_filter_In {A : Type} (f : A -> bool) (l : list A) (dflt : A) :
  filter f l <> [] -> In (last (filter f l) dflt) l /\ f (last (filter f l) dflt) = true.
Proof.
  intros H.
  assert (Hin : In (last (filter f l) dflt) (filter f l)).
  { destruct (exists_last H) as (l' & x & E). rewrite E, last_last.
    apply in_or_app. right. now left. }
  now apply filter_In in Hin.
Qed.




(** X24: without a prompt override, the messages of a test case are the
    messages of the line, less the last one when that is an assistant
    message.  The expected response is the content of the last assistant
    message wherever it stands, so when the line does not end with an
    assistant message the test case still holds the message that carries the
    expected response. *)
Theorem expected_response_stays_unless_last
    (JSON_parse : string -> completion value) (skipValidation schema : bool)
    (lineNum : nat) (messages : list Message.t) (errors : list line_error)
    (testCase : TestCase.t) :
  processLine JSON_parse skipValidation schema None lineNum messages
  = (errors, Some testCase) ->
  let lastMessage := last messages {| Message.role := ""; Message.content := "" |} in
  (Message.role lastMessage = "assistant" ->
   TestCase.messages testCase = removelast messages)
  /\ (Message.role lastMessage <> "assistant" ->
      TestCase.messages testCase = messages
      /\ exists msg,
           In msg (TestCase.messages testCase)
           /\ Message.role msg = "assistant"
           /\ (if schema
               then JSON_parse (Message.content msg)
                    = Normal (TestCase.expectedResponse testCase)
               else TestCase.expectedResponse testCase = VStr (Message.content msg))).
Proof.
  unfold processLine.
  destruct (negb skipValidation && (List.length messages <? 1)%nat); [discriminate |].
  set (assistantMessages := filter (fun msg => Message.role msg =? "assistant") messages).
  destruct (List.length assistantMessages =? 0)%nat eqn:Elen; [discriminate |].
  set (expected := last assistantMessages {| Message.role := ""; Message.content := "" |}).
  assert (Hexp : In expected messages /\ Message.role expected = "assistant").
  { destruct (last_filter_In (fun msg => Message.role msg =? "assistant") messages
                {| Message.role := ""; Message.content := "" |}) as [H1 H2].
    - fold assistantMessages. intros E. rewrite E in Elen. discriminate.
    - split; [exact H1 | now apply String.eqb_eq]. }
  destruct (if schema then JSON_parse (Message.content expected)
            else Normal (VStr (Message.content expected))) as [parsed | err] eqn:Eparse;
    [| discriminate].
  intros [= <- <-]. cbv zeta. cbn [TestCase.messages TestCase.expectedResponse].
  rewrite copy_messages.
  pose proof (filter_last_assistant messages 0) as Hf. cbn [Nat.add] in Hf.
  rewrite Hf. clear Hf.
  split.
  - intros Hlast. apply String.eqb_eq in Hlast. now rewrite Hlast.
  - intros Hlast. apply String.eqb_neq in Hlast. rewrite Hlast.
    split; [reflexivity |]. exists expected.
    split; [apply Hexp |]. split; [apply Hexp |].
    destruct schema; [exact Eparse | now injection Eparse as <-].
Qed.

Lemma expected_response_stays_unless_last_witness :
  let messages := [ {| Message.role := "assistant"; Message.content := "true" |};
                    {| Message.role := "user"; Message.content := "Is it so?" |} ] in
  let testCase := {| TestCase.messages := messages;
                     TestCase.expectedResponse := VStr "true" |} in
  let lastMessage := last messages {| Message.role := ""; Message.content := "" |} in
  (Message.role lastMessage = "assistant" ->
   TestCase.messages testCase = removelast messages)
  /\ (Message.role lastMessage <> "assistant" ->
      TestCase.messages testCase = messages
      /\ exists msg,
           In msg (TestCase.messages testCase)
           /\ Message.role msg = "assistant"
           /\ TestCase.expectedResponse testCase = VStr (Message.content msg)).
Proof.
  exact (expected_response_stays_unless_last parse_literal true false 3
           [ {| Message.role := "assistant"; Message.content := "true" |};
             {| Message.role := "user"; Message.content := "Is it so?" |} ]
           []
           {| TestCase.messages :=
                [ {| Message.role := "assistant"; Message.content := "true" |};
                  {| Message.role := "user"; Message.content := "Is it so?" |} ];
              TestCase.expectedResponse := VStr "true" |}
           eq_refl).
Defined.

Lemma evaluateTestCase_finished (JSON_parse : string -> completion value)
    (expected actual : value) (timeElapsed cost : float) (input : string)
    (r : TestResult.t) :
  evaluateTestCase JSON_parse expected actual timeElapsed cost input = Normal r ->
  TestResult.isFinished r = true.
Proof.
  unfold evaluateTestCase, bind.
  destruct (compareResponses JSON_parse expected actual) as [c | e]; [| discriminate].
  now intros [= <-].
Qed.

Lemma built_by_the_command_NoDup (JSON_parse : string -> completion value)
    (r : TestResult.t) (fields : list string) :
  built_by_the_command JSON_parse r ->
  TestResult.matchedFields r = Some fields -> NoDup fields.
Proof.
  intros [(expected & actual & t & c & input & H) | (input & expected & ->)].
  - now apply (evaluateTestCase_matchedFields_NoDup _ _ _ _ _ _ _ _ H).
  - discriminate.
Qed.

Lemma built_by_the_command_success (JSON_parse : string -> completion value)
    (r : TestResult.t) :
  built_by_the_command JSON_parse r ->
  TestResult.isSuccess r = true -> TestResult.isFinished r = true.
Proof.
  intros [(expected & actual & t & c & input & H) | (input & expected & ->)].
  - intros _. now apply (evaluateTestCase_finished _ _ _ _ _ _ _ H).
  - discriminate.
Qed.

Section Runner.

Variable JSON_parse : string -> completion value.
Variable run : list Message.t -> string -> completion (value * float).
Variable elapsed : nat -> float.
Variable report : nat -> TestResult.t -> completion unit.

Lemma runCase_quiet (verbose : bool) (index : nat) (testCase : TestCase.t)
    (results : list TestResult.t) :
  (verbose = true -> forall i r, exists u, report i r = Normal u) ->
  exists r, runCase JSON_parse run elapsed report verbose index testCase results
            = results ++ [r]
            /\ built_by_the_command JSON_parse r.
Proof.
  intros Hquiet. unfold runCase.
  destruct (run _ _) as [[data cost] | e].
  - destruct (evaluateTestCase _ _ _ _ _ _) as [r | e] eqn:E.
    + exists r. split.
      * destruct verbose; [| reflexivity].
        destruct (Hquiet eq_refl index r) as [u ->]. reflexivity.
      * left. eauto 6.
    + eexists. split; [reflexivity |]. right. eauto.
  - eexists. split; [reflexivity |]. right. eauto.
Qed.

Lemma runCases_quiet (verbose : bool) (testCases : list TestCase.t) :
  (verbose = true -> forall i r, exists u, report i r = Normal u) ->
  forall index results,
    exists new,
      runCases JSON_parse run elapsed report verbose testCases index results
      = results ++ new
      /\ List.length new = List.length testCases
      /\ Forall (built_by_the_command JSON_parse) new.
Proof.
  intros Hquiet. induction testCases as [| tc rest IH]; intros index results.
  - exists []. cbn. rewrite List.app_nil_r. repeat split. constructor.
  - cbn [runCases].
    destruct (runCase_quiet verbose index tc results Hquiet) as (r & -> & Hr).
    destruct (IH (S index) (results ++ [r])) as (new & -> & Hlen & Hall).
    exists (r :: new). rewrite <- List.app_assoc. cbn [app List.length].
    repeat split; [now rewrite Hlen | now constructor].
Qed.

End Runner.

(** X25: when the verbose report does not throw (or the run is not
    verbose), the loop over the test cases pushes exactly one result per test
    case, each one returned by [evaluateTestCase] or the unfinished record of
    the [catch], so [totalTests] is the number of test cases.  When the
    report throws for a case the provider answered, that case has already
    pushed its evaluated result and the [catch] pushes the unfinished record
    after it: the case is counted twice. *)
Theorem one_result_per_case_unless_the_report_throws
    (JSON_parse : string -> completion value)
    (run : list Message.t -> string -> completion (value * float))
    (elapsed : nat -> float) (report : nat -> TestResult.t -> completion unit)
    (verbose : bool) (testCases : list TestCase.t) :
  ((verbose = true -> forall i r, exists u, report i r = Normal u) ->
   let results := runCases JSON_parse run elapsed report verbose testCases 0 [] in
   MetricsResult.totalTests (calculateMetrics results) = List.length testCases
   /\ Forall (built_by_the_command JSON_parse) results)
  /\ forall index testCase results data cost r e,
       run (contextMessages (TestCase.messages testCase))
           (userInput (TestCase.messages testCase)) = Normal (data, cost) ->
       evaluateTestCase JSON_parse (TestCase.expectedResponse testCase) data
         (elapsed index) cost (userInput (TestCase.messages testCase)) = Normal r ->
       report index r = Throw e ->
       runCase JSON_parse run elapsed report true index testCase results
       = results ++ [r; unfinishedResult (userInput (TestCase.messages testCase))
                                         (TestCase.expectedResponse testCase)].
Proof.
  split.
  - intros Hquiet results.
    destruct (runCases_quiet JSON_parse run elapsed report verbose testCases Hquiet 0 [])
      as (new & E & Hlen & Hall).
    subst results. rewrite E. cbn [app]. split; [exact Hlen | exact Hall].
  - intros index testCase results data cost r e Hrun Heval Hreport.
    unfold runCase. rewrite Hrun, Heval, Hreport. now rewrite <- List.app_assoc.
Qed.

(** The rate of a field over cases that list a field at most once. *)
Lemma fieldSuccessRates_of_sets (results : list TestResult.t) (field : string) :
  (forall r fields, In r results -> TestResult.matchedFields r = Some fields ->
                    NoDup fields) ->
  Record_get field (MetricsResult.fieldSuccessRates (calculateMetrics results))
  = if (List.length (filter (listsField field) results) =? 0)%nat then None
    else Some (Number_of_nat
                 (List.length (filter (fun r => listsField field r && TestResult.isSuccess r)
                                      results))
               / Number_of_nat (List.length (filter (listsField field) results)))%float.
Proof.
  intros Hnodup.
  change (MetricsResult.fieldSuccessRates (calculateMetrics results))
    with (map (fun entry : string * (nat * nat) =>
                 let '(field, (success, total)) := entry in
                 (field, (Number_of_nat success / Number_of_nat total)%float))
              (countFields results)).
  rewrite Record_get_map_rate.
  assert (Hc0 : counted []) by (intros g c; discriminate).
  destruct (countFields_fold results field [] Hc0) as [Hc Hg].
  fold (countFields results) in Hc, Hg.
  assert (Hocc : forall l : list TestResult.t,
             (forall r, In r l -> In r results) ->
             list_sum (map (occurrences field) l)
             = List.length (filter (listsField field) l)
             /\ list_sum (map (fun r => if TestResult.isSuccess r then occurrences field r else 0) l)
                = List.length (filter (fun r => listsField field r && TestResult.isSuccess r) l)).
  { induction l as [| r l IH]; intros Hl; [split; reflexivity |].
    destruct IH as [IH1 IH2]; [intros; apply Hl; now right |].
    cbn [map filter]. rewrite !list_sum_cons.
    rewrite (occurrences_NoDup field r)
      by (intros fields; apply Hnodup; apply Hl; now left).
    rewrite IH1, IH2.
    destruct (listsField field r), (TestResult.isSuccess r); simpl; split; lia. }
  destruct (Hocc results (fun r H => H)) as [Ht Hs].
  rewrite Ht, Hs in Hg. clear Hocc Ht Hs.
  unfold get_counts in Hg. cbn [Record_get fst snd] in Hg. simpl in Hg.
  destruct (Record_get field (countFields results)) as [c |] eqn:E.
  - pose proof (Hc field c E) as Hpos. subst c. cbn [fst snd] in *.
    destruct (Nat.eqb_spec (List.length (filter (listsField field) results)) 0); [lia |].
    reflexivity.
  - injection Hg as _ Hg. rewrite <- Hg. reflexivity.
Qed.

Lemma filter_length_impl {A : Type} (f g : A -> bool) (l : list A) :
  (forall x, In x l -> f x = true -> g x = true) ->
  List.length (filter f l) <= List.length (filter g l).
Proof.
  induction l as [| x l IH]; intros H; [reflexivity |].
  cbn [filter].
  assert (IH' : List.length (filter f l) <= List.length (filter g l))
    by (apply IH; intros y Hy; apply H; now right).
  destruct (f x) eqn:Ef.
  - rewrite (H x (or_introl eq_refl) Ef). cbn [List.length]. lia.
  - destruct (g x); cbn [List.length]; lia.
Qed.

(** X26: for a batch of results as the test command builds them, the rate
    of every field is exactly the number of successful cases that list it
    over the number of cases that list it (no entry for a field no case
    lists), and no unfinished case counts as a success: [successfulTests] is
    at most the number of finished cases. *)
Theorem metrics_of_a_command_batch
    (JSON_parse : string -> completion value) (results : list TestResult.t) :
  Forall (built_by_the_command JSON_parse) results ->
  let m := calculateMetrics results in
  (forall field,
     Record_get field (MetricsResult.fieldSuccessRates m)
     = if (List.length (filter (listsField field) results) =? 0)%nat then None
       else Some (Number_of_nat
                    (List.length (filter (fun r => listsField field r && TestResult.isSuccess r)
                                         results))
                  / Number_of_nat (List.length (filter (listsField field) results)))%float)
  /\ MetricsResult.successfulTests m <= List.length (filter TestResult.isFinished results).
Proof.
  intros Hall m. subst m. rewrite Forall_forall in Hall. split.
  - intros field. apply fieldSuccessRates_of_sets.
    intros r fields Hr. apply (built_by_the_command_NoDup JSON_parse). now apply Hall.
  - unfold calculateMetrics. cbn [MetricsResult.successfulTests].
    apply filter_length_impl. intros r Hr.
    apply (built_by_the_command_success JSON_parse). now apply Hall.
Qed.

Lemma metrics_of_a_command_batch_witness :
  let results :=
    [ {| TestResult.isFinished := true; TestResult.isSuccess := true;
         TestResult.input := "q"; TestResult.expectedResponse := VBool true;
         TestResult.actualResponse := VStr "true";
         TestResult.timeElapsed := 5; TestResult.cost := 1;
         TestResult.differences := None; TestResult.matchedFields := Some [];
         TestResult.missingFields := None; TestResult.extraFields := None |};
      unfinishedResult "r" (VBool true) ] in
  let m := calculateMetrics results in
  (forall field,
     Record_get field (MetricsResult.fieldSuccessRates m)
     = if (List.length (filter (listsField field) results) =? 0)%nat then None
       else Some (Number_of_nat
                    (List.length (filter (fun r => listsField field r && TestResult.isSuccess r)
                                         results))
                  / Number_of_nat (List.length (filter (listsField field) results)))%float)
  /\ MetricsResult.successfulTests m <= List.length (filter TestResult.isFinished results).
Proof.
  apply (metrics_of_a_command_batch parse_literal).
  constructor; [| constructor; [| constructor]].
  - left. exists (VBool true), (VStr "true"), 5%float, 1%float, "q". reflexivity.
  - right. eauto.
Defined.

(* ================================================================== *)
(** * Tolerance, types, the success rate and the lines of the test file *)
(* ================================================================== *)

(** ** The tolerance of the number branch *)

Lemma leb_nan_l (x y : float) : PrimFloat.is_nan x = true -> PrimFloat.leb x y = false.
Proof.
  rewrite is_nan_SF, FloatAxioms.leb_spec.
  destruct (Prim2SF x); try discriminate. reflexivity.
Qed.

Lemma leb_nan_r (x y : float) : PrimFloat.is_nan y = true -> PrimFloat.leb x y = false.
Proof.
  rewrite is_nan_SF, FloatAxioms.leb_spec.
  destruct (Prim2SF y); try discriminate. intros _.
  unfold SFleb. now destruct (Prim2SF x).
Qed.

Lemma is_nan_Math_max (a b : float) :
  PrimFloat.is_nan (Math_max a b) = PrimFloat.is_nan a || PrimFloat.is_nan b.
Proof.
  destruct (PrimFloat.is_nan a) eqn:Na; [unfold Math_max; now rewrite Na |].
  destruct (PrimFloat.is_nan b) eqn:Nb; [unfold Math_max; now rewrite Na, Nb |].
  destruct (Math_max_choice a b Na Nb) as [-> | ->]; cbn [orb]; assumption.
Qed.

(** [d <= Math.max(a, b)] exactly when [d <= a] or [d <= b]. *)
Lemma leb_Math_max (d a b : float) :
  PrimFloat.is_nan a = false -> PrimFloat.is_nan b = false ->
  PrimFloat.leb d (Math_max a b) = PrimFloat.leb d a || PrimFloat.leb d b.
Proof.
  intros Na Nb. destruct (PrimFloat.is_nan d) eqn:Nd.
  - now rewrite !leb_nan_l.
  - destruct (Math_max_spec a b Na Nb) as [Hc Hr].
    assert (Nm : PrimFloat.is_nan (Math_max a b) = false)
      by (rewrite is_nan_Math_max, Na, Nb; reflexivity).
    rewrite !leb_rank by assumption. rewrite Hr.
    destruct (Z.leb_spec (rank_of d) (Z.max (rank_of a) (rank_of b))),
             (Z.leb_spec (rank_of d) (rank_of a)),
             (Z.leb_spec (rank_of d) (rank_of b)); try reflexivity; lia.
Qed.

Lemma is_nan_sub (x y : float) :
  PrimFloat.is_nan x || PrimFloat.is_nan y = true -> PrimFloat.is_nan (x - y) = true.
Proof.
  rewrite !is_nan_SF, FloatAxioms.sub_spec. unfold SF64sub.
  destruct (Prim2SF x) as [sx | sx | | sx mx ex], (Prim2SF y) as [sy | sy | | sy my ey];
    cbn [orb SFsub]; try discriminate; reflexivity.
Qed.

Lemma is_nan_mul_finite (s : bool) (m : positive) (e : Z) (x y : float) :
  Prim2SF x = S754_finite s m e ->
  PrimFloat.is_nan (x * y) = PrimFloat.is_nan y.
Proof.
  intros Ex. rewrite !is_nan_SF, FloatAxioms.mul_spec, Ex. unfold SF64mul.
  destruct (Prim2SF y) as [sy | sy | | sy my ey]; cbn [SFmul]; try reflexivity.
  destruct (binary_round_aux_signed (xorb s sy) (Zpos (m * my)) (e + ey) loc_Exact ltac:(lia))
    as [-> | [-> | (m' & e' & ->)]]; reflexivity.
Qed.

Lemma Prim2SF_relTolerance :
  Prim2SF relTolerance = S754_finite false 7205759403792794 (-56).
Proof. reflexivity. Qed.

(** X27: two numbers are close exactly when their distance is within the
    absolute tolerance or within the relative tolerance of the larger
    magnitude; with a [NaN] on either side they are never close. *)
Theorem close_within_either_tolerance (n1 n2 : float) :
  areNumbersClose n1 n2
  = PrimFloat.leb (Math_abs (n1 - n2)) absTolerance
    || PrimFloat.leb (Math_abs (n1 - n2))
         (relTolerance * Math_max (Math_abs n1) (Math_abs n2))
  /\ (PrimFloat.is_nan n1 || PrimFloat.is_nan n2 = true -> areNumbersClose n1 n2 = false).
Proof.
  assert (Hmul : PrimFloat.is_nan (relTolerance * Math_max (Math_abs n1) (Math_abs n2))
                 = PrimFloat.is_nan n1 || PrimFloat.is_nan n2).
  { rewrite (is_nan_mul_finite _ _ _ _ _ Prim2SF_relTolerance), is_nan_Math_max, !is_nan_abs.
    reflexivity. }
  assert (Hnan : PrimFloat.is_nan n1 || PrimFloat.is_nan n2 = true ->
                 PrimFloat.is_nan (Math_abs (n1 - n2)) = true).
  { intros H. rewrite is_nan_abs. now apply is_nan_sub. }
  unfold areNumbersClose.
  destruct (PrimFloat.is_nan n1 || PrimFloat.is_nan n2) eqn:N.
  - rewrite !(leb_nan_l _ _ (Hnan eq_refl)). split; [reflexivity | intros _; reflexivity].
  - split; [| discriminate].
    apply leb_Math_max; [reflexivity | exact Hmul].
Qed.
(** ** Values of different types *)





(** ** The success rate *)

Lemma filter_length_all {A : Type} (f : A -> bool) (l : list A) :
  List.length (filter f l) = List.length l <-> forallb f l = true.
Proof.
  induction l as [| x l IH]; cbn [filter forallb List.length]; [tauto |].
  pose proof (filter_length_le f l) as Hle.
  destruct (f x); cbn [List.length andb].
  - rewrite <- IH. lia.
  - split; [lia | discriminate].
Qed.

Lemma ltb_one_one : PrimFloat.ltb 1 1 = false.
Proof. reflexivity. Qed.

Lemma eqb_of_ltb (x y : float) : PrimFloat.ltb x y = true -> PrimFloat.eqb x y = false.
Proof.
  rewrite FloatAxioms.ltb_spec, FloatAxioms.eqb_spec. unfold SFltb, SFeqb.
  destruct (SFcompare (Prim2SF x) (Prim2SF y)) as [[] |]; try discriminate; reflexivity.
Qed.

(** X29: for a non-empty batch (of fewer than [2^53] cases) the success
    rate is exactly 1 when every case succeeded, and strictly below 1 as
    soon as one case failed: rounding never lifts the rate of a batch with
    a failure to 1. *)
Theorem successRate_is_one_only_if_all_pass (results : list TestResult.t) :
  results <> [] ->
  (Z.of_nat (List.length results) < 2 ^ 53)%Z ->
  PrimFloat.eqb (MetricsResult.successRate (calculateMetrics results)) 1
  = forallb TestResult.isSuccess results
  /\ PrimFloat.ltb (MetricsResult.successRate (calculateMetrics results)) 1
     = negb (forallb TestResult.isSuccess results).
Proof.
  intros Hne Hsmall. unfold calculateMetrics. cbn [MetricsResult.successRate].
  pose proof (filter_length_le TestResult.isSuccess results) as Hle.
  pose proof (filter_length_all TestResult.isSuccess results) as Hall.
  destruct (forallb TestResult.isSuccess results) eqn:E; cbn [negb].
  - assert (Hlen : List.length (filter TestResult.isSuccess results) = List.length results)
      by now apply Hall.
    rewrite Hlen, Number_of_nat_div_self.
    + split; reflexivity.
    + destruct results; [contradiction | cbn [List.length]; lia].
  - assert (Hlt : (List.length (filter TestResult.isSuccess results) < List.length results)%nat).
    { destruct (Nat.eq_dec (List.length (filter TestResult.isSuccess results))
                           (List.length results)) as [Heq | Hneq]; [| lia].
      apply Hall in Heq. discriminate Heq. }
    pose proof (div_Number_of_nat_below_one _ _ Hlt Hsmall) as H.
    split; [now apply eqb_of_ltb | exact H].
Qed.

Lemma successRate_is_one_only_if_all_pass_witness :
  PrimFloat.eqb (MetricsResult.successRate (calculateMetrics one_of_ten)) 1 = false
  /\ PrimFloat.ltb (MetricsResult.successRate (calculateMetrics one_of_ten)) 1 = true.
Proof.
  apply (successRate_is_one_only_if_all_pass one_of_ten).
  - discriminate.
  - reflexivity.
Defined.

(** ** Lines that become test cases *)

Section Lines.
Variable JSON_parse : string -> completion value.

Lemma filter_empty_length {A : Type} (f : A -> bool) (l : list A) :
  (List.length (filter f l) =? 0)%nat = true <-> forall x, In x l -> f x = false.
Proof.
  rewrite Nat.eqb_eq, length_zero_iff_nil. split.
  - intros H x Hx. destruct (f x) eqn:E; [| reflexivity].
    assert (Hin : In x (filter f l)) by (apply filter_In; auto).
    rewrite H in Hin. destruct Hin.
  - intros H. induction l as [| x l IH]; [reflexivity |].
    cbn [filter]. rewrite (H x (or_introl eq_refl)). apply IH.
    intros y Hy. apply H. now right.
Qed.

(** X30: what a line whose messages were read needs to become a test
    case: an assistant message, an expected response (the content of the
    last assistant message) that parses when a schema is given, and a user
    message when the prompt is overridden; nothing else, with or without
    validation.  No line is dropped silently: one that yields no test case
    always yields an error entry. *)
Theorem line_becomes_a_test_case_exactly_when (skipValidation schema : bool)
    (promptOverride : option (list Message.t)) (lineNum : nat)
    (messages : list Message.t) :
  let expected :=
    Message.content
      (last (filter (fun msg => Message.role msg =? "assistant") messages)
            {| Message.role := ""; Message.content := "" |}) in
  ((exists testCase,
      snd (processLine JSON_parse skipValidation schema promptOverride lineNum messages)
      = Some testCase)
   <-> (exists msg, In msg messages /\ Message.role msg = "assistant")
       /\ (schema = true -> exists v, JSON_parse expected = Normal v)
       /\ (promptOverride <> None ->
           exists msg, In msg messages /\ Message.role msg = "user"))
  /\ (snd (processLine JSON_parse skipValidation schema promptOverride lineNum messages) = None
      -> fst (processLine JSON_parse skipValidation schema promptOverride lineNum messages)
         <> []).
Proof.
  intros expected. subst expected. unfold processLine.
  set (assistant := fun msg : Message.t => Message.role msg =? "assistant").
  set (expected := Message.content (last (filter assistant messages) _)).
  assert (Hnone : (List.length (filter assistant messages) =? 0)%nat = true ->
                  ~ exists msg, In msg messages /\ Message.role msg = "assistant").
  { intros H (msg & Hin & Hrole).
    pose proof (proj1 (filter_empty_length assistant messages) H msg Hin) as Hf.
    unfold assistant in Hf. rewrite Hrole in Hf. discriminate Hf. }
  assert (Hsome : (List.length (filter assistant messages) =? 0)%nat = false ->
                  exists msg, In msg messages /\ Message.role msg = "assistant").
  { intros H. destruct (filter assistant messages) as [| msg rest] eqn:Ef; [discriminate H |].
    assert (Hin : In msg (filter assistant messages)) by (rewrite Ef; now left).
    apply filter_In in Hin. destruct Hin as [Hin Hrole].
    exists msg. split; [exact Hin | now apply String.eqb_eq]. }
  assert (Huser : forall m, find (fun msg => Message.role msg =? "user") messages = Some m ->
                  exists msg, In msg messages /\ Message.role msg = "user").
  { intros m Hm. apply find_some in Hm. destruct Hm as [Hin Hrole].
    exists m. split; [exact Hin | now apply String.eqb_eq]. }
  assert (Hnouser : find (fun msg => Message.role msg =? "user") messages = None ->
                    ~ exists msg, In msg messages /\ Message.role msg = "user").
  { intros Hn (msg & Hin & Hrole).
    pose proof (find_none _ _ Hn msg Hin) as Hf. cbn beta in Hf.
    rewrite Hrole in Hf. discriminate Hf. }
  destruct (negb skipValidation && (List.length messages <? 1)%nat) eqn:Eempty.
  { cbn [fst snd]. split; [| intros _; discriminate].
    split; [intros (tc & Htc); discriminate Htc |].
    intros ((msg & Hin & _) & _). exfalso.
    apply andb_prop in Eempty. destruct Eempty as [_ Hlen].
    apply Nat.ltb_lt in Hlen. destruct messages; [destruct Hin | cbn [List.length] in Hlen; lia]. }
  destruct (List.length (filter assistant messages) =? 0)%nat eqn:Easst.
  { cbn [fst snd]. split; [| intros _; now destruct (if skipValidation then _ else _)].
    split; [intros (tc & Htc); discriminate Htc |].
    intros (Hex & _). exfalso. exact (Hnone eq_refl Hex). }
  specialize (Hsome eq_refl).
  destruct schema.
  - destruct (JSON_parse expected) as [parsed | err] eqn:Eparse.
    + destruct promptOverride as [override |].
      * destruct (find (fun msg => Message.role msg =? "user") messages) as [um |] eqn:Efind;
          cbn [fst snd].
        -- split; [| intros Hn; discriminate Hn].
           split; [intros _ | intros _; eauto].
           split; [exact Hsome |]. split; [intros _; eauto | intros _; eauto].
        -- split; [| intros _; now destruct (if skipValidation then _ else _)].
           split; [intros (tc & Htc); discriminate Htc |].
           intros (_ & _ & Hu). exfalso. apply (Hnouser eq_refl). apply Hu. discriminate.
      * cbn [fst snd]. split; [| intros Hn; discriminate Hn].
        split; [intros _ | intros _; eauto].
        split; [exact Hsome |]. split; [intros _; eauto | intros H; now contradiction H].
    + cbn [fst snd]. split; [| intros _; now destruct (if skipValidation then _ else _)].
      split; [intros (tc & Htc); discriminate Htc |].
      intros (_ & Hp & _). destruct (Hp eq_refl) as (v & Hv). discriminate Hv.
  - destruct promptOverride as [override |].
    + destruct (find (fun msg => Message.role msg =? "user") messages) as [um |] eqn:Efind;
        cbn [fst snd].
      * split; [| intros Hn; discriminate Hn].
        split; [intros _ | intros _; eauto].
        split; [exact Hsome |]. split; [discriminate | intros _; eauto].
      * split; [| intros _; now destruct (if skipValidation then _ else _)].
        split; [intros (tc & Htc); discriminate Htc |].
        intros (_ & _ & Hu). exfalso. apply (Hnouser eq_refl). apply Hu. discriminate.
    + cbn [fst snd]. split; [| intros Hn; discriminate Hn].
      split; [intros _ | intros _; eauto].
      split; [exact Hsome |]. split; [discriminate | intros H; now contradiction H].
Qed.

End Lines.

(* ================================================================== *)
(** * Rounding in the normal range, and the harmonic mean *)
(* ================================================================== *)

Section NormalRounding.
Local Open Scope Z_scope.

Lemma shr_near_step (m0 k : Z) (mrs : shr_record) :
  0 <= m0 -> 0 <= k ->
  shr_near m0 k mrs -> shr_near m0 (k + 1) (shr_1 mrs).
Proof.
  intros Hm Hk (Hq & Hr & Hs). destruct mrs as [m r s]. cbn [shr_m shr_r shr_s] in *.
  assert (Hpos : 0 < 2 ^ k) by (apply Z.pow_pos_nonneg; lia).
  assert (Hm' : 0 <= m) by (subst m; apply Z.div_pos; lia).
  rewrite shr_1_eq by exact Hm'. unfold shr_near. cbn [shr_m shr_r shr_s].
  rewrite Z.pow_add_r, Z.pow_1_r by lia.
  pose proof (Z.rem_mul_r m0 (2 ^ k) 2 ltac:(lia) ltac:(lia)) as Hrem.
  rewrite <- Hq in Hrem.
  pose proof (Z.mod_pos_bound m0 (2 ^ k) Hpos) as Hb.
  pose proof (Z.mod_pos_bound m 2 ltac:(lia)) as Hb2.
  rewrite Hrem. clear Hrem.
  set (rem := m0 mod 2 ^ k) in *.
  assert (Hodd : Z.odd m = true <-> m mod 2 = 1).
  { rewrite Zmod_odd. destruct (Z.odd m); split; intros H; try reflexivity; try discriminate; lia. }
  assert (Hbit : m mod 2 = 0 \/ m mod 2 = 1) by lia.
  split; [| split].
  - subst m. rewrite Z.div_div by lia. reflexivity.
  - rewrite Hodd. destruct Hbit as [-> | ->]; lia.
  - rewrite orb_true_iff, Hr, Hs. destruct Hbit as [-> | ->]; lia.
Qed.

Lemma shr_near_iter (m0 : Z) :
  0 <= m0 ->
  forall (p : positive) (k : Z) (mrs : shr_record),
    0 <= k ->
    shr_near m0 k mrs -> shr_near m0 (k + Zpos p) (iter_pos shr_1 p mrs).
Proof.
  intros Hm. induction p as [p IH | p IH |]; intros k mrs Hk H; cbn [iter_pos].
  - replace (k + Zpos p~1) with (k + 1 + Zpos p + Zpos p) by lia.
    apply IH; [lia |]. apply IH; [lia |]. now apply shr_near_step.
  - replace (k + Zpos p~0) with (k + Zpos p + Zpos p) by lia.
    apply IH; [lia |]. now apply IH.
  - now apply shr_near_step.
Qed.

Lemma shr_near_0 (m0 : Z) : shr_near m0 0 (shr_record_of_loc m0 loc_Exact).
Proof.
  unfold shr_near. cbn [shr_record_of_loc shr_m shr_r shr_s].
  rewrite Z.pow_0_r, Z.div_1_r, Z.mod_1_r. repeat split; try discriminate; lia.
Qed.

(** Rounding to nearest: the result is within half a unit. *)
Lemma round_nearest_even_near (m0 k : Z) (mrs : shr_record) :
  0 <= m0 -> 0 <= k -> shr_near m0 k mrs ->
  2 * Z.abs (round_nearest_even (shr_m mrs) (loc_of_shr_record mrs) * 2 ^ k - m0) <= 2 ^ k.
Proof.
  intros Hm Hk (Hq & Hr & Hs). destruct mrs as [m r s]. cbn [shr_m shr_r shr_s] in *.
  assert (Hpos : 0 < 2 ^ k) by (apply Z.pow_pos_nonneg; lia).
  pose proof (Z.div_mod m0 (2 ^ k) ltac:(lia)) as Hdm. rewrite <- Hq in Hdm.
  pose proof (Z.mod_pos_bound m0 (2 ^ k) Hpos) as Hb.
  set (rem := m0 mod 2 ^ k) in *.
  destruct r, s; cbn [loc_of_shr_record round_nearest_even].
  - assert (2 ^ k <= 2 * rem) by now apply Hr. lia.
  - assert (2 ^ k <= 2 * rem) by now apply Hr.
    destruct (Z.even m); lia.
  - assert (~ 2 ^ k <= 2 * rem) by (intros H; apply Hr in H; discriminate H). lia.
  - assert (~ 2 ^ k <= 2 * rem) by (intros H; apply Hr in H; discriminate H).
    assert (~ (rem <> 0 /\ 2 * rem <> 2 ^ k)) by (intros H'; apply Hs in H'; discriminate H').
    lia.
Qed.

Lemma round_nearest_even_next (m : Z) (l : location) :
  round_nearest_even m l = m \/ round_nearest_even m l = m + 1.
Proof.
  destruct l as [| []]; cbn [round_nearest_even]; auto.
  destruct (Z.even m); auto.
Qed.

Lemma Zdigits2_unique (m k : Z) :
  2 ^ (k - 1) <= m < 2 ^ k -> 1 <= k -> Zdigits2 m = k.
Proof.
  intros H Hk. assert (0 < 2 ^ (k - 1)) by (apply Z.pow_pos_nonneg; lia).
  destruct m as [| p | p]; try lia.
  cbn [Zdigits2]. now apply digits2_pos_unique.
Qed.

(** The last step of rounding: a mantissa of 53 bits stays, [2^53] becomes
    [2^52] one exponent up. *)
Lemma normalise_rounded (R e : Z) :
  2 ^ 52 <= R <= 2 ^ 53 -> -1074 <= e -> e < 971 ->
  (let '(mrs'', e'') := shr_fexp prec emax R e loc_Exact in
   match shr_m mrs'' with
   | 0 => S754_zero false
   | Zpos m => if e'' <=? emax - prec then S754_finite false m e'' else S754_infinity false
   | Zneg _ => S754_nan
   end)
  = if R <? 2 ^ 53 then S754_finite false (Z.to_pos R) e
    else S754_finite false 4503599627370496 (e + 1).
Proof.
  intros HR He He'. unfold shr_fexp. rewrite fexp_64.
  destruct (Z.ltb_spec R (2 ^ 53)) as [Hlt | Hge].
  - rewrite (Zdigits2_unique R 53) by (change (53 - 1) with 52; lia).
    replace (Z.max (53 + e - 53) (-1074) - e) with 0 by lia.
    cbn [shr shr_record_of_loc shr_m].
    destruct R as [| p | p]; try lia.
    assert (Hb : (e <=? emax - prec) = true) by (apply Z.leb_le; unfold emax, prec; lia).
    now rewrite Hb.
  - assert (R = 2 ^ 53) by lia. subst R.
    change (Zdigits2 (2 ^ 53)) with 54.
    replace (Z.max (54 + e - 53) (-1074) - e) with 1 by lia.
    cbn [shr shr_record_of_loc iter_pos]. 
    change (shr_m (shr_1 {| shr_m := 2 ^ 53; shr_r := false; shr_s := false |}))
      with 4503599627370496.
    assert (Hb : (e + 1 <=? emax - prec) = true) by (apply Z.leb_le; unfold emax, prec; lia).
    now rewrite Hb.
Qed.

(** Rounding a mantissa of [53 + k] bits in the normal range: [k] bits are
    cut off, the result is the truncated mantissa or the next one, and is
    within half a unit when the mantissa was exact. *)
Lemma binary_round_aux_normal (mx ex k : Z) (lx : location) :
  0 <= k -> 2 ^ (52 + k) <= mx < 2 ^ (53 + k) ->
  -1074 <= ex + k -> ex + k < 971 ->
  exists R,
    (R = mx / 2 ^ k \/ R = mx / 2 ^ k + 1)
    /\ (lx = loc_Exact -> 2 * Z.abs (R * 2 ^ k - mx) <= 2 ^ k)
    /\ binary_round_aux prec emax false mx ex lx
       = if R <? 2 ^ 53 then S754_finite false (Z.to_pos R) (ex + k)
         else S754_finite false 4503599627370496 (ex + k + 1).
Proof.
  intros Hk Hmx Hlo Hhi.
  assert (Hpos : 0 < 2 ^ k) by (apply Z.pow_pos_nonneg; lia).
  assert (H52 : 2 ^ (52 + k) = 2 ^ 52 * 2 ^ k) by (apply Z.pow_add_r; lia).
  assert (H53 : 2 ^ (53 + k) = 2 ^ 53 * 2 ^ k) by (apply Z.pow_add_r; lia).
  assert (Hm0 : 0 <= mx) by lia.
  assert (Hq : 2 ^ 52 <= mx / 2 ^ k < 2 ^ 53).
  { split; [apply Z.div_le_lower_bound; lia | apply Z.div_lt_upper_bound; lia]. }
  unfold binary_round_aux.
  assert (Hshift : exists mrs',
            shr_fexp prec emax mx ex lx = (mrs', ex + k)
            /\ shr_m mrs' = mx / 2 ^ k
            /\ (lx = loc_Exact -> shr_near mx k mrs')).
  { unfold shr_fexp. rewrite fexp_64.
    rewrite (Zdigits2_unique mx (53 + k)) by (replace (53 + k - 1) with (52 + k) by lia; lia).
    replace (Z.max (53 + k + ex - 53) (-1074) - ex) with k by lia.
    destruct k as [| p | p]; [| | lia].
    - cbn [shr]. eexists. split; [rewrite Z.add_0_r; reflexivity |].
      split.
      + rewrite Z.pow_0_r, Z.div_1_r. apply loc_of_shr_record_of_loc.
      + intros ->. apply shr_near_0.
    - cbn [shr]. eexists. split; [reflexivity |]. split.
      + assert (H0 : shr_inv mx (negb (match lx with loc_Exact => true | _ => false end)) 0
                       (shr_record_of_loc mx lx)).
        { split; [rewrite Z.div_1_r; apply loc_of_shr_record_of_loc |].
          intros H. left. apply shr_record_of_loc_bits in H. now destruct lx. }
        apply (shr_inv_iter mx _ Hm0 p 0) in H0; [| lia].
        destruct H0 as [H0 _]. exact H0.
      + intros ->. apply (shr_near_iter mx Hm0 p 0); [lia | apply shr_near_0]. }
  destruct Hshift as (mrs' & -> & Hm' & Hnear).
  exists (round_nearest_even (shr_m mrs') (loc_of_shr_record mrs')).
  split; [rewrite <- Hm'; apply round_nearest_even_next |].
  split; [intros Hl; apply round_nearest_even_near; auto |].
  apply normalise_rounded; [| lia | lia].
  destruct (round_nearest_even_next (shr_m mrs') (loc_of_shr_record mrs')) as [-> | ->]; lia.
Qed.

End NormalRounding.

Section HarmonicMean.
Local Open Scope Z_scope.

(** Rounding is the identity on a 53-bit mantissa times a power of two. *)
Lemma binary_round_aux_shifted (n ex k : Z) :
  0 <= k -> 2 ^ 52 <= n < 2 ^ 53 ->
  -1074 <= ex + k -> ex + k < 971 ->
  binary_round_aux prec emax false (n * 2 ^ k) ex loc_Exact
  = S754_finite false (Z.to_pos n) (ex + k).
Proof.
  intros Hk Hn Hlo Hhi.
  assert (Hpos : 0 < 2 ^ k) by (apply Z.pow_pos_nonneg; lia).
  destruct (binary_round_aux_normal (n * 2 ^ k) ex k loc_Exact Hk) as (R & _ & Hnear & ->);
    [rewrite !Z.pow_add_r by lia; nia | lia | lia |].
  specialize (Hnear eq_refl).
  assert (R = n) by nia. subst R.
  destruct (Z.ltb_spec n (2 ^ 53)); [reflexivity | lia].
Qed.

Variable m : positive.
Variable e : Z.
Hypothesis Hm : 2 ^ 52 <= Zpos m < 2 ^ 53.
Hypothesis He : -200 <= e <= 200.

(** Doubling is exact. *)
Lemma SFmul_two :
  SFmul prec emax (S754_finite false 4503599627370496 (-51)) (S754_finite false m e)
  = S754_finite false m (e + 1).
Proof.
  cbn [SFmul xorb]. rewrite Pos2Z.inj_mul, Z.mul_comm.
  change (Zpos 4503599627370496) with (2 ^ 52).
  rewrite binary_round_aux_shifted by lia.
  rewrite Pos2Z.id. f_equal. lia.
Qed.

Lemma SFadd_self :
  SFadd prec emax (S754_finite false m e) (S754_finite false m e)
  = S754_finite false m (e + 1).
Proof.
  cbn [SFadd cond_Zopp]. rewrite Z.min_id.
  assert (Hal : shl_align m e e = (m, e)).
  { unfold shl_align. now rewrite Z.sub_diag. }
  rewrite Hal. cbn [fst]. rewrite Pos2Z.add_pos_pos.
  cbn [binary_normalize]. unfold binary_round.
  assert (Hd : Zpos (digits2_pos (m + m)) = 54).
  { apply digits2_pos_unique; [| lia]. change (54 - 1) with 53.
    rewrite Pos2Z.inj_add. change (2 ^ 54) with (2 * 2 ^ 53).
    change (2 ^ 53) with (2 * 2 ^ 52) at 1. lia. }
  rewrite Hd, fexp_64.
  assert (Hal2 : shl_align (m + m) e (Z.max (54 + e - 53) (-1074)) = ((m + m)%positive, e)).
  { unfold shl_align. replace (Z.max (54 + e - 53) (-1074) - e) with 1 by lia. reflexivity. }
  rewrite Hal2.
  replace (Zpos (m + m)) with (Zpos m * 2 ^ 1) by lia.
  rewrite binary_round_aux_shifted by lia.
  now rewrite Pos2Z.id.
Qed.

(** The square, rounded: within half a unit of [m * m]. *)
Lemma SFmul_square :
  exists x k,
    (k = 52 \/ k = 53)
    /\ 2 ^ 52 <= x < 2 ^ 53
    /\ 2 * Z.abs (x * 2 ^ k - Zpos m * Zpos m) <= 2 ^ k
    /\ SFmul prec emax (S754_finite false m (e + 1)) (S754_finite false m e)
       = S754_finite false (Z.to_pos x) (e + 1 + e + k).
Proof.
  cbn [SFmul xorb]. rewrite Pos2Z.inj_mul.
  set (P := Zpos m * Zpos m).
  assert (HP : 2 ^ 104 <= P < 2 ^ 106).
  { unfold P. change (2 ^ 104) with (2 ^ 52 * 2 ^ 52). change (2 ^ 106) with (2 ^ 53 * 2 ^ 53). nia. }
  destruct (Z_lt_ge_dec P (2 ^ 105)) as [Hlt | Hge].
  - destruct (binary_round_aux_normal P (e + 1 + e) 52 loc_Exact ltac:(lia)) as (R & HR & Hnear & ->);
      [change (2 ^ (52 + 52)) with (2 ^ 104); change (2 ^ (53 + 52)) with (2 ^ 105); lia | lia | lia |].
    specialize (Hnear eq_refl).
    assert (Hsmall : Zpos m <= 6369051672525772).
    { destruct (Z_le_gt_dec (Zpos m) 6369051672525772) as [H | H]; [exact H | exfalso].
      assert (6369051672525773 * 6369051672525773 <= P) by (unfold P; nia).
      change (2 ^ 105) with 40564819207303340847894502572032 in Hlt. lia. }
    assert (HPs : P <= 6369051672525772 * 6369051672525772) by (unfold P; nia).
    assert (HRlo : 2 ^ 52 <= R).
    { destruct HR as [-> | ->];
        assert (2 ^ 52 <= P / 2 ^ 52) by (apply Z.div_le_lower_bound; lia); lia. }
    assert (HRhi : R < 2 ^ 53).
    { change (2 ^ 52) with 4503599627370496 in Hnear.
      change (2 ^ 53) with 9007199254740992. lia. }
    exists R, 52. split; [now left |]. split; [lia |]. split; [exact Hnear |].
    destruct (Z.ltb_spec R (2 ^ 53)); [reflexivity | lia].
  - destruct (binary_round_aux_normal P (e + 1 + e) 53 loc_Exact ltac:(lia)) as (R & HR & Hnear & ->);
      [change (2 ^ (52 + 53)) with (2 ^ 105); change (2 ^ (53 + 53)) with (2 ^ 106); lia | lia | lia |].
    specialize (Hnear eq_refl).
    assert (HPs : P <= (2 ^ 53 - 1) * (2 ^ 53 - 1)) by (unfold P; nia).
    assert (HRlo : 2 ^ 52 <= R).
    { destruct HR as [-> | ->];
        assert (2 ^ 52 <= P / 2 ^ 53) by (apply Z.div_le_lower_bound; lia); lia. }
    assert (HRhi : R < 2 ^ 53).
    { change (2 ^ 53) with 9007199254740992 in *. lia. }
    exists R, 53. split; [now right |]. split; [lia |]. split; [exact Hnear |].
    destruct (Z.ltb_spec R (2 ^ 53)); [reflexivity | lia].
Qed.

(** Dividing the rounded square by the double gives the mantissa back, or
    one of its two neighbours. *)
Lemma SFdiv_back (x k : Z) :
  (k = 52 \/ k = 53) ->
  2 ^ 52 <= x < 2 ^ 53 ->
  2 * Z.abs (x * 2 ^ k - Zpos m * Zpos m) <= 2 ^ k ->
  exists R,
    (R = Zpos m \/ R = Zpos m + 1 \/ (R = Zpos m - 1 /\ 2 ^ 52 < Zpos m))
    /\ SFdiv prec emax (S754_finite false (Z.to_pos x) (e + 1 + e + k))
                       (S754_finite false m (e + 1))
       = if R <? 2 ^ 53 then S754_finite false (Z.to_pos R) e
         else S754_finite false 4503599627370496 (e + 1).
Proof.
  intros Hk Hx Hnear.
  assert (Hxid : Zpos (Z.to_pos x) = x) by (apply Z2Pos.id; lia).
  cbn [SFdiv xorb]. unfold SFdiv_core_binary. cbn [Zdigits2].
  rewrite (digits2_pos_unique (Z.to_pos x) 53) by (rewrite ?Hxid; change (53 - 1) with 52; lia).
  rewrite (digits2_pos_unique m 53) by (change (53 - 1) with 52; lia).
  rewrite fexp_64, Hxid.
  replace (Z.min (Z.max (53 + (e + 1 + e + k) - (53 + (e + 1)) - 53) (-1074))
                 (e + 1 + e + k - (e + 1)))
    with (e + k - 53) by lia.
  replace (e + 1 + e + k - (e + 1) - (e + k - 53)) with 53 by lia.
  rewrite Z.shiftl_mul_pow2 by lia.
  pose proof (Z_div_mod (x * 2 ^ 53) (Zpos m) ltac:(lia)) as Hdm.
  destruct (Z.div_eucl (x * 2 ^ 53) (Zpos m)) as [q r].
  destruct Hdm as [Hq Hr].
  set (M := Zpos m) in *. set (P := M * M) in *.
  destruct Hk as [-> | ->].
  - (* the square has 105 bits: the quotient has 54 *)
    assert (Hq2 : q = 2 * M - 1 /\ 2 ^ 52 < M \/ q = 2 * M).
    { change (2 ^ 52) with 4503599627370496 in *. change (2 ^ 53) with 9007199254740992 in *.
      assert (Hlo : (2 * M - 1) * M <= x * 9007199254740992) by (fold P; nia).
      assert (Hhi : x * 9007199254740992 < (2 * M + 1) * M).
      { destruct (Z.eq_dec M 4503599627370496) as [HM | HM].
        - unfold P in Hnear. rewrite HM in *. lia.
        - fold P. nia. }
      assert (2 * M - 1 <= q) by nia.
      assert (q < 2 * M + 1) by nia.
      destruct (Z.eq_dec q (2 * M)) as [-> | Hne]; [now right | left].
      split; [lia |].
      destruct (Z.eq_dec M 4503599627370496) as [HM | HM]; [| lia].
      exfalso. unfold P in Hnear. rewrite HM in *. nia. }
    destruct (binary_round_aux_normal q (e + 52 - 53) 1 (new_location M r) ltac:(lia))
      as (R & HR & _ & ->);
      [change (2 ^ (52 + 1)) with (2 ^ 53); change (2 ^ (53 + 1)) with (2 * 2 ^ 53);
       change (2 ^ 53) with (2 * 2 ^ 52) at 1; lia | lia | lia |].
    exists R. split.
    + change (2 ^ 1) with 2 in HR.
      destruct Hq2 as [[-> Hgt] | ->].
      * replace ((2 * M - 1) / 2) with (M - 1) in HR
          by (apply Z.div_unique with 1; lia).
        destruct HR as [-> | ->]; [right; right; split; [reflexivity | exact Hgt] | left; lia].
      * replace (2 * M / 2) with M in HR by (apply Z.div_unique with 0; lia).
        destruct HR as [-> | ->]; [now left | right; now left].
    + replace (e + 52 - 53 + 1) with e by lia. reflexivity.
  - (* the square has 106 bits: the quotient has 53 *)
    assert (Hgt : 2 ^ 52 < M).
    { change (2 ^ 52) with 4503599627370496 in *. change (2 ^ 53) with 9007199254740992 in *.
      destruct (Z_lt_ge_dec 4503599627370496 M) as [H | H]; [exact H | exfalso].
      assert (M = 4503599627370496) by lia.
      unfold P in Hnear. rewrite H0 in *. lia. }
    assert (Hq2 : q = M - 1 \/ q = M).
    { change (2 ^ 52) with 4503599627370496 in *. change (2 ^ 53) with 9007199254740992 in *.
      assert (Hlo : (M - 1) * M < x * 9007199254740992) by (fold P; nia).
      assert (Hhi : x * 9007199254740992 < (M + 1) * M) by (fold P; nia).
      assert (M - 1 <= q) by nia.
      assert (q < M + 1) by nia.
      lia. }
    destruct (binary_round_aux_normal q (e + 53 - 53) 0 (new_location M r) ltac:(lia))
      as (R & HR & _ & ->);
      [change (52 + 0) with 52; change (53 + 0) with 53; lia | lia | lia |].
    exists R. split.
    + rewrite Z.pow_0_r, Z.div_1_r in HR.
      destruct Hq2 as [-> | ->].
      * destruct HR as [-> | ->]; [right; right; split; [reflexivity | exact Hgt] | left; lia].
      * destruct HR as [-> | ->]; [now left | right; now left].
    + replace (e + 53 - 53 + 0) with e by lia. reflexivity.
Qed.

(** Normalising a 53-bit mantissa times a power of two. *)
Lemma binary_normalize_shifted (n ex k : Z) :
  0 <= k -> 2 ^ 52 <= n < 2 ^ 53 ->
  -1074 <= ex + k -> ex + k < 971 ->
  binary_normalize prec emax (n * 2 ^ k) ex false
  = S754_finite false (Z.to_pos n) (ex + k).
Proof.
  intros Hk Hn Hlo Hhi.
  assert (Hpos : 0 < 2 ^ k) by (apply Z.pow_pos_nonneg; lia).
  assert (H52 : 2 ^ (52 + k) = 2 ^ 52 * 2 ^ k) by (apply Z.pow_add_r; lia).
  assert (H53 : 2 ^ (53 + k) = 2 ^ 53 * 2 ^ k) by (apply Z.pow_add_r; lia).
  destruct (n * 2 ^ k) as [| p | p] eqn:Ep; try nia.
  cbn [binary_normalize]. unfold binary_round.
  rewrite (digits2_pos_unique p (53 + k))
    by (rewrite ?Ep; replace (53 + k - 1) with (52 + k) by lia; nia).
  rewrite fexp_64.
  assert (Hal : shl_align p ex (Z.max (53 + k + ex - 53) (-1074)) = (p, ex)).
  { unfold shl_align.
    destruct (Z.max (53 + k + ex - 53) (-1074) - ex) eqn:Ed; try reflexivity. lia. }
  rewrite Hal, <- Ep. now apply binary_round_aux_shifted.
Qed.

Lemma SFulp_normal :
  SFulp prec emax (S754_finite false m e) = S754_finite false 4503599627370496 (e - 52).
Proof.
  unfold SFulp, SFfrexp.
  rewrite (digits2_pos_unique m 53) by (change (53 - 1) with 52; lia).
  change (prec <=? 53) with true. cbn [snd]. rewrite fexp_64.
  change (SFone prec emax) with (S754_finite false 4503599627370496 (-52)).
  cbn [SFldexp]. unfold binary_round.
  change (Zpos (digits2_pos 4503599627370496)) with 53. rewrite fexp_64.
  assert (Hal : shl_align 4503599627370496 (-52 + Z.max (e + prec - 53) (-1074))
                  (Z.max (53 + (-52 + Z.max (e + prec - 53) (-1074)) - 53) (-1074))
                = (4503599627370496%positive, e - 52)).
  { unfold prec. replace (Z.max (e + 53 - 53) (-1074)) with e by lia.
    replace (Z.max (53 + (-52 + e) - 53) (-1074)) with (-52 + e) by lia.
    unfold shl_align. rewrite Z.sub_diag. f_equal. lia. }
  rewrite Hal.
  change (Zpos 4503599627370496) with (2 ^ 52 * 2 ^ 0).
  rewrite binary_round_aux_shifted by (try split; try reflexivity; lia).
  f_equal. lia.
Qed.

(** The next double up. *)
Lemma SFsucc_normal :
  SFsucc prec emax (S754_finite false m e)
  = if Zpos m + 1 <? 2 ^ 53 then S754_finite false (Z.to_pos (Zpos m + 1)) e
    else S754_finite false 4503599627370496 (e + 1).
Proof.
  cbn [SFsucc]. rewrite SFulp_normal. cbn [SFadd cond_Zopp].
  replace (Z.min e (e - 52)) with (e - 52) by lia.
  rewrite <- Pos2Z.inj_add, Pos2Z.inj_add.
  rewrite !shl_align_fst by lia.
  replace (e - (e - 52)) with 52 by lia. rewrite Z.sub_diag, Z.pow_0_r.
  change (Zpos 4503599627370496 * 1) with (2 ^ 52).
  destruct (Z.ltb_spec (Zpos m + 1) (2 ^ 53)) as [Hlt | Hge].
  - replace (Zpos m * 2 ^ 52 + 2 ^ 52) with ((Zpos m + 1) * 2 ^ 52) by ring.
    rewrite binary_normalize_shifted by lia. f_equal. lia.
  - replace (Zpos m * 2 ^ 52 + 2 ^ 52) with (2 ^ 52 * 2 ^ 53)
      by (change (2 ^ 53) with 9007199254740992 in *; change (2 ^ 52) with 4503599627370496; lia).
    rewrite binary_normalize_shifted by (try split; try reflexivity; lia). f_equal. lia.
Qed.

(** The next double down, away from a power of two. *)
Lemma SFpred_normal :
  2 ^ 52 < Zpos m ->
  SFpred prec emax (S754_finite false m e) = S754_finite false (Z.to_pos (Zpos m - 1)) e.
Proof.
  intros Hgt. unfold SFpred. cbn [SFopp SFsucc negb SFpred_pos].
  change (Pos.iter xO 1%positive (Z.to_pos prec)) with 9007199254740992%positive.
  assert (Hne : Pos.eqb m~0 9007199254740992 = false).
  { apply Pos.eqb_neq. intros H. apply (f_equal Zpos) in H.
    change (2 ^ 52) with 4503599627370496 in Hgt. lia. }
  rewrite Hne, SFulp_normal. cbn [SFsub cond_Zopp].
  replace (Z.min e (e - 52)) with (e - 52) by lia.
  rewrite !shl_align_fst by lia.
  replace (e - (e - 52)) with 52 by lia. rewrite Z.sub_diag, Z.pow_0_r.
  change (Zpos 4503599627370496 * 1) with (2 ^ 52).
  replace (Zpos m * 2 ^ 52 - 2 ^ 52) with ((Zpos m - 1) * 2 ^ 52) by ring.
  rewrite binary_normalize_shifted by lia. cbn [SFopp]. f_equal. lia.
Qed.

End HarmonicMean.

(** The harmonic mean of a normal double with itself is the double or one
    of its two neighbours. *)
Lemma harmonic_mean_near (r : float) (m : positive) (e : Z) :
  Prim2SF r = S754_finite false m e ->
  (2 ^ 52 <= Zpos m < 2 ^ 53)%Z -> (-200 <= e <= 200)%Z ->
  within_one_ulp ((2 * r * r) / (r + r))%float r = true.
Proof.
  intros Hr Hm He.
  assert (H2 : Prim2SF 2 = S754_finite false 4503599627370496 (-51)) by reflexivity.
  destruct (SFmul_square m e Hm He) as (x & k & Hk & Hx & Hnear & Hsq).
  destruct (SFdiv_back m e Hm He x k Hk Hx Hnear) as (R & HR & Hdiv).
  assert (Hf : Prim2SF ((2 * r * r) / (r + r))%float
               = if (R <? 2 ^ 53)%Z then S754_finite false (Z.to_pos R) e
                 else S754_finite false 4503599627370496 (e + 1)).
  { rewrite FloatAxioms.div_spec, !FloatAxioms.mul_spec, FloatAxioms.add_spec, H2, Hr.
    unfold SF64div, SF64mul, SF64add.
    rewrite (SFmul_two m e Hm He), Hsq, (SFadd_self m e Hm He). exact Hdiv. }
  unfold within_one_ulp. apply orb_true_iff.
  destruct HR as [-> | [-> | [-> Hgt]]].
  - left. apply orb_true_iff. left.
    apply FloatAxioms.Leibniz.eqb_spec, Prim2SF_inj. rewrite Hf, Hr.
    destruct (Z.ltb_spec (Zpos m) (2 ^ 53)); [now rewrite Pos2Z.id | lia].
  - left. apply orb_true_iff. right.
    apply FloatAxioms.Leibniz.eqb_spec, Prim2SF_inj.
    rewrite Hf, FloatAxioms.next_up_spec, Hr. unfold SF64succ.
    now rewrite (SFsucc_normal m e Hm He).
  - right.
    apply FloatAxioms.Leibniz.eqb_spec, Prim2SF_inj.
    rewrite Hf, FloatAxioms.next_down_spec, Hr. unfold SF64pred.
    rewrite (SFpred_normal m e Hm He Hgt).
    destruct (Z.ltb_spec (Zpos m - 1) (2 ^ 53)); [reflexivity | lia].
Qed.

Section Ratio.
Local Open Scope Z_scope.

(** The quotient of two positive integers below [2^53] is a normal
    double. *)
Lemma SFdiv_integers_normal (a b : Z) :
  1 <= a < 2 ^ 53 -> 1 <= b < 2 ^ 53 ->
  exists (m : positive) (e : Z),
    SFdiv prec emax (exact_double a) (exact_double b) = S754_finite false m e
    /\ 2 ^ 52 <= Zpos m < 2 ^ 53 /\ -200 <= e <= 200.
Proof.
  intros Ha Hb.
  destruct (exact_double_finite a Ha) as (m1 & d1 & -> & Hd1 & _ & D1 & _).
  destruct (exact_double_finite b Hb) as (m2 & d2 & -> & Hd2 & _ & D2 & _).
  pose proof (digits2_pos_bounds m1) as B1. rewrite D1 in B1. change (53 - 1) with 52 in B1.
  pose proof (digits2_pos_bounds m2) as B2. rewrite D2 in B2. change (53 - 1) with 52 in B2.
  cbn [SFdiv xorb]. unfold SFdiv_core_binary. cbn [Zdigits2].
  rewrite D1, D2, fexp_64.
  replace (Z.min (Z.max (53 + (d1 - 53) - (53 + (d2 - 53)) - 53) (-1074))
                 (d1 - 53 - (d2 - 53)))
    with (d1 - d2 - 53) by lia.
  replace (d1 - 53 - (d2 - 53) - (d1 - d2 - 53)) with 53 by lia.
  rewrite Z.shiftl_mul_pow2 by lia.
  pose proof (Z_div_mod (Zpos m1 * 2 ^ 53) (Zpos m2) ltac:(lia)) as Hdm.
  destruct (Z.div_eucl (Zpos m1 * 2 ^ 53) (Zpos m2)) as [q r].
  destruct Hdm as [Hq Hr].
  change (2 ^ 52) with 4503599627370496 in *. change (2 ^ 53) with 9007199254740992 in *.
  assert (Hqlo : 4503599627370496 <= q) by nia.
  assert (Hqhi : q < 2 * 9007199254740992) by nia.
  assert (Hnorm : forall R ex, 4503599627370496 <= R <= 9007199254740992 -> -150 <= ex <= 150 ->
            exists (m : positive) (e : Z),
              (if R <? 9007199254740992 then S754_finite false (Z.to_pos R) ex
               else S754_finite false 4503599627370496 (ex + 1)) = S754_finite false m e
              /\ 4503599627370496 <= Zpos m < 9007199254740992 /\ -200 <= e <= 200).
  { intros R ex HR Hex. destruct (Z.ltb_spec R 9007199254740992).
    - exists (Z.to_pos R), ex. rewrite Z2Pos.id by lia. repeat split; lia.
    - exists 4503599627370496%positive, (ex + 1). repeat split; lia. }
  destruct (Z_lt_ge_dec q 9007199254740992) as [Hlt | Hge].
  - destruct (binary_round_aux_normal q (d1 - d2 - 53) 0 (new_location (Zpos m2) r) ltac:(lia))
      as (R & HR & _ & ->); [cbn; lia | lia | lia |].
    rewrite Z.pow_0_r, Z.div_1_r in HR.
    change (2 ^ 53) with 9007199254740992.
    apply Hnorm; lia.
  - destruct (binary_round_aux_normal q (d1 - d2 - 53) 1 (new_location (Zpos m2) r) ltac:(lia))
      as (R & HR & _ & ->); [cbn; lia | lia | lia |].
    change (2 ^ 1) with 2 in HR.
    assert (4503599627370496 <= q / 2 < 9007199254740992).
    { split; [apply Z.div_le_lower_bound; lia | apply Z.div_lt_upper_bound; lia]. }
    change (2 ^ 53) with 9007199254740992.
    apply Hnorm; lia.
Qed.

End Ratio.

Lemma div_Number_of_nat_normal (a b : nat) :
  1 <= a -> 1 <= b ->
  exists (m : positive) (e : Z),
    Prim2SF (Number_of_nat a / Number_of_nat b) = S754_finite false m e
    /\ (2 ^ 52 <= Zpos m < 2 ^ 53)%Z /\ (-200 <= e <= 200)%Z.
Proof.
  intros Ha Hb.
  rewrite FloatAxioms.div_spec, !Prim2SF_Number_of_nat. unfold SF64div.
  apply SFdiv_integers_normal; unfold MAX_SAFE_INTEGER; lia.
Qed.

(** The harmonic mean of a success rate with itself is the rate or a
    double next to it. *)
Lemma harmonic_within_one_ulp (s t : nat) :
  1 <= s -> 1 <= t ->
  within_one_ulp (harmonic s t) (Number_of_nat s / Number_of_nat t)%float = true.
Proof.
  intros Hs Ht. destruct (div_Number_of_nat_normal s t Hs Ht) as (m & e & Hr & Hm & He).
  unfold harmonic. cbv zeta. exact (harmonic_mean_near _ m e Hr Hm He).
Qed.

(** ** The accuracy block *)

(** C7 (as amended): precision and recall are the success rate
    [successfulTests / totalTests]; [f1Score] is 0 when no case succeeded;
    otherwise it is the double [(2 * p * p) / (p + p)] with [p] the success
    rate, which for every batch is the success rate itself or one of the
    two doubles next to it, and is exactly 0.75 for 3 successes out of 4. *)
Theorem C7_accuracy_block (results : list TestResult.t) :
  let m := calculateMetrics results in
  let s := MetricsResult.successfulTests m in
  let t := MetricsResult.totalTests m in
  let p := MetricsResult.successRate m in
  p = (Number_of_nat s / Number_of_nat t)%float /\
  MetricsResult.precision m = p /\
  MetricsResult.recall m = p /\
  (s = 0 -> MetricsResult.f1Score m = 0%float) /\
  (0 < s -> MetricsResult.f1Score m = ((2 * p * p) / (p + p))%float) /\
  (0 < s -> within_one_ulp (MetricsResult.f1Score m) p = true) /\
  (s = 3 -> t = 4 -> p = 0.75%float /\ MetricsResult.f1Score m = 0.75%float).
Proof.
  cbv zeta.
  assert (Hle : MetricsResult.successfulTests (calculateMetrics results)
                <= MetricsResult.totalTests (calculateMetrics results))
    by apply filter_length_le.
  assert (Hf1 : MetricsResult.f1Score (calculateMetrics results)
                = if (0 <? MetricsResult.successfulTests (calculateMetrics results))%nat
                  then harmonic (MetricsResult.successfulTests (calculateMetrics results))
                                (MetricsResult.totalTests (calculateMetrics results))
                  else 0%float) by reflexivity.
  assert (Hrate : MetricsResult.successRate (calculateMetrics results)
                  = (Number_of_nat (MetricsResult.successfulTests (calculateMetrics results))
                     / Number_of_nat (MetricsResult.totalTests (calculateMetrics results)))%float)
    by reflexivity.
  split; [reflexivity |]. split; [reflexivity |]. split; [reflexivity |].
  rewrite Hf1, Hrate. clear Hf1 Hrate.
  remember (MetricsResult.successfulTests (calculateMetrics results)) as s eqn:Es.
  remember (MetricsResult.totalTests (calculateMetrics results)) as t eqn:Et.
  clear Es Et results.
  split; [| split; [| split]].
  - intros ->. reflexivity.
  - intros Hs. apply Nat.ltb_lt in Hs. now rewrite Hs.
  - intros Hs. pose proof (harmonic_within_one_ulp s t ltac:(lia) ltac:(lia)) as H.
    apply Nat.ltb_lt in Hs. now rewrite Hs.
  - intros -> ->. split; vm_compute; reflexivity.
Qed.

(** C7, the claim as stated fails: with 1 success out of 10 cases the
    [f1Score] is 0.10000000000000002, not the success rate 0.1. *)
Lemma C7_counterexample :
  let m := calculateMetrics one_of_ten in
  0 < MetricsResult.successfulTests m /\
  MetricsResult.successRate m = 0x1.999999999999ap-4%float /\
  MetricsResult.f1Score m = 0x1.999999999999bp-4%float /\
  MetricsResult.f1Score m <> MetricsResult.successRate m.
Proof.
  cbv zeta. split; [vm_compute; lia |].
  split; [vm_compute; reflexivity |].
  split; [vm_compute; reflexivity |].
  intros H.
  apply (f_equal (fun x => PrimFloat.eqb x (MetricsResult.successRate (calculateMetrics one_of_ten)))) in H.
  vm_compute in H. discriminate.
Qed.

(** C7 on a batch of four cases with three successes. *)
Lemma C7_witness :
  let m := calculateMetrics (finishedResult false 1 0 [] :: repeat (finishedResult true 1 0 []) 3) in
  MetricsResult.precision m = 0.75%float /\
  MetricsResult.recall m = 0.75%float /\
  MetricsResult.successRate m = 0.75%float /\
  MetricsResult.f1Score m = 0.75%float /\
  within_one_ulp (MetricsResult.f1Score m) (MetricsResult.successRate m) = true.
Proof.
  cbv zeta.
  pose proof (C7_accuracy_block (finishedResult false 1 0 [] :: repeat (finishedResult true 1 0 []) 3)) as H.
  cbv zeta in H.
  destruct H as (_ & Hp & Hr & _ & _ & Hnear & H).
  destruct H as [Hs Hf]; [reflexivity | reflexivity |].
  split; [now rewrite Hp |]. split; [now rewrite Hr |].
  split; [exact Hs |]. split; [exact Hf |].
  apply Hnear. cbn. lia.
Defined.

